(** * GlucoSwap: the conversion-and-history state engine

    A shallow embedding of the two screens of the application,
    [app/(tabs)/index.native.tsx] (module [Native]) and the web screen
    (module [Web]), and the properties of the engine they share: unit
    conversion, the bounded history, its persistence, input validation and
    the series handed to the chart.

    JavaScript numbers are IEEE 754 binary64 values, embedded as the
    [spec_float] of the standard library with its correctly rounded
    operations at precision 53; [Date.now()] readings, array indices and
    lengths are integers and are embedded as [Z].  Strings are byte strings
    read as UTF-8; their lengths and slices count UTF-16 code units, as
    JavaScript does.  The key-value store of the host ([AsyncStorage],
    [localStorage]) is a finite map from keys to stored texts. *)

From Stdlib Require Import ZArith Lia String Ascii.
From Stdlib Require Import QArith Qabs Qpower Lqa.
From Stdlib Require Import SpecFloat.
From stdpp Require Import base option list sorting strings pretty gmap.

Set Warnings "-register-all".
Local Open Scope Z_scope.

(** ** The host language: numbers, values, exceptions *)

Module JS.

(** *** Numbers *)

Definition number : Type := spec_float.

Definition prec : Z := 53.
Definition emax : Z := 1024.

Definition NaN : number := S754_nan.
Definition Infinity : number := S754_infinity false.
Definition zero : number := S754_zero false.

Definition isNaN (x : number) : bool :=
  match x with S754_nan => true | _ => false end.

Definition isFinite (x : number) : bool :=
  match x with S754_zero _ | S754_finite _ _ _ => true | _ => false end.

(** [x / y], [x * y], [x < y] *)
Definition div (x y : number) : number := SFdiv prec emax x y.
Definition mul (x y : number) : number := SFmul prec emax x y.
Definition lt (x y : number) : bool := SFltb x y.

(** *** [parseFloat]

    ECMAScript [parseFloat(string)]: leading white space and line
    terminators are skipped, then the longest prefix that is a
    [StrDecimalLiteral] is read, and its mathematical value is rounded to
    the nearest binary64 (ties to even).  Without such a prefix the result
    is [NaN]. *)

Definition code (c : ascii) : Z := Z.of_nat (nat_of_ascii c).

Definition is_ws1 (a : ascii) : bool :=
  let n := code a in ((9 <=? n) && (n <=? 13)) || (n =? 32).

(** U+00A0 *)
Definition is_ws2 (a b : ascii) : bool :=
  (code a =? 194) && (code b =? 160).

(** U+1680, U+2000..U+200A, U+2028, U+2029, U+202F, U+205F, U+3000, U+FEFF *)
Definition is_ws3 (a b c : ascii) : bool :=
  let x := code a in let y := code b in let z := code c in
  ((x =? 225) && (y =? 154) && (z =? 128))
  || ((x =? 226) && (y =? 128)
      && (((128 <=? z) && (z <=? 138)) || (z =? 168) || (z =? 169) || (z =? 175)))
  || ((x =? 226) && (y =? 129) && (z =? 159))
  || ((x =? 227) && (y =? 128) && (z =? 128))
  || ((x =? 239) && (y =? 187) && (z =? 191)).

(** [TrimString(inputString, start)] *)
Fixpoint trimStart (s : string) : string :=
  match s with
  | String a r1 =>
      if is_ws1 a then trimStart r1
      else
        match r1 with
        | String b r2 =>
            if is_ws2 a b then trimStart r2
            else
              match r2 with
              | String c r3 => if is_ws3 a b c then trimStart r3 else s
              | EmptyString => s
              end
        | EmptyString => s
        end
  | EmptyString => s
  end.

Definition is_digit (c : ascii) : bool :=
  (48 <=? code c) && (code c <=? 57).

(** The longest run of decimal digits at the front of [s], as the list of
    their values, and what follows it. *)
Fixpoint spanDigits (s : string) : list Z * string :=
  match s with
  | String c r =>
      if is_digit c
      then let '(ds, rest) := spanDigits r in ((code c - 48) :: ds, rest)
      else ([], s)
  | EmptyString => ([], s)
  end.

Definition digitsValue (ds : list Z) : Z :=
  fold_left (fun acc d => 10 * acc + d) ds 0.

(** [ExponentPart]: [e] or [E], an optional sign and at least one digit;
    an incomplete exponent does not belong to the literal. *)
Definition exponentPart (s : string) : Z :=
  match s with
  | String c r =>
      if (code c =? 101) || (code c =? 69) then
        let '(neg, r') :=
          match r with
          | String d r1 =>
              if code d =? 45 then (true, r1)
              else if code d =? 43 then (false, r1)
              else (false, r)
          | EmptyString => (false, r)
          end in
        match spanDigits r' with
        | ([], _) => 0
        | (ds, _) => if neg then - digitsValue ds else digitsValue ds
        end
      else 0
  | EmptyString => 0
  end.

(** The Number value of [(-1)^neg * m * 10^e] for [0 <= m]: the nearest
    binary64, ties to even, with overflow to an infinity. *)
Definition toNumber (neg : bool) (m e : Z) : number :=
  if m =? 0 then S754_zero neg
  else if 0 <=? e then
    binary_normalize prec emax
      (if neg then - (m * 10 ^ e) else m * 10 ^ e) 0 neg
  else
    let '(q, e', l) := SFdiv_core_binary prec emax m 0 (10 ^ (- e)) 0 in
    binary_round_aux prec emax neg q e' l.

Definition parseFloat (inputString : string) : number :=
  let trimmed := trimStart inputString in
  let '(neg, body) :=
    match trimmed with
    | String c r =>
        if code c =? 45 then (true, r)
        else if code c =? 43 then (false, r)
        else (false, trimmed)
    | EmptyString => (false, trimmed)
    end in
  if String.prefix "Infinity" body
  then S754_infinity neg
  else
    let '(ip, r1) := spanDigits body in
    let '(fp, r2) :=
      match r1 with
      | String c r =>
          if code c =? 46 then spanDigits r else ([], r1)
      | EmptyString => ([], r1)
      end in
    match ip, fp with
    | [], [] => NaN
    | _, _ =>
        toNumber neg (digitsValue (ip ++ fp)%list)
                 (exponentPart r2 - Z.of_nat (List.length fp))
    end.

(** [Number.prototype.toString] of an integral reading of the clock *)
Definition toString (n : Z) : string := pretty n.

(** The Number that holds an integer *)
Definition ofZ (n : Z) : number :=
  binary_normalize prec emax n 0 false.

(** *** Run-time values, as far as JSON reaches *)

Inductive value :=
| Null
| Bool (b : bool)
| Number (x : number)
| Str (s : string)
| Array (elements : list value)
| Object (fields : list (string * value)).

Inductive error := SyntaxError | TypeError | StorageError.

Inductive result (A : Type) :=
| Ok (a : A)
| Throw (e : error).
Arguments Ok {A} a.
Arguments Throw {A} e.

Definition isArray (v : value) : bool :=
  match v with Array _ => true | _ => false end.

(** *** Strings

    A string value is a sequence of UTF-16 code units; it is held here as
    the UTF-8 bytes of its characters (a surrogate that stands alone as
    the three bytes of its code point).  A character of four bytes is two
    code units, a surrogate pair; every other character is one.  The
    bytes that continue a character start no code unit. *)

Definition isContinuation (c : ascii) : bool :=
  (128 <=? code c) && (code c <? 192).

(** The code units of the character whose first byte is [c] *)
Definition unitsAt (c : ascii) : Z :=
  if code c <? 128 then 1
  else if code c <? 192 then 0
  else if code c <? 240 then 1
  else 2.

(** [s.length] *)
Fixpoint lengthOfString (s : string) : Z :=
  match s with
  | String c r => unitsAt c + lengthOfString r
  | EmptyString => 0
  end.

Definition byte (n : Z) : ascii := ascii_of_nat (Z.to_nat n).

(** The first code unit of the character of four bytes [c b1 b2 b3], the
    high surrogate of its code point, as a string *)
Definition highSurrogate (c b1 b2 b3 : ascii) : string :=
  let codePoint :=
    (code c mod 8) * 262144 + (code b1 mod 64) * 4096
    + (code b2 mod 64) * 64 + code b3 mod 64 in
  let unit := 55296 + (codePoint - 65536) / 1024 in
  String (byte 237)
    (String (byte (128 + (unit / 64) mod 64))
       (String (byte (128 + unit mod 64)) EmptyString)).

(** [s.slice(0, n)] for [0 <= n]: the first [n] code units.  A cut
    between the two units of a surrogate pair keeps the first of them. *)
Fixpoint sliceOfString (s : string) (n : Z) : string :=
  match s with
  | String c r =>
      if isContinuation c then String c (sliceOfString r n)
      else if unitsAt c <=? n then String c (sliceOfString r (n - unitsAt c))
      else if n =? 1 then
        match r with
        | String b1 (String b2 (String b3 _)) => highSurrogate c b1 b2 b3
        | _ => EmptyString
        end
      else EmptyString
  | EmptyString => EmptyString
  end.

(** [v.slice(0, n)]: arrays and strings have the method; reading it off
    [null] throws, and calling what the other values answer throws too. *)
Definition slice0 (v : value) (n : Z) : result value :=
  match v with
  | Array l => Ok (Array (take (Z.to_nat n) l))
  | Str s => Ok (Str (sliceOfString s n))
  | _ => Throw TypeError
  end.

(** [v.length] of an array or a string *)
Definition length_of (v : value) : Z :=
  match v with
  | Array l => Z.of_nat (List.length l)
  | Str s => lengthOfString s
  | _ => 0
  end.

(** *** Reading properties and coercing values

    [v.name] for one of the names the screens read off a history item
    ([id], [timestamp], [mgdlValue], [mmolValue]), which no prototype
    defines: reading it off [null] throws, an object answers with its own
    field, every other value with [undefined] ([None]). *)
Fixpoint field (name : string) (fields : list (string * value)) : option value :=
  match fields with
  | (k, x) :: rest => if String.eqb k name then Some x else field name rest
  | [] => None
  end.

Definition property (v : value) (name : string) : result (option value) :=
  match v with
  | Null => Throw TypeError
  | Object fields => Ok (field name fields)
  | _ => Ok None
  end.

Definition hasField (name : string) (fields : list (string * value)) : bool :=
  match field name fields with Some _ => true | None => false end.

(** Does the conversion of a value to a primitive throw?  [x - y],
    [new Date(x)] and the key of a React element convert an object
    through its [valueOf] and [toString].  An object out of [JSON.parse] inherits both; the
    inherited [valueOf] answers with the object itself, so the result is
    that of [toString], unless the object has a field of that name: a
    field is never a function, and the conversion throws.  An array is
    joined, which converts the elements that are not [null]. *)
Fixpoint coercionThrows (v : value) : bool :=
  match v with
  | Object fields => hasField "toString" fields
  | Array elements => existsb coercionThrows elements
  | _ => false
  end.

Definition toPrimitive (x : option value) : result unit :=
  match x with
  | Some v => if coercionThrows v then Throw TypeError else Ok tt
  | None => Ok tt
  end.

(** [x.toFixed(digits)] where nothing is known of [x]: only a number has
    the method. *)
Definition callToFixed (x : option value) : result unit :=
  match x with
  | Some (Number _) => Ok tt
  | _ => Throw TypeError
  end.

(** *** JSON

    A stored text is kept as what [JSON.parse] makes of it: either it is
    not JSON and [JSON.parse] throws a [SyntaxError] ([Malformed], with
    the characters of the text), or it is the JSON text of a value
    ([Json]).  [JSON.stringify] writes the text of a value after replacing
    the numbers JSON cannot write: [NaN] and the infinities become
    [null], and the negative zero is written [0]. *)

Inductive text :=
| Malformed (characters : string)
| Json (v : value).

Definition jsonNumber (x : number) : value :=
  match x with
  | S754_nan | S754_infinity _ => Null
  | S754_zero true => Number zero
  | _ => Number x
  end.

Fixpoint jsonImage (v : value) : value :=
  match v with
  | Number x => jsonNumber x
  | Array l => Array (map jsonImage l)
  | Object fs => Object (map (fun kv => match kv with (k, x) => (k, jsonImage x) end) fs)
  | _ => v
  end.

Definition JSON_stringify (v : value) : text := Json (jsonImage v).

Definition JSON_parse (t : text) : result value :=
  match t with
  | Malformed _ => Throw SyntaxError
  | Json v => Ok v
  end.

End JS.

(** ** Constants of both screens *)

(** [18.0182] *)
Definition CONVERSION_FACTOR : JS.number := JS.toNumber false 180182 (-4).
Definition HISTORY_STORAGE_KEY : string := "@glucoSwapHistory".
Definition MAX_HISTORY_ITEMS_DISPLAYED : Z := 100.
Definition MAX_HISTORY_ITEMS_RENDERED : Z := 20.
Definition MAX_INPUT_LENGTH : Z := 5.
Definition MIN_POINTS_FOR_CHART : Z := 2.
Definition MAX_CHART_LABELS : Z := 6.

(** ** Data model *)

(** [type Unit = 'mg/dL' | 'mmol/L'] *)
Inductive Unit := MgDl | MmolL.

Definition Unit_name (u : Unit) : string :=
  match u with MgDl => "mg/dL" | MmolL => "mmol/L" end.

Definition Unit_eqb (a b : Unit) : bool :=
  match a, b with MgDl, MgDl | MmolL, MmolL => true | _, _ => false end.

(** [interface HistoryItem] *)
Record HistoryItem := mkHistoryItem {
  id : string;
  timestamp : Z;
  mgdlValue : JS.number;
  mmolValue : JS.number
}.

(** [interface ChartDataPoint] (web screen) *)
Record ChartDataPoint := mkChartDataPoint {
  cp_timestamp : Z;
  cp_timeLabel : string;
  cp_mgdlValue : JS.number;
  cp_mmolValue : JS.number;
  cp_yValue : JS.number
}.


(** What a history item and a history are at run time *)
Definition valueOfItem (it : HistoryItem) : JS.value :=
  JS.Object [("id", JS.Str (id it));
             ("timestamp", JS.Number (JS.ofZ (timestamp it)));
             ("mgdlValue", JS.Number (mgdlValue it));
             ("mmolValue", JS.Number (mmolValue it))].

Definition valueOfHistory (h : list HistoryItem) : JS.value :=
  JS.Array (map valueOfItem h).

(** ** The host: storage, messages, component state *)

(** The key-value store.  A call may fail (store unavailable, quota
    exceeded); whether it does is the environment's choice. *)
Record Storage := mkStorage {
  items : gmap string JS.text;
  getItemFails : bool;
  setItemFails : bool;
  removeItemFails : bool
}.

Inductive Event :=
| KeyboardDismiss
| Alert (title message : string)
| WindowAlert (message : string)
| ConsoleError (message : string) (e : JS.error).

(** The state of a screen: its four [useState] cells, the store and the
    messages shown so far.  [H] is what the history cell holds: a typed
    list where the screen's own handlers built it, a run-time value where
    it comes out of [JSON.parse], whose result TypeScript's [as
    HistoryItem[]] does not check. *)
Record World (H : Type) := mkWorld {
  inputValue : string;
  selectedUnit : Unit;
  history : H;
  isHistoryLoading : bool;
  storage : Storage;
  events : list Event
}.
Arguments mkWorld {H}.
Arguments inputValue {H}.
Arguments selectedUnit {H}.
Arguments history {H}.
Arguments isHistoryLoading {H}.
Arguments storage {H}.
Arguments events {H}.

(** A computation over a world that returns or throws; what was done
    before a throw stays done. *)
Definition M (S A : Type) : Type := S -> S * JS.result A.

Definition ret {S A} (a : A) : M S A := fun w => (w, JS.Ok a).
Definition throw {S A} (e : JS.error) : M S A := fun w => (w, JS.Throw e).
Definition bind {S A B} (c : M S A) (k : A -> M S B) : M S B :=
  fun w => match c w with
           | (w', JS.Ok a) => k a w'
           | (w', JS.Throw e) => (w', JS.Throw e)
           end.
Definition lift {S A} (r : JS.result A) : M S A := fun w => (w, r).

(** [try { body } catch (e) { handler e }] *)
Definition try_catch {S A} (body : M S A) (handler : JS.error -> M S A) : M S A :=
  fun w => match body w with
           | (w', JS.Ok a) => (w', JS.Ok a)
           | (w', JS.Throw e) => handler e w'
           end.

(** [try { body } finally { fin }] *)
Definition try_finally {S A} (body : M S A) (fin : M S unit) : M S A :=
  fun w => match body w with
           | (w', r) =>
               match fin w' with
               | (w'', JS.Ok _) => (w'', r)
               | (w'', JS.Throw e) => (w'', JS.Throw e)
               end
           end.

Notation "'do' x <- c ; k" := (bind c (fun x => k))
  (at level 10, x name, c at level 100, k at level 200).
Notation "c ;; k" := (bind c (fun _ => k))
  (at level 100, k at level 200, right associativity).

Section Cells.
Context {H : Type}.

Definition setInputValue (s : string) : M (World H) unit :=
  fun w => (mkWorld s (selectedUnit w) (history w) (isHistoryLoading w)
                    (storage w) (events w), JS.Ok tt).

Definition setSelectedUnit (u : Unit) : M (World H) unit :=
  fun w => (mkWorld (inputValue w) u (history w) (isHistoryLoading w)
                    (storage w) (events w), JS.Ok tt).

Definition setHistory (f : H -> H) : M (World H) unit :=
  fun w => (mkWorld (inputValue w) (selectedUnit w) (f (history w))
                    (isHistoryLoading w) (storage w) (events w), JS.Ok tt).

Definition setIsHistoryLoading (b : bool) : M (World H) unit :=
  fun w => (mkWorld (inputValue w) (selectedUnit w) (history w) b
                    (storage w) (events w), JS.Ok tt).

Definition emit (e : Event) : M (World H) unit :=
  fun w => (mkWorld (inputValue w) (selectedUnit w) (history w)
                    (isHistoryLoading w) (storage w) (events w ++ [e]), JS.Ok tt).

Definition withStorage (s : Storage) (w : World H) : World H :=
  mkWorld (inputValue w) (selectedUnit w) (history w) (isHistoryLoading w)
          s (events w).

Definition withItems (m : gmap string JS.text) (s : Storage) : Storage :=
  mkStorage m (getItemFails s) (setItemFails s) (removeItemFails s).

(** [getItem], [setItem], [removeItem] of [AsyncStorage] and of
    [localStorage] *)
Definition getItem (key : string) : M (World H) (option JS.text) :=
  fun w => if getItemFails (storage w)
           then (w, JS.Throw JS.StorageError)
           else (w, JS.Ok (items (storage w) !! key)).

Definition setItem (key : string) (t : JS.text) : M (World H) unit :=
  fun w => if setItemFails (storage w)
           then (w, JS.Throw JS.StorageError)
           else (withStorage (withItems (<[key := t]> (items (storage w))) (storage w)) w,
                 JS.Ok tt).

Definition removeItem (key : string) : M (World H) unit :=
  fun w => if removeItemFails (storage w)
           then (w, JS.Throw JS.StorageError)
           else (withStorage (withItems (delete key (items (storage w))) (storage w)) w,
                 JS.Ok tt).
End Cells.

Definition get {S} : M S S := fun w => (w, JS.Ok w).

(** ** What the two screens share, word for word *)

Section Engine.
(** [Number.prototype.toFixed] and the locale's date formats belong to the
    host. *)
Variable toFixed : JS.number -> Z -> string.
Variable formatTimestamp : Z -> string.

(** [isInputValid] *)
Definition isInputValid (inputValue : string) : bool :=
  let numericValue := JS.parseFloat inputValue in
  negb (JS.isNaN numericValue) && JS.lt JS.zero numericValue.

(** [handleUnitChange] *)
Definition handleUnitChange {H} (newUnit : Unit) : M (World H) unit :=
  setSelectedUnit newUnit ;;
  setInputValue "".

(** The two branches of [handleConvert]: both values and the text shown *)
Definition conversion (value : JS.number) (selectedUnit : Unit)
  : JS.number * JS.number * string :=
  if Unit_eqb selectedUnit MgDl then
    let mgdlValue := value in
    let mmolValue := JS.div value CONVERSION_FACTOR in
    (mgdlValue, mmolValue,
     toFixed mgdlValue 0 +:+ " mg/dL ≈ " +:+ toFixed mmolValue 2 +:+ " mmol/L")
  else
    let mmolValue := value in
    let mgdlValue := JS.mul value CONVERSION_FACTOR in
    (mgdlValue, mmolValue,
     toFixed mmolValue 2 +:+ " mmol/L ≈ " +:+ toFixed mgdlValue 0 +:+ " mg/dL").

(** [newEntry]; [idNow] and [tsNow] are the two readings of [Date.now()] *)
Definition newEntry (idNow tsNow : Z) (mgdl mmol : JS.number) : HistoryItem :=
  {| id := JS.toString idNow; timestamp := tsNow;
     mgdlValue := mgdl; mmolValue := mmol |}.

(** [prevHistory => [newEntry, ...prevHistory].slice(0, MAX_HISTORY_ITEMS_DISPLAYED)] *)
Definition append (entry : HistoryItem) (prevHistory : list HistoryItem)
  : list HistoryItem :=
  take (Z.to_nat MAX_HISTORY_ITEMS_DISPLAYED) (entry :: prevHistory).

(** [chartYUnit] *)
Definition chartYUnit (selectedUnit : Unit) : Unit :=
  if Unit_eqb selectedUnit MgDl then MmolL else MgDl.

(** [chartYUnit === 'mg/dL' ? item.mgdlValue : item.mmolValue] *)
Definition yValueOf (chartYUnit : Unit) (item : HistoryItem) : JS.number :=
  if Unit_eqb chartYUnit MgDl then mgdlValue item else mmolValue item.

(** [[...history].sort((a, b) => a.timestamp - b.timestamp)]: the sort is
    stable, an item goes before the first one that is not older. *)
Fixpoint insertByTimestamp (a : HistoryItem) (l : list HistoryItem)
  : list HistoryItem :=
  match l with
  | [] => [a]
  | b :: r =>
      if timestamp a - timestamp b <=? 0 then a :: b :: r
      else b :: insertByTimestamp a r
  end.

Definition sortByTimestamp (history : list HistoryItem) : list HistoryItem :=
  foldr insertByTimestamp [] history.

(** A row of the history table, [renderHistoryItem] *)
Record Row := mkRow {
  row_key : string;
  row_time : string;
  row_mgdl : string;
  row_mmol : string
}.

Definition renderHistoryItem (item : HistoryItem) : Row :=
  {| row_key := id item;
     row_time := formatTimestamp (timestamp item);
     row_mgdl := toFixed (mgdlValue item) 0;
     row_mmol := toFixed (mmolValue item) 2 |}.

(** [history.slice(0, MAX_HISTORY_ITEMS_RENDERED).map(item => renderHistoryItem(item))] *)
Definition renderedRows (history : list HistoryItem) : list Row :=
  map renderHistoryItem (take (Z.to_nat MAX_HISTORY_ITEMS_RENDERED) history).

(** The save effect, up to what it tells the user when the write fails *)
Definition saveHistoryWith (onFailure : JS.error -> M (World (list HistoryItem)) unit)
  : M (World (list HistoryItem)) unit :=
  do w <- get;
  if negb (isHistoryLoading w) then
    try_catch
      (setItem HISTORY_STORAGE_KEY
         (JS.JSON_stringify
            (valueOfHistory (take (Z.to_nat MAX_HISTORY_ITEMS_DISPLAYED) (history w)))))
      onFailure
  else ret tt.

(** The same effect for a history as [loadHistory] left it, a run-time
    value: [history.slice(0, MAX_HISTORY_ITEMS_DISPLAYED)] is evaluated
    inside the [try], so a value without that method is a failed save. *)
Definition saveValueWith (onFailure : JS.error -> M (World JS.value) unit)
  : M (World JS.value) unit :=
  do w <- get;
  if negb (isHistoryLoading w) then
    try_catch
      (do historyToSave <- lift (JS.slice0 (history w) MAX_HISTORY_ITEMS_DISPLAYED);
       setItem HISTORY_STORAGE_KEY (JS.JSON_stringify historyToSave))
      onFailure
  else ret tt.
End Engine.

(** A screen as it is mounted: no input, mg/dL, no history, loading *)
Definition mounted {H} (empty : H) (s : Storage) : World H :=
  mkWorld "" MgDl empty true s [].

(** ** Rendering what was loaded

    The history that a load effect leaves is what [JSON.parse] made of the
    slot, cut by [slice]: an array, or on the native screen a string, of
    which TypeScript checked nothing.  What the component function
    evaluates of it when the screen is rendered either returns or throws
    a [TypeError]; what it shows is the matter of the typed screen.  A
    throw in a render unmounts the screen, and the effects that would
    have followed that render do not run. *)

Section Loaded.
Context {S : Type}.

Fixpoint forEachValue (body : JS.value -> M S unit) (elements : list JS.value)
  : M S unit :=
  match elements with
  | [] => ret tt
  | element :: rest => body element ;; forEachValue body rest
  end.

(** What the comparator [(a, b) => a.timestamp - b.timestamp] does with
    one of its arguments: it reads the property and converts it to a
    number. *)
Definition compared (item : JS.value) : M S unit :=
  do timestamp <- lift (JS.property item "timestamp");
  lift (JS.toPrimitive timestamp).

(** The series of the chart, [chartKitData] and [rechartsData].  Below two
    elements it is [null] and no element is looked at.  Otherwise the
    history is spread into an array and sorted; of two elements or more
    each one is handed to the comparator.  The elements of a string are
    its characters, whose properties are [undefined].  What follows the
    sort reads [timestamp], [mgdlValue] and [mmolValue] off the same
    elements and has [new Date] convert the same timestamps, so it throws
    nothing that the sort did not; the order the sort gives to values that
    are not history items is the engine's choice and is left out.  A load
    effect leaves an array or a string; the other values have no
    iterator. *)
Definition chartSeries (history : JS.value) : M S unit :=
  match history with
  | JS.Array elements =>
      if JS.length_of history <? MIN_POINTS_FOR_CHART then ret tt
      else forEachValue compared elements
  | JS.Str _ => ret tt
  | _ => throw JS.TypeError
  end.

(** [renderHistoryItem(item)]: the time of the row, its two values, and
    its key, which React turns into a string unless it is [undefined]. *)
Definition renderLoadedItem (item : JS.value) : M S unit :=
  do timestamp <- lift (JS.property item "timestamp");
  lift (JS.toPrimitive timestamp) ;;
  do mgdlValue <- lift (JS.property item "mgdlValue");
  lift (JS.callToFixed mgdlValue) ;;
  do mmolValue <- lift (JS.property item "mmolValue");
  lift (JS.callToFixed mmolValue) ;;
  do key <- lift (JS.property item "id");
  lift (JS.toPrimitive key).

(** The body of the history card:
    [history.slice(0, MAX_HISTORY_ITEMS_RENDERED).map(item => renderHistoryItem(item))]
    unless the history is loading or empty.  Only an array has [map]. *)
Definition historyCard (isHistoryLoading : bool) (history : JS.value) : M S unit :=
  if isHistoryLoading then ret tt
  else if JS.length_of history =? 0 then ret tt
  else
    do shown <- lift (JS.slice0 history MAX_HISTORY_ITEMS_RENDERED);
    match shown with
    | JS.Array elements => forEachValue renderLoadedItem elements
    | _ => throw JS.TypeError
    end.
End Loaded.

(** A render of the screen: the series is computed first, by [useMemo] in
    the body of the component, then the elements of the screen are
    built. *)
Definition render : M (World JS.value) unit :=
  do w <- get;
  chartSeries (history w) ;;
  historyCard (isHistoryLoading w) (history w).

(** [l[i]] *)
Definition at_index {A} (l : list A) (i : Z) : option A :=
  if i <? 0 then None else l !! Z.to_nat i.

(** What the user does on a screen: typing into the input
    ([onChangeText]), choosing a unit, pressing Convert at the clock
    readings [idNow] and [tsNow], pressing Clear and answering the
    confirmation. *)
Inductive Action :=
| TypeInput (text : string)
| ChangeUnit (newUnit : Unit)
| PressConvert (idNow tsNow : Z)
| PressClear (confirmed : bool).

(** Actions one after the other *)
Fixpoint run {S} (perform : Action -> M S unit) (actions : list Action) : M S unit :=
  match actions with
  | [] => ret tt
  | a :: rest => perform a ;; run perform rest
  end.

(** The readings of the clock that the conversions of a session take as
    timestamps *)
Fixpoint convertTimes (actions : list Action) : list Z :=
  match actions with
  | [] => []
  | PressConvert _ tsNow :: rest => tsNow :: convertTimes rest
  | _ :: rest => convertTimes rest
  end.

(** ** The native screen, [app/(tabs)/index.native.tsx] *)

Module Native.
Section Screen.
Variable toFixed : JS.number -> Z -> string.
Variable formatTimestampForChart : Z -> string.

(** The effect that loads the history when the screen is mounted *)
Definition loadHistory : M (World JS.value) unit :=
  setIsHistoryLoading true ;;
  try_finally
    (try_catch
       (do storedHistory <- getItem HISTORY_STORAGE_KEY;
        match storedHistory with
        | Some stored =>
            do parsedHistory <- lift (JS.JSON_parse stored);
            do sliced <- lift (JS.slice0 parsedHistory MAX_HISTORY_ITEMS_DISPLAYED);
            setHistory (fun _ => sliced)
        | None => setHistory (fun _ => JS.Array [])
        end)
       (fun e =>
          emit (ConsoleError "Failed to load history." e) ;;
          emit (Alert "Error" "Could not load conversion history.")))
    (setIsHistoryLoading false).

(** The effect that saves the history whenever it changed *)
Definition saveHistory : M (World (list HistoryItem)) unit :=
  saveHistoryWith (fun e => emit (ConsoleError "Failed to save history." e)).

(** [handleConvert]; the input is emptied when the user closes the
    result, [onPressOK]. *)
Definition handleConvert (idNow tsNow : Z) : M (World (list HistoryItem)) unit :=
  do w <- get;
  if negb (isInputValid (inputValue w)) then ret tt
  else
    emit KeyboardDismiss ;;
    let value := JS.parseFloat (inputValue w) in
    let '(mgdlValue, mmolValue, resultText) :=
      conversion toFixed value (selectedUnit w) in
    setHistory (append (newEntry idNow tsNow mgdlValue mmolValue)) ;;
    emit (Alert "Conversion Result" resultText).

Definition onPressOK : M (World (list HistoryItem)) unit :=
  setInputValue "".

(** [handleClearHistory]; [pressedDelete] is the user's answer to the
    dialog. *)
Definition handleClearHistory (pressedDelete : bool) : M (World (list HistoryItem)) unit :=
  emit KeyboardDismiss ;;
  emit (Alert "Confirm Delete"
          "Are you sure you want to delete all conversion history? This action cannot be undone.") ;;
  if pressedDelete then
    setHistory (fun _ => []) ;;
    setInputValue ""
  else ret tt.

(** What [chartKitData] hands to the chart *)
Record ChartKitData := mkChartKitData {
  labels : list string;
  data : list JS.number;
  legend : list string
}.

(** The body of [sortedHistory.forEach((item, index) => ...)]: the state of
    the loop is the two arrays [labels] and [dataPoints]. *)
Definition forEachBody (chartUnit : Unit) (len step : Z)
    (acc : list string * list JS.number) (item : HistoryItem) (index : Z)
  : list string * list JS.number :=
  let yValue := yValueOf chartUnit item in
  if (index =? 0) || (index =? len - 1) || (Z.rem index step =? 0) then
    (fst acc ++ [formatTimestampForChart (timestamp item)], snd acc ++ [yValue])%list
  else if len <=? MAX_CHART_LABELS then
    (fst acc ++ [formatTimestampForChart (timestamp item)], snd acc ++ [yValue])%list
  else acc.

Fixpoint forEachFrom (chartUnit : Unit) (len step : Z)
    (items : list HistoryItem) (index : Z) (acc : list string * list JS.number)
  : list string * list JS.number :=
  match items with
  | [] => acc
  | item :: rest =>
      forEachFrom chartUnit len step rest (index + 1)
                  (forEachBody chartUnit len step acc item index)
  end.

(** [labels[i] !== label], where [labels[i]] may be [undefined] *)
Definition differs (x : option string) (label : string) : bool :=
  match x with
  | Some l => negb (String.eqb l label)
  | None => true
  end.

(** [sortedHistory[i]] followed by the reading of a property: a
    [TypeError] where there is no such element. *)
Definition element {S} (sorted : list HistoryItem) (i : Z) : M S HistoryItem :=
  match at_index sorted i with
  | Some item => ret item
  | None => throw JS.TypeError
  end.

(** [chartKitData] after its guard on the length of the history *)
Definition thinnedSeries {S} (chartUnit : Unit) (sortedHistory : list HistoryItem)
  : M S (option ChartKitData) :=
  let len := Z.of_nat (List.length sortedHistory) in
  let step := Z.max 1 (len / MAX_CHART_LABELS) in
  let '(labels0, dataPoints0) :=
    forEachFrom chartUnit len step sortedHistory 0 ([], []) in
  do filled <-
    (if (0 <? Z.of_nat (List.length labels0)) && (0 <? Z.of_nat (List.length dataPoints0)) then
       do first <- element sortedHistory 0;
       let firstHistoryLabel := formatTimestampForChart (timestamp first) in
       let '(labels1, dataPoints1) :=
         if differs (at_index labels0 0) firstHistoryLabel
         then (firstHistoryLabel :: labels0, yValueOf chartUnit first :: dataPoints0)
         else (labels0, dataPoints0) in
       do last <- element sortedHistory (len - 1);
       let lastHistoryLabel := formatTimestampForChart (timestamp last) in
       if differs (at_index labels1 (Z.of_nat (List.length labels1) - 1)) lastHistoryLabel
       then ret ((labels1 ++ [lastHistoryLabel])%list,
                 (dataPoints1 ++ [yValueOf chartUnit last])%list)
       else ret (labels1, dataPoints1)
     else ret (labels0, dataPoints0));
  let '(labels2, dataPoints) := filled in
  let finalLabels := take (List.length dataPoints) labels2 in
  if Z.of_nat (List.length finalLabels) <? MIN_POINTS_FOR_CHART then ret None
  else ret (Some {| labels := finalLabels;
                    data := dataPoints;
                    legend := ["Glucose (" +:+ Unit_name chartUnit +:+ ")"] |}).

(** [chartKitData] *)
Definition chartKitData {S} (history : list HistoryItem) (selectedUnit : Unit)
  : M S (option ChartKitData) :=
  if Z.of_nat (List.length history) <? MIN_POINTS_FOR_CHART then ret None
  else thinnedSeries (chartYUnit selectedUnit) (sortByTimestamp history).

(** The save effect on the history that [loadHistory] left *)
Definition saveLoaded : M (World JS.value) unit :=
  saveValueWith (fun e => emit (ConsoleError "Failed to save history." e)).

(** Mounting the screen: the load effect runs (the save effect of the
    first render finds the loading flag set and does nothing); the screen
    is rendered with what was loaded; when that render returns, the save
    effect runs on what was loaded. *)
Definition mount : M (World JS.value) unit :=
  loadHistory ;;
  render ;;
  saveLoaded.

(** An action with the effects that follow it.  A conversion changes the
    history, so the save effect runs; its result is shown in a dialog that
    the user can only close by [OK], which empties the input.  A confirmed
    clear changes the history too. *)
Definition perform (a : Action) : M (World (list HistoryItem)) unit :=
  match a with
  | TypeInput text => setInputValue text
  | ChangeUnit newUnit => handleUnitChange newUnit
  | PressConvert idNow tsNow =>
      do w <- get;
      if isInputValid (inputValue w) then
        handleConvert idNow tsNow ;;
        saveHistory ;;
        onPressOK
      else handleConvert idNow tsNow
  | PressClear pressedDelete =>
      handleClearHistory pressedDelete ;;
      if pressedDelete then saveHistory else ret tt
  end.

(** [!isHistoryLoading && chartKitData && (...)]: is the chart shown? *)
Definition showsChart (w : World (list HistoryItem)) : bool :=
  negb (isHistoryLoading w)
  && match chartKitData (history w) (selectedUnit w) w with
     | (_, JS.Ok (Some _)) => true
     | _ => false
     end.
End Screen.
End Native.

(** ** The web screen *)

Module Web.
Section Screen.
Variable toFixed : JS.number -> Z -> string.
Variable formatTimestampForChart : Z -> string.

(** The effect that loads the history when the screen is mounted *)
Definition loadHistory : M (World JS.value) unit :=
  setIsHistoryLoading true ;;
  try_finally
    (try_catch
       (do storedHistory <- getItem HISTORY_STORAGE_KEY;
        match storedHistory with
        | Some stored =>
            do parsedHistory <- lift (JS.JSON_parse stored);
            if JS.isArray parsedHistory then
              do sliced <- lift (JS.slice0 parsedHistory MAX_HISTORY_ITEMS_DISPLAYED);
              setHistory (fun _ => sliced)
            else
              setHistory (fun _ => JS.Array []) ;;
              removeItem HISTORY_STORAGE_KEY
        | None => setHistory (fun _ => JS.Array [])
        end)
       (fun e =>
          emit (ConsoleError "Failed to load history from localStorage." e) ;;
          emit (WindowAlert "Error: Could not load conversion history.") ;;
          setHistory (fun _ => JS.Array [])))
    (setIsHistoryLoading false).

(** The effect that saves the history whenever it changed *)
Definition saveHistory : M (World (list HistoryItem)) unit :=
  saveHistoryWith
    (fun e =>
       emit (ConsoleError "Failed to save history to localStorage." e) ;;
       emit (WindowAlert "Warning: Could not save conversion history. Storage might be full.")).

(** [handleConvert] *)
Definition handleConvert (idNow tsNow : Z) : M (World (list HistoryItem)) unit :=
  do w <- get;
  if negb (isInputValid (inputValue w)) then ret tt
  else
    let value := JS.parseFloat (inputValue w) in
    let '(mgdlValue, mmolValue, resultText) :=
      conversion toFixed value (selectedUnit w) in
    setHistory (append (newEntry idNow tsNow mgdlValue mmolValue)) ;;
    emit (WindowAlert resultText) ;;
    setInputValue "".

(** [handleClearHistory]; [userConfirmed] is what [window.confirm]
    answers. *)
Definition handleClearHistory (userConfirmed : bool) : M (World (list HistoryItem)) unit :=
  if userConfirmed then
    setHistory (fun _ => []) ;;
    setInputValue "" ;;
    try_catch
      (removeItem HISTORY_STORAGE_KEY)
      (fun e =>
         emit (ConsoleError "Failed to clear history from localStorage." e) ;;
         emit (WindowAlert "Error: Could not clear history from storage."))
  else ret tt.

(** [rechartsData] *)
Definition rechartsData (history : list HistoryItem) (selectedUnit : Unit)
  : option (list ChartDataPoint) :=
  if Z.of_nat (List.length history) <? MIN_POINTS_FOR_CHART then None
  else
    Some (map (fun item =>
                 {| cp_timestamp := timestamp item;
                    cp_timeLabel := formatTimestampForChart (timestamp item);
                    cp_mgdlValue := mgdlValue item;
                    cp_mmolValue := mmolValue item;
                    cp_yValue := yValueOf (chartYUnit selectedUnit) item |})
              (sortByTimestamp history)).

(** The save effect on the history that [loadHistory] left *)
Definition saveLoaded : M (World JS.value) unit :=
  saveValueWith
    (fun e =>
       emit (ConsoleError "Failed to save history to localStorage." e) ;;
       emit (WindowAlert "Warning: Could not save conversion history. Storage might be full.")).

(** Mounting the screen: the load effect runs (the save effect of the
    first render finds the loading flag set and does nothing); the screen
    is rendered with what was loaded; when that render returns, the save
    effect runs on what was loaded. *)
Definition mount : M (World JS.value) unit :=
  loadHistory ;;
  render ;;
  saveLoaded.

(** An action with the effects that follow it: a conversion and a
    confirmed clear change the history, so the save effect runs. *)
Definition perform (a : Action) : M (World (list HistoryItem)) unit :=
  match a with
  | TypeInput text => setInputValue text
  | ChangeUnit newUnit => handleUnitChange newUnit
  | PressConvert idNow tsNow =>
      do w <- get;
      if isInputValid (inputValue w) then
        handleConvert idNow tsNow ;;
        saveHistory
      else handleConvert idNow tsNow
  | PressClear userConfirmed =>
      handleClearHistory userConfirmed ;;
      if userConfirmed then saveHistory else ret tt
  end.

(** [!isHistoryLoading && rechartsData && (...)]: is the chart shown? *)
Definition showsChart (w : World (list HistoryItem)) : bool :=
  negb (isHistoryLoading w)
  && match rechartsData (history w) (selectedUnit w) with
     | Some _ => true
     | None => false
     end.
End Screen.
End Web.

(** ** What both screens show of the history *)

Section Rendering.
Variable toFixed : JS.number -> Z -> string.
Variable formatTimestamp : Z -> string.




(** [!isHistoryLoading && history.length < MIN_POINTS_FOR_CHART && (...)]:
    the text that asks for more entries *)
Definition showsPlaceholder (w : World (list HistoryItem)) : bool :=
  negb (isHistoryLoading w)
  && (Z.of_nat (List.length (history w)) <? MIN_POINTS_FOR_CHART).

(** [disabled={!isInputValid}] *)
Definition convertDisabled (w : World (list HistoryItem)) : bool :=
  negb (isInputValid (inputValue w)).
End Rendering.

(** * The vocabulary of the properties *)

(** ** Conversion and the history *)

(** The entry a valid input adds to the history *)
Definition convertedEntry (idNow tsNow : Z) (inputValue : string) (u : Unit)
  : HistoryItem :=
  let v := JS.parseFloat inputValue in
  newEntry idNow tsNow
           (match u with MgDl => v | MmolL => JS.mul v CONVERSION_FACTOR end)
           (match u with MgDl => JS.div v CONVERSION_FACTOR | MmolL => v end).

(** The history after a run of appends, oldest append first *)
Definition appendAll (entries : list HistoryItem) (h : list HistoryItem)
  : list HistoryItem :=
  fold_left (fun prev entry => append entry prev) entries h.

(** Newest first: no item is newer than the one before it. *)
Definition newestFirst (h : list HistoryItem) : Prop :=
  Sorted (fun a b => timestamp b <= timestamp a) h.

(** The clock did not run backwards between the appends. *)
Definition inOrderOfCreation (entries : list HistoryItem) : Prop :=
  Sorted (fun a b => timestamp a <= timestamp b) entries.

(** Chronological order *)
Definition notAfter (a b : HistoryItem) : Prop := timestamp a <= timestamp b.

(** An entry for 120 mg/dL made at time [t] *)
Definition sampleEntry (t : Z) : HistoryItem :=
  {| id := JS.toString t; timestamp := t;
     mgdlValue := JS.toNumber false 120 0;
     mmolValue := JS.div (JS.toNumber false 120 0) CONVERSION_FACTOR |}.

(** ** The series of the chart *)

(** The label of a point *)
Definition labelOf (formatTimestampForChart : Z -> string) (item : HistoryItem)
  : string :=
  formatTimestampForChart (timestamp item).

(** The value of an item in the unit that is not the selected one *)
Definition oppositeValue (selectedUnit : Unit) (item : HistoryItem) : JS.number :=
  match selectedUnit with
  | MgDl => mmolValue item
  | MmolL => mgdlValue item
  end.

(** The test that gives a point of the sorted history its place in the
    native series *)
Definition keeps (len step index : Z) : bool :=
  (index =? 0) || (index =? len - 1) || (Z.rem index step =? 0)
  || (len <=? MAX_CHART_LABELS).

(** The items that pass the test, [index] being the place of the first *)
Fixpoint keptFrom (len step : Z) (items : list HistoryItem) (index : Z)
  : list HistoryItem :=
  match items with
  | [] => []
  | item :: rest =>
      if keeps len step index
      then item :: keptFrom len step rest (index + 1)
      else keptFrom len step rest (index + 1)
  end.

(** How many of [n] consecutive places pass the test *)
Fixpoint countFrom (len step : Z) (n : nat) (index : Z) : nat :=
  match n with
  | O => O
  | S n' =>
      if keeps len step index
      then S (countFrom len step n' (index + 1))
      else countFrom len step n' (index + 1)
  end.

(** The points of the native series: those of the sorted history that pass
    the test *)
Definition keptPoints (history : list HistoryItem) : list HistoryItem :=
  let len := Z.of_nat (length history) in
  keptFrom len (Z.max 1 (len / MAX_CHART_LABELS)) (sortByTimestamp history) 0.

(** ** The store *)

(** A store whose calls succeed *)
Definition workingStorage (m : gmap string JS.text) : Storage :=
  mkStorage m false false false.

(** A store that works and holds the text [t] in the slot of the history *)
Definition storageWith (t : JS.text) : Storage :=
  workingStorage {[ HISTORY_STORAGE_KEY := t ]}.

(** A screen that is ready: the history is loaded, the store works. *)
Definition ready (input : string) (u : Unit) (h : list HistoryItem)
    (m : gmap string JS.text) : World (list HistoryItem) :=
  mkWorld input u h false (workingStorage m) [].

(** The text in the slot of the history *)
Definition slot {H} (w : World H) : option JS.text :=
  items (storage w) !! HISTORY_STORAGE_KEY.

(** A text that is present but is not the JSON text of an array *)
Definition notAList (t : JS.text) : Prop :=
  forall l, t <> JS.Json (JS.Array l).

(** The numbers JSON can write and read back: the finite ones, the
    negative zero apart. *)
Definition storable (x : JS.number) : bool :=
  match x with
  | S754_zero false | S754_finite _ _ _ => true
  | _ => false
  end.

Definition storableItem (it : HistoryItem) : bool :=
  storable (JS.ofZ (timestamp it)) && storable (mgdlValue it)
  && storable (mmolValue it).

(** What a stored history holds for an item of infinite values *)
Definition nullified (idText : string) (t : Z) : JS.value :=
  JS.Object [("id", JS.Str idText);
             ("timestamp", JS.Number (JS.ofZ t));
             ("mgdlValue", JS.Null);
             ("mmolValue", JS.Null)].

(** A screen with two conversions in its history and in its store *)
Definition storedHistory : list HistoryItem := [sampleEntry 2; sampleEntry 1].

Definition afterSomeUse : World (list HistoryItem) :=
  ready "" MgDl storedHistory
        {[ HISTORY_STORAGE_KEY := JS.JSON_stringify (valueOfHistory storedHistory) ]}.

(** ** Readings, sessions, restarts *)

(** A value a reading can have: zero or more, possibly infinite; not [NaN],
    not below zero, not the negative zero. *)
Definition isReading (x : JS.number) : bool :=
  match x with
  | S754_zero false | S754_finite false _ _ | S754_infinity false => true
  | _ => false
  end.

Definition readingItem (it : HistoryItem) : bool :=
  isReading (mgdlValue it) && isReading (mmolValue it).

(** Strictly newest first: every item is older than the one before it. *)
Definition strictlyNewestFirst (h : list HistoryItem) : Prop :=
  Sorted (fun a b => timestamp b < timestamp a) h.

(** The point of the web chart for an item *)
Definition pointOf (formatTimestampForChart : Z -> string) (selectedUnit : Unit)
    (item : HistoryItem) : ChartDataPoint :=
  {| cp_timestamp := timestamp item;
     cp_timeLabel := formatTimestampForChart (timestamp item);
     cp_mgdlValue := mgdlValue item;
     cp_mmolValue := mmolValue item;
     cp_yValue := oppositeValue selectedUnit item |}.

(** The store answers every call. *)
Definition works (s : Storage) : Prop :=
  getItemFails s = false /\ setItemFails s = false /\ removeItemFails s = false.

(** The slot holds the text of the history in memory. *)
Definition inSync (w : World (list HistoryItem)) : Prop :=
  slot w = Some (JS.JSON_stringify (valueOfHistory (history w))).

(** A screen in use: loaded, at most 100 items, a store that works and
    holds the history. *)
Definition inUse (w : World (list HistoryItem)) : Prop :=
  isHistoryLoading w = false
  /\ Z.of_nat (length (history w)) <= MAX_HISTORY_ITEMS_DISPLAYED
  /\ works (storage w)
  /\ inSync w.

(** The history an action leaves *)
Definition historyAfter (a : Action) (w : World (list HistoryItem))
  : list HistoryItem :=
  match a with
  | PressConvert idNow tsNow =>
      if isInputValid (inputValue w)
      then append (convertedEntry idNow tsNow (inputValue w) (selectedUnit w))
                  (history w)
      else history w
  | PressClear true => []
  | _ => history w
  end.

(** Two worlds whose stores fail alike and agree on every key but the one
    of the history *)
Definition sameElsewhere {H} (w w' : World H) : Prop :=
  getItemFails (storage w') = getItemFails (storage w)
  /\ setItemFails (storage w') = setItemFails (storage w)
  /\ removeItemFails (storage w') = removeItemFails (storage w)
  /\ forall key, key <> HISTORY_STORAGE_KEY ->
       items (storage w') !! key = items (storage w) !! key.

(** What an action may do: it returns, keeps the loading flag, leaves
    [historyAfter] as the history and keeps the rest of the store. *)
Definition wellBehaved (perform : Action -> M (World (list HistoryItem)) unit)
  : Prop :=
  forall a w, exists w',
    perform a w = (w', JS.Ok tt)
    /\ isHistoryLoading w' = isHistoryLoading w
    /\ history w' = historyAfter a w
    /\ sameElsewhere w w'.

(** The readings of a session do not decrease and none is earlier than an
    item that is already in the history. *)
Definition clockRunsForward (h : list HistoryItem) (times : list Z) : Prop :=
  StronglySorted Z.le times
  /\ forall x t, x ∈ h -> t ∈ times -> timestamp x <= t.

(** A session of three conversions, a change of unit and a clear *)
Definition sampleSession : list Action :=
  [TypeInput "120"; PressConvert 1000 1000;
   ChangeUnit MmolL; TypeInput "7"; PressConvert 2000 2000;
   TypeInput "-3"; PressConvert 2500 2500;
   TypeInput "5.5"; PressConvert 3000 3001;
   PressClear false].

(** ** Numbers as rationals *)

(** The rational number that a finite binary64 holds *)
Definition valueOf (x : JS.number) : Q :=
  match x with
  | S754_finite s m e => (if s then -1 else 1) * inject_Z (Z.pos m) * 2 ^ e
  | _ => 0
  end.

(** [18.0182], the number *)
Definition factor : Q := 180182 # 10000.

(** [x] is finite and within the relative tolerance of [exact]. *)
Definition withinRelative (tolerance : Q) (x : JS.number) (exact : Q) : Prop :=
  JS.isFinite x = true
  /\ (Qabs (valueOf x - exact) <= tolerance * Qabs exact)%Q.

(** ** Renders *)

(** A step of a render looks at the history and changes nothing; when it
    throws, it throws a [TypeError]. *)
Definition looksOnly {S} (c : M S unit) : Prop :=
  forall w, c w = (w, JS.Ok tt) \/ c w = (w, JS.Throw JS.TypeError).

(** A value that has the two numbers a row of the table shows *)
Definition hasBothValues (v : JS.value) : bool :=
  match v with
  | JS.Object fields =>
      match JS.field "mgdlValue" fields, JS.field "mmolValue" fields with
      | Some (JS.Number _), Some (JS.Number _) => true
      | _, _ => false
      end
  | _ => false
  end.

(** An item one of whose values is [NaN] or infinite *)
Definition notFiniteItem (it : HistoryItem) : bool :=
  negb (JS.isFinite (mgdlValue it) && JS.isFinite (mmolValue it)).

(** * Properties *)

(** Running an effect: its combinators and the cells are unfolded, and what
    is known about the world decides the rest. *)
Ltac run_effect :=
  unfold bind, try_finally, try_catch, getItem, setItem, removeItem, lift,
    setHistory, setInputValue, setIsHistoryLoading, emit, get, ret, throw.

(** ** Conversion *)

(** The factor is the binary64 nearest to 18.0182, as a literal of the
    source is. *)
Example CONVERSION_FACTOR_value :
  CONVERSION_FACTOR = JS.parseFloat "18.0182"
  /\ CONVERSION_FACTOR = S754_finite false 5071672425367942 (-48).
Proof. vm_compute. split; reflexivity. Qed.

Section ConversionFacts.
Variable toFixed : JS.number -> Z -> string.

Lemma conversion_mgdl (v : JS.number) :
  conversion toFixed v MgDl
  = (v, JS.div v CONVERSION_FACTOR,
     toFixed v 0 +:+ " mg/dL ≈ " +:+ toFixed (JS.div v CONVERSION_FACTOR) 2 +:+ " mmol/L").
Proof. reflexivity. Qed.

Lemma conversion_mmol (v : JS.number) :
  conversion toFixed v MmolL
  = (JS.mul v CONVERSION_FACTOR, v,
     toFixed v 2 +:+ " mmol/L ≈ " +:+ toFixed (JS.mul v CONVERSION_FACTOR) 0 +:+ " mg/dL").
Proof. reflexivity. Qed.

Lemma web_handleConvert_valid (w : World (list HistoryItem)) (idNow tsNow : Z) :
  isInputValid (inputValue w) = true ->
  exists text,
    Web.handleConvert toFixed idNow tsNow w
    = (mkWorld "" (selectedUnit w)
               (append (convertedEntry idNow tsNow (inputValue w) (selectedUnit w))
                       (history w))
               (isHistoryLoading w) (storage w)
               (events w ++ [WindowAlert text]),
       JS.Ok tt).
Proof.
  intros Hv. unfold Web.handleConvert, bind, get. rewrite Hv. cbn [negb].
  destruct (selectedUnit w) eqn:Hu; cbn; rewrite Hu; eexists; reflexivity.
Qed.

Lemma native_handleConvert_valid (w : World (list HistoryItem)) (idNow tsNow : Z) :
  isInputValid (inputValue w) = true ->
  exists text,
    Native.handleConvert toFixed idNow tsNow w
    = (mkWorld (inputValue w) (selectedUnit w)
               (append (convertedEntry idNow tsNow (inputValue w) (selectedUnit w))
                       (history w))
               (isHistoryLoading w) (storage w)
               ((events w ++ [KeyboardDismiss]) ++ [Alert "Conversion Result" text]),
       JS.Ok tt).
Proof.
  intros Hv. unfold Native.handleConvert, bind, get. rewrite Hv. cbn [negb].
  destruct (selectedUnit w) eqn:Hu; cbn; rewrite Hu; eexists; reflexivity.
Qed.

Lemma web_handleConvert_invalid (w : World (list HistoryItem)) (idNow tsNow : Z) :
  isInputValid (inputValue w) = false ->
  Web.handleConvert toFixed idNow tsNow w = (w, JS.Ok tt).
Proof.
  intros Hv. unfold Web.handleConvert, bind, get. rewrite Hv. reflexivity.
Qed.

Lemma native_handleConvert_invalid (w : World (list HistoryItem)) (idNow tsNow : Z) :
  isInputValid (inputValue w) = false ->
  Native.handleConvert toFixed idNow tsNow w = (w, JS.Ok tt).
Proof.
  intros Hv. unfold Native.handleConvert, bind, get. rewrite Hv. reflexivity.
Qed.
End ConversionFacts.

(** 120 mg/dL is 6.66 mmol/L and 7 mmol/L is 126 mg/dL, to the digits
    shown to the user. *)
Example conversion_of_120_and_7 (toFixed : JS.number -> Z -> string) :
  fst (conversion toFixed (JS.parseFloat "120") MgDl)
  = (JS.parseFloat "120", JS.parseFloat "6.65993273467938")
  /\ fst (conversion toFixed (JS.parseFloat "7") MmolL)
     = (JS.parseFloat "126.1274", JS.parseFloat "7").
Proof. vm_compute. split; reflexivity. Qed.

(** ** The bounded history *)

Lemma take_cons_take {A} (n : nat) (x : A) (l : list A) :
  take n (x :: take n l) = take n (x :: l).
Proof.
  destruct n as [|n]; [reflexivity|]. cbn. f_equal.
  rewrite take_take. f_equal. lia.
Qed.

Lemma appendAll_take (entries h : list HistoryItem) :
  appendAll entries (take (Z.to_nat MAX_HISTORY_ITEMS_DISPLAYED) h)
  = take (Z.to_nat MAX_HISTORY_ITEMS_DISPLAYED) (reverse entries ++ h).
Proof.
  revert h. induction entries as [|e es IH]; intros h.
  - reflexivity.
  - cbn [appendAll fold_left]. unfold append at 2.
    rewrite take_cons_take. fold (appendAll es).
    rewrite IH, reverse_cons, <- app_assoc. reflexivity.
Qed.

Lemma appendAll_empty (entries : list HistoryItem) :
  appendAll entries []
  = take (Z.to_nat MAX_HISTORY_ITEMS_DISPLAYED) (reverse entries).
Proof.
  pose proof (appendAll_take entries []) as E.
  rewrite take_nil, app_nil_r in E. exact E.
Qed.

Lemma append_length (entry : HistoryItem) (prev : list HistoryItem) :
  Z.of_nat (length (append entry prev)) <= MAX_HISTORY_ITEMS_DISPLAYED.
Proof.
  unfold append. rewrite length_take. unfold MAX_HISTORY_ITEMS_DISPLAYED. lia.
Qed.

Lemma Sorted_take {A} (R : relation A) (n : nat) (l : list A) :
  Sorted R l -> Sorted R (take n l).
Proof.
  intros HS. revert n. induction HS as [|x l HS IH Hhd]; intros [|n]; cbn;
    try constructor.
  - apply IH.
  - destruct Hhd as [|y l' Hxy]; destruct n; cbn; constructor; assumption.
Qed.

(** *** Slices of strings *)

Lemma code_byte (n : Z) : 0 <= n < 256 -> JS.code (JS.byte n) = n.
Proof.
  intros Hn. unfold JS.code, JS.byte.
  rewrite nat_ascii_embedding by lia. lia.
Qed.

Lemma unitsAt_continuation (c : ascii) :
  JS.isContinuation c = true -> JS.unitsAt c = 0.
Proof.
  unfold JS.isContinuation, JS.unitsAt. intros H.
  apply andb_true_iff in H as [H1 H2].
  apply Z.leb_le in H1. apply Z.ltb_lt in H2.
  destruct (Z.ltb_spec (JS.code c) 128); [lia|].
  destruct (Z.ltb_spec (JS.code c) 192); [reflexivity|lia].
Qed.

Lemma unitsAt_lead (c : ascii) :
  JS.isContinuation c = false -> 1 <= JS.unitsAt c <= 2.
Proof.
  unfold JS.isContinuation, JS.unitsAt.
  destruct (Z.ltb_spec (JS.code c) 128), (Z.ltb_spec (JS.code c) 192),
    (Z.leb_spec 128 (JS.code c)), (Z.ltb_spec (JS.code c) 240);
    cbn; intros Hc; try lia; discriminate Hc.
Qed.

Lemma continuation_byte (k : Z) :
  0 <= k < 64 -> JS.isContinuation (JS.byte (128 + k)) = true.
Proof.
  intros Hk. unfold JS.isContinuation. rewrite code_byte by lia.
  apply andb_true_iff. split; [apply Z.leb_le|apply Z.ltb_lt]; lia.
Qed.

(** The high surrogate that a cut leaves is one code unit, and a slice
    keeps it. *)
Lemma highSurrogate_unit (c b1 b2 b3 : ascii) :
  JS.lengthOfString (JS.highSurrogate c b1 b2 b3) = 1
  /\ JS.sliceOfString (JS.highSurrogate c b1 b2 b3) 1
     = JS.highSurrogate c b1 b2 b3.
Proof.
  unfold JS.highSurrogate.
  set (u := 55296 + _ / 1024).
  assert (H1 : 0 <= (u / 64) mod 64 < 64) by (apply Z.mod_pos_bound; lia).
  assert (H2 : 0 <= u mod 64 < 64) by (apply Z.mod_pos_bound; lia).
  pose proof (continuation_byte _ H1) as C1.
  pose proof (continuation_byte _ H2) as C2.
  split.
  - cbn [JS.lengthOfString].
    rewrite (unitsAt_continuation _ C1), (unitsAt_continuation _ C2).
    reflexivity.
  - cbn [JS.sliceOfString].
    change (JS.isContinuation (JS.byte 237)) with false.
    change (JS.unitsAt (JS.byte 237) <=? 1) with true.
    cbn iota. rewrite C1, C2. reflexivity.
Qed.

(** A slice to [n] code units has at most [n] of them. *)
Lemma sliceOfString_length (s : string) : forall n : Z,
  0 <= n -> JS.lengthOfString (JS.sliceOfString s n) <= n.
Proof.
  induction s as [|c r IH]; intros n Hn; cbn [JS.sliceOfString];
    [cbn; lia|].
  destruct (JS.isContinuation c) eqn:Hc.
  - cbn [JS.lengthOfString]. rewrite (unitsAt_continuation _ Hc).
    specialize (IH n Hn). lia.
  - pose proof (unitsAt_lead _ Hc) as Hu.
    destruct (Z.leb_spec (JS.unitsAt c) n) as [Hle|Hgt].
    + cbn [JS.lengthOfString]. specialize (IH (n - JS.unitsAt c)). lia.
    + destruct (Z.eqb_spec n 1) as [->|Hne]; [|cbn; lia].
      destruct r as [|b1 [|b2 [|b3 r']]]; try (cbn; lia).
      rewrite (proj1 (highSurrogate_unit c b1 b2 b3)). lia.
Qed.

Lemma slice0_length v n r :
  0 <= n -> JS.slice0 v n = JS.Ok r -> JS.length_of r <= n.
Proof.
  intros Hn. destruct v; cbn; intros E; try discriminate E;
    injection E as <-; cbn.
  - apply sliceOfString_length. exact Hn.
  - rewrite length_take. lia.
Qed.

Lemma loaded_history_bounded (s : Storage) :
  JS.length_of (history (fst (Web.loadHistory (mounted (JS.Array []) s))))
  <= MAX_HISTORY_ITEMS_DISPLAYED
  /\ JS.length_of (history (fst (Native.loadHistory (mounted (JS.Array []) s))))
     <= MAX_HISTORY_ITEMS_DISPLAYED.
Proof.
  assert (H100 : 0 <= MAX_HISTORY_ITEMS_DISPLAYED) by (vm_compute; discriminate).
  split.
  - unfold Web.loadHistory, mounted. run_effect.
    cbn -[JS.slice0]. destruct (getItemFails s); [cbn; lia|].
    destruct (items s !! HISTORY_STORAGE_KEY) as [[c|v]|]; cbn -[JS.slice0];
      try lia.
    destruct (JS.isArray v); cbn -[JS.slice0].
    + destruct (JS.slice0 v MAX_HISTORY_ITEMS_DISPLAYED) as [r|e] eqn:E; cbn; [|lia].
      exact (slice0_length _ _ _ H100 E).
    + destruct (removeItemFails s); cbn; lia.
  - unfold Native.loadHistory, mounted. run_effect.
    cbn -[JS.slice0]. destruct (getItemFails s); [cbn; lia|].
    destruct (items s !! HISTORY_STORAGE_KEY) as [[c|v]|]; cbn -[JS.slice0];
      try lia.
    destruct (JS.slice0 v MAX_HISTORY_ITEMS_DISPLAYED) as [r|e] eqn:E; cbn; [|lia].
    exact (slice0_length _ _ _ H100 E).
Qed.

Lemma cleared_history (w : World (list HistoryItem)) :
  history (fst (Web.handleClearHistory true w)) = []
  /\ history (fst (Native.handleClearHistory true w)) = [].
Proof.
  split; [|reflexivity].
  unfold Web.handleClearHistory. run_effect.
  cbn. destruct (removeItemFails (storage w)); reflexivity.
Qed.

(** C2, as the code has it.  After [N] appends to the empty history the
    list holds [min N 100] items, namely the 100 latest appended, latest
    first; it is ordered newest-first by timestamp when the timestamps
    were read off a clock that did not run backwards between the appends,
    which the code does not see to.  No append (whatever the list it
    starts from), no prefix of the run, no clear and no load leaves more
    than 100 items. *)
Theorem history_after_appends (entries : list HistoryItem) :
  let h := appendAll entries [] in
  Z.of_nat (length h)
  = Z.min (Z.of_nat (length entries)) MAX_HISTORY_ITEMS_DISPLAYED
  /\ h = take 100 (reverse entries)
  /\ (inOrderOfCreation entries -> newestFirst h)
  /\ (forall k : nat,
        Z.of_nat (length (appendAll (take k entries) []))
        <= MAX_HISTORY_ITEMS_DISPLAYED)
  /\ (forall entry prev,
        append entry prev = take 100 (entry :: prev)
        /\ Z.of_nat (length (append entry prev)) <= MAX_HISTORY_ITEMS_DISPLAYED)
  /\ (forall w : World (list HistoryItem),
        history (fst (Web.handleClearHistory true w)) = []
        /\ history (fst (Native.handleClearHistory true w)) = [])
  /\ (forall s : Storage,
        JS.length_of (history (fst (Web.loadHistory (mounted (JS.Array []) s))))
        <= MAX_HISTORY_ITEMS_DISPLAYED
        /\ JS.length_of (history (fst (Native.loadHistory (mounted (JS.Array []) s))))
           <= MAX_HISTORY_ITEMS_DISPLAYED).
Proof.
  cbn zeta. split; [|split; [|split; [|split; [|split; [|split]]]]];
    [| | | | |intros w; split; apply cleared_history|apply loaded_history_bounded];
    repeat split.
  - rewrite appendAll_empty, length_take, length_reverse.
    unfold MAX_HISTORY_ITEMS_DISPLAYED. lia.
  - apply appendAll_empty.
  - intros Hin. rewrite appendAll_empty. apply Sorted_take.
    apply (Sorted_reverse _ _ Hin).
  - intros k. rewrite appendAll_empty, length_take.
    unfold MAX_HISTORY_ITEMS_DISPLAYED. lia.
  - apply append_length.
Qed.

Lemma history_after_appends_witness :
  inOrderOfCreation [sampleEntry 1000; sampleEntry 1000; sampleEntry 2500]
  /\ newestFirst (appendAll [sampleEntry 1000; sampleEntry 1000; sampleEntry 2500] []).
Proof.
  assert (Hin : inOrderOfCreation
                  [sampleEntry 1000; sampleEntry 1000; sampleEntry 2500]).
  { unfold inOrderOfCreation. repeat constructor; cbn; lia. }
  split; [exact Hin|].
  exact (proj1 (proj2 (proj2
           (history_after_appends
              [sampleEntry 1000; sampleEntry 1000; sampleEntry 2500]))) Hin).
Defined.

(** C2 as stated fails.  The history is in the order of arrival and is
    never sorted, and the timestamps are readings of the clock of the
    host, which can be set back: two conversions, the second at an earlier
    reading than the first, leave a history of two items that is not
    newest-first by timestamp, on both screens. *)
Lemma appends_against_the_clock_are_not_newest_first :
  (let h := appendAll [sampleEntry 2000; sampleEntry 1000] [] in
   map timestamp h = [1000; 2000] /\ ~ newestFirst h)
  /\
  (let session := [TypeInput "120"; PressConvert 2000 2000;
                   TypeInput "7"; PressConvert 1000 1000] in
   let web := history (fst (run (Web.perform (fun _ _ => "")) session
                              (ready "" MgDl [] ∅))) in
   let native := history (fst (run (Native.perform (fun _ _ => "")) session
                                 (ready "" MgDl [] ∅))) in
   map timestamp web = [1000; 2000] /\ ~ newestFirst web
   /\ map timestamp native = [1000; 2000] /\ ~ newestFirst native).
Proof.
  assert (H : forall h, map timestamp h = [1000; 2000] -> ~ newestFirst h).
  { intros [|a [|b [|c h]]] E; try discriminate E.
    injection E as Ea Eb. intros HS.
    apply Sorted_inv in HS as [_ Hhd]. apply HdRel_inv in Hhd. lia. }
  cbn zeta. repeat split; try (apply H); vm_compute; reflexivity.
Qed.

(** ** The history table *)

(** C10. The table shows the first 20 items of the history and nothing
    else, whatever the number of items stored: row [i] renders item [i] for
    [i < 20], there is no row from 20 on, and a full history of 100 items
    gets 20 rows. *)
Theorem table_shows_first_20
    (toFixed : JS.number -> Z -> string) (formatTimestamp : Z -> string)
    (history : list HistoryItem) :
  let rows := renderedRows toFixed formatTimestamp history in
  Z.of_nat (length rows) <= MAX_HISTORY_ITEMS_RENDERED
  /\ length rows = Nat.min 20 (length history)
  /\ rows = map (renderHistoryItem toFixed formatTimestamp) (take 20 history)
  /\ (forall i : nat,
        rows !! i
        = if (Z.of_nat i <? MAX_HISTORY_ITEMS_RENDERED)
          then renderHistoryItem toFixed formatTimestamp <$> history !! i
          else None)
  /\ (Z.of_nat (length history) = MAX_HISTORY_ITEMS_DISPLAYED ->
      Z.of_nat (length rows) = MAX_HISTORY_ITEMS_RENDERED).
Proof.
  cbn zeta. unfold renderedRows, MAX_HISTORY_ITEMS_RENDERED,
    MAX_HISTORY_ITEMS_DISPLAYED.
  change (Z.to_nat 20) with 20%nat.
  repeat split.
  - rewrite length_map, length_take. lia.
  - rewrite length_map, length_take. reflexivity.
  - intros i. rewrite list_lookup_fmap.
    destruct (Z.ltb_spec (Z.of_nat i) 20) as [Hlt|Hge].
    + rewrite lookup_take_lt by lia. reflexivity.
    + rewrite lookup_take_ge by lia. reflexivity.
  - intros Hlen. rewrite length_map, length_take. lia.
Qed.

Lemma table_shows_first_20_witness :
  let h := appendAll (map sampleEntry (map Z.of_nat (seq 0 100))) [] in
  Z.of_nat (length h) = MAX_HISTORY_ITEMS_DISPLAYED
  /\ Z.of_nat (length (renderedRows (fun _ _ => "") (fun _ => "") h))
     = MAX_HISTORY_ITEMS_RENDERED.
Proof.
  cbn zeta.
  assert (Hlen : Z.of_nat (length (appendAll
                    (map sampleEntry (map Z.of_nat (seq 0 100))) []))
                 = MAX_HISTORY_ITEMS_DISPLAYED) by (vm_compute; reflexivity).
  split; [exact Hlen|].
  exact (proj2 (proj2 (proj2 (proj2
           (table_shows_first_20 (fun _ _ => "") (fun _ => "") _)))) Hlen).
Defined.

(** ** Chronological order *)

Lemma insertByTimestamp_length a l :
  length (insertByTimestamp a l) = S (length l).
Proof.
  induction l as [|b r IH]; cbn; [reflexivity|].
  destruct (timestamp a - timestamp b <=? 0); cbn; [reflexivity|].
  rewrite IH. reflexivity.
Qed.

Lemma sortByTimestamp_cons a h :
  sortByTimestamp (a :: h) = insertByTimestamp a (sortByTimestamp h).
Proof. reflexivity. Qed.

Lemma sortByTimestamp_length h :
  length (sortByTimestamp h) = length h.
Proof.
  induction h as [|a h IH]; [reflexivity|].
  rewrite sortByTimestamp_cons, insertByTimestamp_length, IH. reflexivity.
Qed.

Lemma insertByTimestamp_perm a l :
  insertByTimestamp a l ≡ₚ a :: l.
Proof.
  induction l as [|b r IH]; cbn; [reflexivity|].
  destruct (timestamp a - timestamp b <=? 0); [reflexivity|].
  rewrite IH. apply Permutation_swap.
Qed.

Lemma sortByTimestamp_perm h : sortByTimestamp h ≡ₚ h.
Proof.
  induction h as [|a h IH]; [reflexivity|].
  rewrite sortByTimestamp_cons, insertByTimestamp_perm, IH. reflexivity.
Qed.

Lemma insertByTimestamp_sorted a l :
  StronglySorted notAfter l -> StronglySorted notAfter (insertByTimestamp a l).
Proof.
  induction 1 as [|b r Hr IH Hb]; cbn.
  - repeat constructor.
  - destruct (Z.leb_spec (timestamp a - timestamp b) 0) as [Hle|Hgt].
    + constructor; [constructor; assumption|].
      constructor; [unfold notAfter; lia|].
      eapply Forall_impl; [exact Hb|]. unfold notAfter. intros; lia.
    + constructor; [exact IH|].
      rewrite insertByTimestamp_perm. constructor; [unfold notAfter; lia|exact Hb].
Qed.

Lemma sortByTimestamp_sorted h : StronglySorted notAfter (sortByTimestamp h).
Proof.
  induction h as [|a h IH]; [constructor|].
  rewrite sortByTimestamp_cons. apply insertByTimestamp_sorted, IH.
Qed.

(** Items with the same timestamp keep the order they had: the sort is
    stable. *)
Lemma insertByTimestamp_stable t a l :
  StronglySorted notAfter l ->
  filter (fun x => bool_decide (timestamp x = t)) (insertByTimestamp a l)
  = filter (fun x => bool_decide (timestamp x = t)) (a :: l).
Proof.
  induction 1 as [|b r Hr IH Hb]; [reflexivity|]. cbn [insertByTimestamp].
  destruct (Z.leb_spec (timestamp a - timestamp b) 0) as [Hle|Hgt]; [reflexivity|].
  rewrite filter_cons, IH, !filter_cons.
  destruct (decide (bool_decide (timestamp b = t))) as [Eb|Eb];
    destruct (decide (bool_decide (timestamp a = t))) as [Ea|Ea];
    try reflexivity.
  apply bool_decide_unpack in Eb, Ea. lia.
Qed.

Lemma sortByTimestamp_stable t h :
  filter (fun x => bool_decide (timestamp x = t)) (sortByTimestamp h)
  = filter (fun x => bool_decide (timestamp x = t)) h.
Proof.
  induction h as [|a h IH]; [reflexivity|]. rewrite sortByTimestamp_cons.
  rewrite insertByTimestamp_stable by apply sortByTimestamp_sorted.
  rewrite !filter_cons, IH. reflexivity.
Qed.

(** The first item of the sorted history is an oldest one and the last item
    a newest one. *)
Lemma sorted_ends h first last_ :
  head (sortByTimestamp h) = Some first ->
  last (sortByTimestamp h) = Some last_ ->
  forall x, x ∈ h -> timestamp first <= timestamp x <= timestamp last_.
Proof.
  intros Hhd Hlast x Hx.
  rewrite <- (sortByTimestamp_perm h) in Hx.
  pose proof (sortByTimestamp_sorted h) as HS.
  destruct (sortByTimestamp h) as [|y l]; [discriminate|].
  cbn in Hhd. injection Hhd as ->.
  split.
  - apply StronglySorted_inv in HS as [_ HF].
    apply elem_of_cons in Hx as [->|Hx]; [lia|].
    rewrite Forall_forall in HF. apply (HF x Hx).
  - apply last_Some in Hlast as [l' El].
    rewrite El in HS, Hx.
    apply StronglySorted_app in HS as (HF & _ & _).
    apply elem_of_app in Hx as [Hx|Hx].
    + apply (HF x last_ Hx). apply list_elem_of_singleton. reflexivity.
    + apply list_elem_of_singleton in Hx as ->. lia.
Qed.

(** ** The series of the native chart *)

Section Thinning.
Variable formatTimestampForChart : Z -> string.

Lemma forEachBody_keeps cu len step acc item index :
  Native.forEachBody formatTimestampForChart cu len step acc item index
  = if keeps len step index
    then (fst acc ++ [labelOf formatTimestampForChart item], snd acc ++ [yValueOf cu item])
    else acc.
Proof.
  unfold Native.forEachBody, keeps.
  destruct ((index =? 0) || (index =? len - 1) || (Z.rem index step =? 0));
    [reflexivity|].
  cbn [orb]. destruct (len <=? MAX_CHART_LABELS); reflexivity.
Qed.

Lemma forEachFrom_kept cu len step items : forall index acc,
  Native.forEachFrom formatTimestampForChart cu len step items index acc
  = (fst acc ++ map (labelOf formatTimestampForChart) (keptFrom len step items index),
     snd acc ++ map (yValueOf cu) (keptFrom len step items index)).
Proof.
  induction items as [|item rest IH]; intros index acc.
  - cbn. rewrite !app_nil_r. destruct acc; reflexivity.
  - cbn [Native.forEachFrom keptFrom]. rewrite IH, forEachBody_keeps.
    destruct (keeps len step index); cbn [fst snd map];
      rewrite <- ?app_assoc; reflexivity.
Qed.

Lemma keptFrom_length len step items : forall index,
  length (keptFrom len step items index)
  = countFrom len step (length items) index.
Proof.
  induction items as [|item rest IH]; intros index; [reflexivity|].
  cbn [keptFrom countFrom length].
  destruct (keeps len step index); cbn [length]; rewrite IH; reflexivity.
Qed.

Lemma keptFrom_last len step items : forall index,
  items <> [] ->
  index + Z.of_nat (length items) = len ->
  last (keptFrom len step items index) = last items.
Proof.
  induction items as [|x [|y r] IH]; intros index Hne Hlen; [congruence| |].
  - cbn [keptFrom]. unfold keeps. cbn [length] in Hlen.
    replace (index =? len - 1) with true by (symmetry; apply Z.eqb_eq; lia).
    rewrite orb_true_r. reflexivity.
  - assert (Hl : last (keptFrom len step (y :: r) (index + 1)) = last (y :: r)).
    { apply IH; [discriminate|]. cbn [length] in *. lia. }
    cbn [keptFrom] in *. destruct (keeps len step index).
    + rewrite last_cons, Hl. rewrite (last_cons x).
      destruct (last (y :: r)) eqn:E; [reflexivity|].
      apply last_None in E. discriminate.
    + rewrite Hl. rewrite (last_cons x).
      destruct (last (y :: r)) eqn:E; [reflexivity|].
      apply last_None in E. discriminate.
Qed.

Lemma keptFrom_head len step x rest :
  keptFrom len step (x :: rest) 0 = x :: keptFrom len step rest 1.
Proof. reflexivity. Qed.

Lemma at_index_last {A} (l : list A) :
  at_index l (Z.of_nat (length l) - 1) = last l.
Proof.
  unfold at_index. rewrite last_lookup.
  destruct l as [|x l]; [reflexivity|].
  destruct (Z.ltb_spec (Z.of_nat (length (x :: l)) - 1) 0) as [H|H];
    [cbn [length] in H; lia|].
  f_equal. cbn [length]. lia.
Qed.

Lemma last_map {A B} (f : A -> B) (l : list A) :
  last (map f l) = option_map f (last l).
Proof.
  induction l as [|a [|b l] IH]; [reflexivity..|].
  change (last (map f (b :: l)) = option_map f (last (b :: l))) in IH.
  change (map f (a :: b :: l)) with (f a :: map f (b :: l)).
  rewrite last_cons, IH, (last_cons a).
  destruct (last (b :: l)); reflexivity.
Qed.

Lemma differs_same s : Native.differs (Some s) s = false.
Proof. cbn. rewrite String.eqb_refl. reflexivity. Qed.

(** The series of a sorted history that is not empty: the points that
    pass the test, in order.  The two repairs of the ends find nothing to
    do, because the first and the last point always pass the test. *)
Lemma thinnedSeries_kept {S} cu (x : HistoryItem) (rest : list HistoryItem) (w : S) :
  let sorted := x :: rest in
  let len := Z.of_nat (length sorted) in
  let kept := keptFrom len (Z.max 1 (len / MAX_CHART_LABELS)) sorted 0 in
  Native.thinnedSeries formatTimestampForChart cu sorted w
  = (w, JS.Ok (if Z.of_nat (length kept) <? MIN_POINTS_FOR_CHART then None
               else Some {| Native.labels := map (labelOf formatTimestampForChart) kept;
                            Native.data := map (yValueOf cu) kept;
                            Native.legend := ["Glucose (" +:+ Unit_name cu +:+ ")"] |})).
Proof.
  intros sorted len kept. unfold Native.thinnedSeries.
  fold sorted. fold len. rewrite forEachFrom_kept. cbn [fst snd app].
  fold kept.
  assert (Hk : kept = x :: keptFrom len (Z.max 1 (len / MAX_CHART_LABELS)) rest 1)
    by reflexivity.
  assert (Hlast : last kept = last sorted).
  { apply keptFrom_last; [discriminate|]. unfold len. lia. }
  destruct (last sorted) as [z|] eqn:Ez;
    [|apply last_None in Ez; discriminate].
  assert (Hel : at_index sorted (len - 1) = Some z).
  { unfold len. rewrite at_index_last. exact Ez. }
  unfold Native.element, bind, ret, labelOf in *.
  rewrite !length_map.
  replace (0 <? Z.of_nat (length kept)) with true
    by (rewrite Hk; cbn [length]; symmetry; apply Z.ltb_lt; lia).
  cbn [andb]. change (at_index sorted 0) with (Some x). cbn beta iota.
  replace (at_index (map (fun item => formatTimestampForChart (timestamp item)) kept) 0)
    with (Some (formatTimestampForChart (timestamp x)))
    by (rewrite Hk; reflexivity).
  rewrite differs_same. rewrite Hel. cbn beta iota.
  rewrite at_index_last, last_map, Hlast. cbn [option_map].
  rewrite differs_same. cbn beta iota. rewrite length_map.
  rewrite take_ge by (rewrite length_map; lia).
  rewrite length_map.
  destruct (Z.of_nat (length kept) <? MIN_POINTS_FOR_CHART); reflexivity.
Qed.

(** The guard of [chartKitData] is not what keeps the code after it from
    failing: that code returns [null] for an empty series, and throws for
    no series at all. *)
Lemma thinnedSeries_empty {S} cu (w : S) :
  Native.thinnedSeries formatTimestampForChart cu [] w = (w, JS.Ok None).
Proof. reflexivity. Qed.

Lemma thinnedSeries_returns {S} cu sorted (w : S) :
  exists series,
    Native.thinnedSeries formatTimestampForChart cu sorted w = (w, JS.Ok series).
Proof.
  destruct sorted as [|x rest].
  - eexists. apply thinnedSeries_empty.
  - eexists. apply thinnedSeries_kept.
Qed.
End Thinning.

Section Charts.
Variable formatTimestampForChart : Z -> string.

Lemma yValueOf_chartYUnit u item :
  yValueOf (chartYUnit u) item = oppositeValue u item.
Proof. destruct u; reflexivity. Qed.

Lemma keptPoints_ends history :
  (2 <= length history)%nat ->
  exists first last_ middle,
    head (sortByTimestamp history) = Some first
    /\ last (sortByTimestamp history) = Some last_
    /\ keptPoints history = first :: middle ++ [last_].
Proof.
  intros Hlen. unfold keptPoints.
  pose proof (sortByTimestamp_length history) as Hs.
  set (step := Z.max 1 (Z.of_nat (length history) / MAX_CHART_LABELS)).
  destruct (sortByTimestamp history) as [|x [|y r]] eqn:E;
    cbn [length] in Hs; try lia.
  assert (Hl : last (keptFrom (Z.of_nat (length history)) step (y :: r) 1)
               = last (y :: r)).
  { apply keptFrom_last; [discriminate|]. cbn [length]. lia. }
  destruct (last (y :: r)) as [z|] eqn:Ez;
    [|apply last_None in Ez; discriminate].
  apply last_Some in Hl as [middle Hm].
  exists x, z, middle. repeat split.
  - rewrite (last_cons x), Ez. reflexivity.
  - rewrite keptFrom_head, Hm. reflexivity.
Qed.

(** [chartKitData] in one equation: no series below two items, and
    otherwise the labels and the values of the points that pass the
    test. *)
Lemma chartKitData_series {S} history u (w : S) :
  Native.chartKitData formatTimestampForChart history u w
  = (w, JS.Ok
          (if Z.of_nat (length history) <? MIN_POINTS_FOR_CHART then None
           else Some {| Native.labels :=
                          map (labelOf formatTimestampForChart) (keptPoints history);
                        Native.data :=
                          map (oppositeValue u) (keptPoints history);
                        Native.legend :=
                          ["Glucose (" +:+ Unit_name (chartYUnit u) +:+ ")"] |})).
Proof.
  unfold Native.chartKitData.
  destruct (Z.ltb_spec (Z.of_nat (length history)) MIN_POINTS_FOR_CHART)
    as [Hlt|Hge]; [reflexivity|].
  unfold MIN_POINTS_FOR_CHART in Hge.
  destruct (keptPoints_ends history) as (f & l & m & Hf & Hl & Hk); [lia|].
  pose proof (sortByTimestamp_length history) as Hs.
  destruct (sortByTimestamp history) as [|x rest] eqn:E; [discriminate|].
  rewrite thinnedSeries_kept. cbn zeta.
  assert (Hk' : keptFrom (Z.of_nat (length (x :: rest)))
                  (Z.max 1 (Z.of_nat (length (x :: rest)) / MAX_CHART_LABELS))
                  (x :: rest) 0 = keptPoints history).
  { unfold keptPoints. rewrite E, Hs. reflexivity. }
  rewrite Hk'.
  replace (Z.of_nat (length (keptPoints history)) <? MIN_POINTS_FOR_CHART)
    with false.
  2:{ symmetry. apply Z.ltb_ge. rewrite Hk. cbn [length].
      rewrite length_app. cbn [length]. unfold MIN_POINTS_FOR_CHART. lia. }
  do 3 f_equal. f_equal.
  apply map_ext. intros a. apply yValueOf_chartYUnit.
Qed.

(** C7. A history of fewer than two items, the empty one included, gets
    no series from either screen ([null]), and the code of the native
    series behind the guard, run on such a history or on no item at all,
    returns [null] as well instead of throwing. *)
Theorem no_series_below_two_items {S} (history : list HistoryItem) (u : Unit) (w : S) :
  Z.of_nat (length history) < MIN_POINTS_FOR_CHART ->
  Native.chartKitData formatTimestampForChart history u w = (w, JS.Ok None)
  /\ Web.rechartsData formatTimestampForChart history u = None
  /\ Native.thinnedSeries formatTimestampForChart (chartYUnit u)
       (sortByTimestamp history) w = (w, JS.Ok None)
  /\ Native.thinnedSeries formatTimestampForChart (chartYUnit u) [] w
     = (w, JS.Ok None).
Proof.
  intros Hlt. unfold Native.chartKitData, Web.rechartsData.
  replace (Z.of_nat (length history) <? MIN_POINTS_FOR_CHART) with true
    by (symmetry; apply Z.ltb_lt; exact Hlt).
  repeat split.
  unfold MIN_POINTS_FOR_CHART in Hlt.
  destruct history as [|x [|y r]]; [reflexivity| |cbn [length] in Hlt; lia].
  change (sortByTimestamp [x]) with [x].
  rewrite thinnedSeries_kept. reflexivity.
Qed.

End Charts.

Lemma no_series_below_two_items_witness :
  Z.of_nat (length [sampleEntry 5]) < MIN_POINTS_FOR_CHART
  /\ Native.chartKitData (fun _ => "") [sampleEntry 5] MgDl tt = (tt, JS.Ok None).
Proof.
  assert (Hlt : Z.of_nat (length [sampleEntry 5]) < MIN_POINTS_FOR_CHART)
    by (vm_compute; reflexivity).
  split; [exact Hlt|].
  exact (proj1 (no_series_below_two_items (fun _ => "") [sampleEntry 5] MgDl tt Hlt)).
Defined.

(** C9. What is charted is the value in the unit opposite to the selected
    input unit: with mg/dL selected every point carries the mmol/L value of
    its item, with mmol/L selected the mg/dL value.  On the web screen the
    points are all the items in chronological order, on the native screen
    those that pass the test. *)
Theorem chart_shows_opposite_unit {S}
    (formatTimestampForChart : Z -> string)
    (history : list HistoryItem) (selectedUnit : Unit) (w : S) :
  chartYUnit MgDl = MmolL
  /\ chartYUnit MmolL = MgDl
  /\ Web.rechartsData formatTimestampForChart history selectedUnit
     = (if Z.of_nat (length history) <? MIN_POINTS_FOR_CHART then None
        else Some (map (fun item =>
                          {| cp_timestamp := timestamp item;
                             cp_timeLabel := formatTimestampForChart (timestamp item);
                             cp_mgdlValue := mgdlValue item;
                             cp_mmolValue := mmolValue item;
                             cp_yValue := oppositeValue selectedUnit item |})
                       (sortByTimestamp history)))
  /\ Native.chartKitData formatTimestampForChart history selectedUnit w
     = (w, JS.Ok
             (if Z.of_nat (length history) <? MIN_POINTS_FOR_CHART then None
              else Some {| Native.labels :=
                             map (labelOf formatTimestampForChart) (keptPoints history);
                           Native.data :=
                             map (oppositeValue selectedUnit) (keptPoints history);
                           Native.legend :=
                             ["Glucose (" +:+ Unit_name (chartYUnit selectedUnit) +:+ ")"] |})).
Proof.
  split; [reflexivity|]. split; [reflexivity|]. split.
  - unfold Web.rechartsData.
    destruct (Z.of_nat (length history) <? MIN_POINTS_FOR_CHART); [reflexivity|].
    f_equal. apply map_ext. intros item.
    rewrite yValueOf_chartYUnit. reflexivity.
  - apply chartKitData_series.
Qed.

(** C6. A history of 50 items, step [max(1, floor(50 / 6)) = 8]: the
    series has 8 labels (the points 0, 8, ..., 48 and 49; at most 8) and as
    many values; its first label and value are those of the oldest item and
    its last label and value those of the newest item. *)
Theorem series_of_50_items {S}
    (formatTimestampForChart : Z -> string)
    (history : list HistoryItem) (selectedUnit : Unit) (w : S) :
  length history = 50%nat ->
  Z.max 1 (Z.of_nat (length history) / MAX_CHART_LABELS) = 8
  /\ exists series first last_,
       Native.chartKitData formatTimestampForChart history selectedUnit w
       = (w, JS.Ok (Some series))
       /\ Z.of_nat (length (Native.labels series)) <= MAX_CHART_LABELS + 2
       /\ length (Native.labels series) = 8%nat
       /\ length (Native.data series) = length (Native.labels series)
       /\ head (sortByTimestamp history) = Some first
       /\ last (sortByTimestamp history) = Some last_
       /\ (forall x, x ∈ history ->
              timestamp first <= timestamp x <= timestamp last_)
       /\ head (Native.labels series)
          = Some (formatTimestampForChart (timestamp first))
       /\ head (Native.data series) = Some (oppositeValue selectedUnit first)
       /\ last (Native.labels series)
          = Some (formatTimestampForChart (timestamp last_))
       /\ last (Native.data series) = Some (oppositeValue selectedUnit last_).
Proof.
  intros Hlen. split; [rewrite Hlen; reflexivity|].
  destruct (keptPoints_ends history) as (f & l & m & Hf & Hl & Hk); [lia|].
  eexists _, f, l. split.
  { rewrite chartKitData_series. rewrite Hlen. reflexivity. }
  cbn [Native.labels Native.data].
  assert (Hcount : length (keptPoints history) = 8%nat).
  { unfold keptPoints. rewrite keptFrom_length, sortByTimestamp_length, Hlen.
    vm_compute. reflexivity. }
  rewrite !length_map, Hcount, Hk. cbn [map head].
  rewrite !map_app. cbn [map]. rewrite !app_comm_cons, !last_snoc.
  split; [unfold MAX_CHART_LABELS; lia|].
  split; [reflexivity|]. split; [reflexivity|].
  split; [exact Hf|]. split; [exact Hl|].
  split; [intros x Hx; exact (sorted_ends _ _ _ Hf Hl x Hx)|].
  repeat split.
Qed.

Lemma series_of_50_items_witness :
  let history := map sampleEntry (map Z.of_nat (seq 0 50)) in
  length history = 50%nat
  /\ exists series first last_,
       Native.chartKitData (fun t => JS.toString t) history MgDl tt
       = (tt, JS.Ok (Some series))
       /\ Z.of_nat (length (Native.labels series)) <= MAX_CHART_LABELS + 2
       /\ length (Native.labels series) = 8%nat
       /\ length (Native.data series) = length (Native.labels series)
       /\ head (sortByTimestamp history) = Some first
       /\ last (sortByTimestamp history) = Some last_
       /\ (forall x, x ∈ history ->
              timestamp first <= timestamp x <= timestamp last_)
       /\ head (Native.labels series) = Some (JS.toString (timestamp first))
       /\ head (Native.data series) = Some (oppositeValue MgDl first)
       /\ last (Native.labels series) = Some (JS.toString (timestamp last_))
       /\ last (Native.data series) = Some (oppositeValue MgDl last_).
Proof.
  cbn zeta.
  assert (Hlen : length (map sampleEntry (map Z.of_nat (seq 0 50))) = 50%nat)
    by reflexivity.
  split; [exact Hlen|].
  exact (proj2 (series_of_50_items (fun t => JS.toString t)
                  (map sampleEntry (map Z.of_nat (seq 0 50))) MgDl tt Hlen)).
Defined.

(** ** Validation of the input *)

Example isInputValid_120 : isInputValid "120" = true.
Proof. vm_compute. reflexivity. Qed.

Example isInputValid_rejects :
  map isInputValid [""; "abc"; "0"; "-5"; "."; "NaN"; "-Infinity"]
  = [false; false; false; false; false; false; false].
Proof. vm_compute. reflexivity. Qed.

Example isInputValid_reads_a_prefix :
  JS.parseFloat "12abc" = JS.toNumber false 12 0 /\ isInputValid "12abc" = true.
Proof. vm_compute. split; reflexivity. Qed.

(** The predicate holds exactly for the inputs that [parseFloat] reads as a
    positive finite number or as [Infinity]. *)
Lemma isInputValid_iff (inputValue : string) :
  isInputValid inputValue = true
  <-> match JS.parseFloat inputValue with
      | S754_finite false _ _ | S754_infinity false => True
      | _ => False
      end.
Proof.
  unfold isInputValid.
  destruct (JS.parseFloat inputValue) as [[|]|[|]| |[|] m e]; cbn;
    split; intros H; try discriminate H; try contradiction; try exact I;
    reflexivity.
Qed.

(** C8. The input [1e999], five characters, is read by [parseFloat] as
    [Infinity], which is neither [NaN] nor below zero: the predicate holds
    although the number is not finite, and [handleConvert] puts an item of
    infinite values into the history (so does the input [Infinity]). *)
Theorem isInputValid_accepts_infinity :
  Z.of_nat (String.length "1e999") <= MAX_INPUT_LENGTH
  /\ JS.parseFloat "1e999" = JS.Infinity
  /\ JS.isFinite (JS.parseFloat "1e999") = false
  /\ isInputValid "1e999" = true
  /\ isInputValid "Infinity" = true
  /\ history (fst (Web.handleConvert (fun _ _ => "") 1700000000000 1700000000000
                     (ready "1e999" MgDl [] ∅)))
     = [{| id := "1700000000000"; timestamp := 1700000000000;
           mgdlValue := JS.Infinity; mmolValue := JS.Infinity |}]
  /\ history (fst (Native.handleConvert (fun _ _ => "") 1700000000000 1700000000000
                     (ready "1e999" MgDl [] ∅)))
     = [{| id := "1700000000000"; timestamp := 1700000000000;
           mgdlValue := JS.Infinity; mmolValue := JS.Infinity |}].
Proof. vm_compute. repeat split; try reflexivity; discriminate. Qed.

(** ** Persistence *)

Lemma jsonNumber_storable x :
  storable x = true -> JS.jsonNumber x = JS.Number x.
Proof.
  destruct x as [[|]| | |]; cbn; intros H; try discriminate H; reflexivity.
Qed.

Lemma jsonImage_item it :
  storableItem it = true -> JS.jsonImage (valueOfItem it) = valueOfItem it.
Proof.
  unfold storableItem. intros H.
  apply andb_prop in H as [H H3]. apply andb_prop in H as [H1 H2].
  unfold valueOfItem. cbn [JS.jsonImage map].
  rewrite !jsonNumber_storable by assumption. reflexivity.
Qed.

Lemma jsonImage_history h :
  forallb storableItem h = true ->
  JS.jsonImage (valueOfHistory h) = valueOfHistory h.
Proof.
  unfold valueOfHistory. cbn [JS.jsonImage]. intros H. f_equal.
  induction h as [|it h IH]; [reflexivity|].
  cbn [forallb] in H. apply andb_prop in H as [Hi Hh].
  cbn [map]. rewrite jsonImage_item by assumption. rewrite IH by assumption.
  reflexivity.
Qed.

(** What the save effect does when the write succeeds *)
Lemma saveHistoryWith_written onFailure (w : World (list HistoryItem)) :
  isHistoryLoading w = false ->
  setItemFails (storage w) = false ->
  saveHistoryWith onFailure w
  = (withStorage
       (withItems
          (<[HISTORY_STORAGE_KEY :=
               JS.JSON_stringify (valueOfHistory (take 100 (history w)))]>
             (items (storage w)))
          (storage w)) w,
     JS.Ok tt).
Proof.
  intros Hl Hs. unfold saveHistoryWith. run_effect.
  rewrite Hl. cbn [negb]. rewrite Hs. reflexivity.
Qed.

(** What the load effect of either screen makes of a slot that holds the
    JSON text of an array *)
Lemma web_loadHistory_array (s : Storage) (l : list JS.value) :
  getItemFails s = false ->
  items s !! HISTORY_STORAGE_KEY = Some (JS.Json (JS.Array l)) ->
  Web.loadHistory (mounted (JS.Array []) s)
  = (mkWorld "" MgDl (JS.Array (take 100 l)) false s [], JS.Ok tt).
Proof.
  intros Hg Hs.
  unfold Web.loadHistory, mounted. run_effect.
  cbn. rewrite Hg, Hs. reflexivity.
Qed.

Lemma native_loadHistory_array (s : Storage) (l : list JS.value) :
  getItemFails s = false ->
  items s !! HISTORY_STORAGE_KEY = Some (JS.Json (JS.Array l)) ->
  Native.loadHistory (mounted (JS.Array []) s)
  = (mkWorld "" MgDl (JS.Array (take 100 l)) false s [], JS.Ok tt).
Proof.
  intros Hg Hs.
  unfold Native.loadHistory, mounted. run_effect.
  cbn. rewrite Hg, Hs. reflexivity.
Qed.

(** A history of storable numbers that fits the bound comes back from the
    store as it is in memory, on both screens. *)
Lemma snapshot_of_storable_history onFailure (w : World (list HistoryItem)) :
  isHistoryLoading w = false ->
  setItemFails (storage w) = false ->
  getItemFails (storage w) = false ->
  Z.of_nat (length (history w)) <= MAX_HISTORY_ITEMS_DISPLAYED ->
  forallb storableItem (history w) = true ->
  let saved := fst (saveHistoryWith onFailure w) in
  history saved = history w
  /\ history (fst (Web.loadHistory (mounted (JS.Array []) (storage saved))))
     = valueOfHistory (history w)
  /\ history (fst (Native.loadHistory (mounted (JS.Array []) (storage saved))))
     = valueOfHistory (history w).
Proof.
  intros Hl Hs Hg Hlen Hst. cbn zeta.
  rewrite saveHistoryWith_written by assumption. cbn [fst].
  unfold MAX_HISTORY_ITEMS_DISPLAYED in Hlen.
  rewrite take_ge by lia.
  unfold JS.JSON_stringify. rewrite jsonImage_history by assumption.
  split; [reflexivity|].
  assert (Hlen' : take 100 (map valueOfItem (history w)) = map valueOfItem (history w))
    by (apply take_ge; rewrite length_map; lia).
  split.
  - erewrite web_loadHistory_array;
      [|exact Hg|cbn; apply lookup_insert_eq].
    cbn [fst history]. unfold valueOfHistory. rewrite Hlen'. reflexivity.
  - erewrite native_loadHistory_array;
      [|exact Hg|cbn; apply lookup_insert_eq].
    cbn [fst history]. unfold valueOfHistory. rewrite Hlen'. reflexivity.
Qed.

(** C3. The input [1e999] in mg/dL, converted on a ready screen whose store
    works: the save effect completes, and the slot then holds an item whose
    two values are [null], while the item in memory holds [Infinity] twice.
    What the load effect reads back is not the history in memory, on the
    web screen and on the native one. *)
Theorem snapshot_differs_for_infinite_values :
  let tf := (fun (_ : JS.number) (_ : Z) => "") in
  let now := 1700000000000 in
  let web := fst (Web.handleConvert tf now now (ready "1e999" MgDl [] ∅)) in
  let native := fst (Native.handleConvert tf now now (ready "1e999" MgDl [] ∅)) in
  (snd (Web.saveHistory web) = JS.Ok tt
   /\ events (fst (Web.saveHistory web)) = events web
   /\ history (fst (Web.saveHistory web))
      = [{| id := "1700000000000"; timestamp := now;
            mgdlValue := JS.Infinity; mmolValue := JS.Infinity |}]
   /\ slot (fst (Web.saveHistory web))
      = Some (JS.Json (JS.Array [nullified "1700000000000" now]))
   /\ history (fst (Web.loadHistory
                      (mounted (JS.Array []) (storage (fst (Web.saveHistory web))))))
      = JS.Array [nullified "1700000000000" now]
   /\ history (fst (Web.loadHistory
                      (mounted (JS.Array []) (storage (fst (Web.saveHistory web))))))
      <> valueOfHistory (history (fst (Web.saveHistory web))))
  /\
  (snd (Native.saveHistory native) = JS.Ok tt
   /\ events (fst (Native.saveHistory native)) = events native
   /\ slot (fst (Native.saveHistory native))
      = Some (JS.Json (JS.Array [nullified "1700000000000" now]))
   /\ history (fst (Native.loadHistory
                      (mounted (JS.Array []) (storage (fst (Native.saveHistory native))))))
      <> valueOfHistory (history (fst (Native.saveHistory native)))).
Proof.
  vm_compute. repeat split; try reflexivity; intros H; discriminate H.
Qed.

(** The same loss for a finite input: [1e308] mmol/L is more than the
    largest number in mg/dL. *)
Example snapshot_differs_after_overflow :
  let w := fst (Web.handleConvert (fun _ _ => "") 1700000000000 1700000000000
                  (ready "1e308" MmolL [] ∅)) in
  JS.isFinite (JS.parseFloat "1e308") = true
  /\ map mgdlValue (history w) = [JS.Infinity]
  /\ history (fst (Web.loadHistory
                     (mounted (JS.Array []) (storage (fst (Web.saveHistory w))))))
     <> valueOfHistory (history (fst (Web.saveHistory w))).
Proof.
  vm_compute. repeat split; try reflexivity; intros H; discriminate H.
Qed.

(** Appending a storable item to a ready screen and saving: the snapshot
    reads back as the history in memory.  Clearing and saving: it reads back
    as the empty history. *)
Lemma snapshot_after_append toFixed (w : World (list HistoryItem)) idNow tsNow :
  isInputValid (inputValue w) = true ->
  isHistoryLoading w = false ->
  setItemFails (storage w) = false ->
  getItemFails (storage w) = false ->
  forallb storableItem
    (append (convertedEntry idNow tsNow (inputValue w) (selectedUnit w)) (history w))
  = true ->
  let saved := fst (Web.saveHistory (fst (Web.handleConvert toFixed idNow tsNow w))) in
  history (fst (Web.loadHistory (mounted (JS.Array []) (storage saved))))
  = valueOfHistory (history saved).
Proof.
  intros Hv Hl Hs Hg Hst.
  destruct (web_handleConvert_valid toFixed w idNow tsNow Hv) as [text E].
  rewrite E. cbn [fst]. unfold Web.saveHistory.
  match goal with |- context [saveHistoryWith ?f ?w1] =>
    destruct (snapshot_of_storable_history f w1) as (Hh & Hweb & _);
      try assumption;
      [apply append_length|]
  end.
  cbn zeta. rewrite Hweb, Hh. reflexivity.
Qed.

Lemma snapshot_after_append_witness :
  let w := ready "120" MgDl [] ∅ in
  let saved := fst (Web.saveHistory (fst (Web.handleConvert (fun _ _ => "") 7 7 w))) in
  history (fst (Web.loadHistory (mounted (JS.Array []) (storage saved))))
  = valueOfHistory (history saved).
Proof.
  apply (snapshot_after_append (fun _ _ => "") (ready "120" MgDl [] ∅) 7 7);
    vm_compute; reflexivity.
Defined.

(** ** Loading a slot that does not hold a list *)

(** Neither load effect lets an exception out, whatever the store does. *)
Lemma web_loadHistory_returns (w : World JS.value) :
  snd (Web.loadHistory w) = JS.Ok tt.
Proof.
  unfold Web.loadHistory. run_effect.
  cbn. destruct (getItemFails (storage w)); [reflexivity|].
  destruct (items (storage w) !! HISTORY_STORAGE_KEY) as [[c|v]|];
    [reflexivity| |reflexivity].
  cbn. destruct v; cbn; try reflexivity;
    destruct (removeItemFails (storage w)); reflexivity.
Qed.

Lemma native_loadHistory_returns (w : World JS.value) :
  snd (Native.loadHistory w) = JS.Ok tt.
Proof.
  unfold Native.loadHistory. run_effect.
  cbn. destruct (getItemFails (storage w)); [reflexivity|].
  destruct (items (storage w) !! HISTORY_STORAGE_KEY) as [[c|v]|];
    [reflexivity| |reflexivity].
  cbn. destruct v; reflexivity.
Qed.

(** C4, as the code has it.  A slot that is present and does not hold a
    list: neither screen lets an exception out, and the loading flag is
    cleared.  On the web screen the history is empty afterwards; the slot is
    removed when its text is JSON (of a value that is not an array) and the
    removal succeeds; a text that is not JSON, or a failed removal, is
    reported to the user and the slot stays as it was.  On the native screen,
    for a text that is not the JSON text of a string, the history is empty
    afterwards, the failure is reported to the user and the slot stays as it
    was. *)
Theorem load_of_a_slot_without_list (s : Storage) (t : JS.text) :
  getItemFails s = false ->
  items s !! HISTORY_STORAGE_KEY = Some t ->
  notAList t ->
  (exists w,
      Web.loadHistory (mounted (JS.Array []) s) = (w, JS.Ok tt)
      /\ history w = JS.Array []
      /\ isHistoryLoading w = false
      /\ match t with
         | JS.Json v =>
             if removeItemFails s
             then storage w = s
                  /\ events w
                     = [ConsoleError "Failed to load history from localStorage."
                          JS.StorageError;
                        WindowAlert "Error: Could not load conversion history."]
             else slot w = None /\ events w = []
         | JS.Malformed _ =>
             storage w = s
             /\ events w
                = [ConsoleError "Failed to load history from localStorage."
                     JS.SyntaxError;
                   WindowAlert "Error: Could not load conversion history."]
         end)
  /\
  (exists w,
      Native.loadHistory (mounted (JS.Array []) s) = (w, JS.Ok tt)
      /\ isHistoryLoading w = false
      /\ storage w = s
      /\ ((forall text, t <> JS.Json (JS.Str text)) ->
          history w = JS.Array []
          /\ exists e,
              events w = [ConsoleError "Failed to load history." e;
                          Alert "Error" "Could not load conversion history."])).
Proof.
  intros Hg Hs Hn. split.
  - unfold Web.loadHistory, mounted, slot. run_effect.
    cbn. rewrite Hg, Hs. destruct t as [c|v].
    + cbn. eexists. repeat split.
    + destruct v; try (exfalso; eapply Hn; reflexivity);
        cbn; destruct (removeItemFails s) eqn:Hr; cbn; rewrite ?Hr;
        eexists; (split; [reflexivity|]); cbn;
        repeat split; try (destruct s; cbn in *; congruence);
        apply lookup_delete_eq.
  - unfold Native.loadHistory, mounted, slot. run_effect.
    cbn. rewrite Hg, Hs.
    destruct t as [c|[ | b | x | text | l | fs]]; cbn;
      try (exfalso; eapply Hn; reflexivity);
      eexists; (split; [reflexivity|]); cbn;
      (split; [reflexivity|]); (split; [reflexivity|]); intros Hstr;
      try (exfalso; eapply Hstr; reflexivity);
      (split; [reflexivity|]); eexists; reflexivity.
Qed.

Lemma load_of_a_slot_without_list_witness :
  let s := storageWith (JS.Json (JS.Str "not a list")) in
  exists w,
    Web.loadHistory (mounted (JS.Array []) s) = (w, JS.Ok tt)
    /\ history w = JS.Array []
    /\ slot w = None.
Proof.
  cbn zeta.
  assert (Hn : notAList (JS.Json (JS.Str "not a list")))
    by (intros l H; discriminate H).
  destruct (load_of_a_slot_without_list
              (storageWith (JS.Json (JS.Str "not a list")))
              (JS.Json (JS.Str "not a list")) eq_refl eq_refl Hn)
    as [(w & E & Hh & _ & Hslot & _) _].
  exists w. split; [exact E|]. split; [exact Hh|exact Hslot].
Defined.

(** C4 as stated fails.  The text [not a list] is not JSON: the web screen
    reports it and leaves it in the slot.  The JSON text of the string
    ["not a list"]: the web screen removes it, the native screen takes the
    string for its history and leaves the slot as it was. *)
Lemma load_does_not_erase_every_bad_slot :
  (let r := Web.loadHistory (mounted (JS.Array []) (storageWith (JS.Malformed "not a list"))) in
   ~ (history (fst r) = JS.Array [] /\ slot (fst r) = None /\ snd r = JS.Ok tt))
  /\ slot (fst (Web.loadHistory
                  (mounted (JS.Array []) (storageWith (JS.Malformed "not a list")))))
     = Some (JS.Malformed "not a list")
  /\
  (let r := Native.loadHistory
              (mounted (JS.Array []) (storageWith (JS.Json (JS.Str "not a list")))) in
   ~ (history (fst r) = JS.Array [] /\ slot (fst r) = None /\ snd r = JS.Ok tt))
  /\ history (fst (Native.loadHistory
                     (mounted (JS.Array [])
                        (storageWith (JS.Json (JS.Str "not a list"))))))
     = JS.Str "not a list".
Proof.
  vm_compute. repeat split; try reflexivity.
  - intros (_ & H & _). discriminate H.
  - intros (H & _). discriminate H.
Qed.

(** ** Clearing the history *)

Lemma web_clear_removes (w : World (list HistoryItem)) :
  removeItemFails (storage w) = false ->
  Web.handleClearHistory true w
  = (mkWorld "" (selectedUnit w) [] (isHistoryLoading w)
             (withItems (delete HISTORY_STORAGE_KEY (items (storage w))) (storage w))
             (events w),
     JS.Ok tt).
Proof.
  intros Hr.
  unfold Web.handleClearHistory. run_effect.
  cbn. rewrite Hr. reflexivity.
Qed.

Lemma web_clear_reports_failure (w : World (list HistoryItem)) :
  removeItemFails (storage w) = true ->
  Web.handleClearHistory true w
  = (mkWorld "" (selectedUnit w) [] (isHistoryLoading w) (storage w)
             (events w
              ++ [ConsoleError "Failed to clear history from localStorage."
                    JS.StorageError;
                  WindowAlert "Error: Could not clear history from storage."]),
     JS.Ok tt).
Proof.
  intros Hr.
  unfold Web.handleClearHistory. run_effect.
  cbn. rewrite Hr. cbn. rewrite <- app_assoc. reflexivity.
Qed.

(** Clearing a ready screen and saving: the snapshot reads back as the
    empty history, on both screens. *)
Lemma snapshot_after_clear (w : World (list HistoryItem)) :
  isHistoryLoading w = false ->
  setItemFails (storage w) = false ->
  getItemFails (storage w) = false ->
  removeItemFails (storage w) = false ->
  let web := fst (Web.saveHistory (fst (Web.handleClearHistory true w))) in
  let native := fst (Native.saveHistory (fst (Native.handleClearHistory true w))) in
  history web = []
  /\ history (fst (Web.loadHistory (mounted (JS.Array []) (storage web))))
     = valueOfHistory (history web)
  /\ history native = []
  /\ history (fst (Native.loadHistory (mounted (JS.Array []) (storage native))))
     = valueOfHistory (history native).
Proof.
  intros Hl Hs Hg Hr. cbn zeta.
  rewrite web_clear_removes by assumption. cbn [fst].
  unfold Web.saveHistory, Native.saveHistory.
  rewrite !saveHistoryWith_written by assumption. cbn [fst history].
  split; [reflexivity|]. split.
  - rewrite (web_loadHistory_array _ []);
      [reflexivity|exact Hg|apply lookup_insert_eq].
  - split; [reflexivity|].
    rewrite (native_loadHistory_array _ []);
      [reflexivity|exact Hg|apply lookup_insert_eq].
Qed.

(** C5, as the code has it.  After the user confirmed, both screens empty
    the history in memory and the input, and let no exception out.  The web
    screen removes the slot (its save effect, run for the new history,
    then writes the text of the empty list into it); when the removal fails
    the store stays as it was and the user is told so.  The native screen
    does not touch the store: its save effect, run for the new history,
    writes the text of the empty list into the slot.  Without confirmation the web screen
    changes nothing, and the native screen nothing but the dialog it
    shows. *)
Theorem clear_history_on_both_screens (w : World (list HistoryItem)) :
  (exists w',
      Web.handleClearHistory true w = (w', JS.Ok tt)
      /\ history w' = [] /\ inputValue w' = ""
      /\ if removeItemFails (storage w)
         then storage w' = storage w
              /\ events w'
                 = events w
                   ++ [ConsoleError "Failed to clear history from localStorage."
                         JS.StorageError;
                       WindowAlert "Error: Could not clear history from storage."]
         else slot w' = None /\ events w' = events w
              /\ (isHistoryLoading w = false -> setItemFails (storage w) = false ->
                  slot (fst (Web.saveHistory w')) = Some (JS.Json (JS.Array []))))
  /\ Web.handleClearHistory false w = (w, JS.Ok tt)
  /\
  (exists w',
      Native.handleClearHistory true w = (w', JS.Ok tt)
      /\ history w' = [] /\ inputValue w' = ""
      /\ storage w' = storage w
      /\ (isHistoryLoading w = false -> setItemFails (storage w) = false ->
          Native.saveHistory w'
          = (withStorage
               (withItems (<[HISTORY_STORAGE_KEY := JS.Json (JS.Array [])]>
                             (items (storage w))) (storage w)) w',
             JS.Ok tt)))
  /\ history (fst (Native.handleClearHistory false w)) = history w
  /\ storage (fst (Native.handleClearHistory false w)) = storage w.
Proof.
  split; [|split; [|split; [|split]]].
  - destruct (removeItemFails (storage w)) eqn:Hr.
    + eexists. split; [apply web_clear_reports_failure; exact Hr|].
      repeat split.
    + eexists. split; [apply web_clear_removes; exact Hr|].
      split; [reflexivity|]. split; [reflexivity|].
      split; [apply lookup_delete_eq|]. split; [reflexivity|].
      intros Hl Hs. unfold Web.saveHistory.
      rewrite saveHistoryWith_written by assumption.
      apply lookup_insert_eq.
  - reflexivity.
  - eexists. split; [reflexivity|].
    split; [reflexivity|]. split; [reflexivity|]. split; [reflexivity|].
    intros Hl Hs. unfold Native.saveHistory.
    rewrite saveHistoryWith_written by assumption. reflexivity.
  - reflexivity.
  - reflexivity.
Qed.

Lemma clear_history_on_both_screens_witness :
  slot (fst (Native.saveHistory (fst (Native.handleClearHistory true afterSomeUse))))
  = Some (JS.Json (JS.Array [])).
Proof.
  destruct (clear_history_on_both_screens afterSomeUse)
    as (_ & _ & (w' & E & _ & _ & Hsto & Hsave) & _).
  rewrite E. cbn [fst]. rewrite (Hsave eq_refl eq_refl).
  unfold slot. cbn. apply lookup_insert_eq.
Defined.

(** C5 as stated fails on the native screen: the slot is not removed, it
    holds the stored history after the handler and the text of the empty
    list after the save effect. *)
Lemma native_clear_keeps_the_slot :
  let cleared := fst (Native.handleClearHistory true afterSomeUse) in
  history cleared = []
  /\ slot cleared = Some (JS.JSON_stringify (valueOfHistory storedHistory))
  /\ slot cleared <> None
  /\ slot (fst (Native.saveHistory cleared)) = Some (JS.Json (JS.Array []))
  /\ slot (fst (Native.saveHistory cleared)) <> None.
Proof.
  vm_compute. repeat split; try reflexivity; intros H; discriminate H.
Qed.

(** * Further properties of the engine *)

(** ** What the validation lets through *)

Lemma shr_1_nonneg mrs : 0 <= shr_m mrs -> 0 <= shr_m (shr_1 mrs).
Proof.
  destruct mrs as [m r s]. cbn [shr_m]. intros Hm.
  destruct m as [|[p|p|]|p]; cbn; lia.
Qed.

Lemma iter_shr_1_nonneg p : forall mrs,
  0 <= shr_m mrs -> 0 <= shr_m (SpecFloat.iter_pos shr_1 p mrs).
Proof.
  induction p as [p IH|p IH|]; intros mrs Hm; cbn.
  - apply IH, IH, shr_1_nonneg, Hm.
  - apply IH, IH, Hm.
  - apply shr_1_nonneg, Hm.
Qed.

Lemma shr_fexp_nonneg m e l :
  0 <= m -> 0 <= shr_m (fst (shr_fexp JS.prec JS.emax m e l)).
Proof.
  intros Hm. unfold shr_fexp, shr.
  assert (H0 : 0 <= shr_m (shr_record_of_loc m l))
    by (destruct l as [|[| |]]; exact Hm).
  destruct (fexp JS.prec JS.emax (Zdigits2 m + e) - e); cbn [fst];
    [exact H0|apply iter_shr_1_nonneg, H0|exact H0].
Qed.

Lemma round_nearest_even_nonneg m l : 0 <= m -> 0 <= round_nearest_even m l.
Proof.
  intros Hm. destruct l as [|[| |]]; cbn; try lia.
  destruct (Z.even m); lia.
Qed.

(** Rounding a magnitude that is not negative, with the sign of a positive
    number, gives a reading. *)
Lemma binary_round_aux_reading mx ex lx :
  0 <= mx -> isReading (binary_round_aux JS.prec JS.emax false mx ex lx) = true.
Proof.
  intros Hm. unfold binary_round_aux.
  pose proof (shr_fexp_nonneg mx ex lx Hm) as H1.
  destruct (shr_fexp JS.prec JS.emax mx ex lx) as [mrs' e']. cbn [fst] in H1.
  pose proof (shr_fexp_nonneg
                (round_nearest_even (shr_m mrs') (loc_of_shr_record mrs'))
                e' loc_Exact (round_nearest_even_nonneg _ _ H1)) as H2.
  destruct (shr_fexp JS.prec JS.emax _ e' loc_Exact) as [mrs'' e''].
  cbn [fst] in H2.
  destruct (shr_m mrs'') as [|p|p]; [reflexivity| |lia].
  destruct (e'' <=? JS.emax - JS.prec); reflexivity.
Qed.

(** Rounding with the sign of a negative number gives nothing the
    validation accepts. *)
Lemma binary_round_aux_minus mx ex lx :
  let x := binary_round_aux JS.prec JS.emax true mx ex lx in
  negb (JS.isNaN x) && JS.lt JS.zero x = false.
Proof.
  cbn zeta. unfold binary_round_aux.
  destruct (shr_fexp JS.prec JS.emax mx ex lx) as [mrs' e'].
  destruct (shr_fexp JS.prec JS.emax _ e' loc_Exact) as [mrs'' e''].
  destruct (shr_m mrs'') as [|p|p]; [reflexivity| |reflexivity].
  destruct (e'' <=? JS.emax - JS.prec); reflexivity.
Qed.

Lemma spanDigits_digits s : Forall (fun d => 0 <= d) (fst (JS.spanDigits s)).
Proof.
  induction s as [|c r IH]; cbn [JS.spanDigits fst]; [constructor|].
  destruct (JS.is_digit c) eqn:D; [|constructor].
  destruct (JS.spanDigits r) as [ds rest]. cbn [fst] in *.
  constructor; [|exact IH].
  unfold JS.is_digit in D. apply andb_prop in D as [D _].
  apply Z.leb_le in D. lia.
Qed.

Lemma digitsValue_nonneg ds :
  Forall (fun d => 0 <= d) ds -> 0 <= JS.digitsValue ds.
Proof.
  intros Hd. unfold JS.digitsValue.
  assert (G : forall acc, 0 <= acc ->
                0 <= fold_left (fun acc d => 10 * acc + d) ds acc).
  { induction Hd as [|d ds Hd0 Hd IH]; intros acc Ha; cbn; [exact Ha|].
    apply IH. lia. }
  apply G. lia.
Qed.

Lemma toNumber_minus m e :
  0 <= m ->
  let x := JS.toNumber true m e in
  negb (JS.isNaN x) && JS.lt JS.zero x = false.
Proof.
  intros Hm. cbn zeta. unfold JS.toNumber.
  destruct (m =? 0); [reflexivity|].
  destruct (Z.leb_spec 0 e) as [He|He].
  - assert (H0 : 0 <= m * 10 ^ e)
      by (apply Z.mul_nonneg_nonneg; [exact Hm|apply Z.pow_nonneg; lia]).
    unfold binary_normalize.
    destruct (- (m * 10 ^ e)) as [|p|p] eqn:E; [reflexivity|lia|].
    unfold binary_round.
    destruct (shl_align p 0 _) as [mz ez]. apply binary_round_aux_minus.
  - destruct (SFdiv_core_binary JS.prec JS.emax m 0 (10 ^ (- e)) 0) as [[q e'] l].
    apply binary_round_aux_minus.
Qed.

Lemma trimStart_minus s :
  JS.trimStart (String "-" s) = String "-" s.
Proof. destruct s as [|b [|c r]]; reflexivity. Qed.

(** X1. No input that starts with a minus sign is valid, whatever follows
    the sign: Convert stays disabled and [handleConvert] changes nothing on
    either screen. *)
Theorem minus_sign_is_never_valid
    (toFixed : JS.number -> Z -> string) (rest : string)
    (w : World (list HistoryItem)) (idNow tsNow : Z) :
  isInputValid (String "-" rest) = false
  /\ (inputValue w = String "-" rest ->
      convertDisabled w = true
      /\ Web.handleConvert toFixed idNow tsNow w = (w, JS.Ok tt)
      /\ Native.handleConvert toFixed idNow tsNow w = (w, JS.Ok tt)).
Proof.
  assert (Hinv : isInputValid (String "-" rest) = false).
  { unfold isInputValid, JS.parseFloat. rewrite trimStart_minus.
    change (JS.code "-" =? 45) with true. cbn iota beta.
    destruct (String.prefix "Infinity" rest); [reflexivity|].
    pose proof (spanDigits_digits rest) as Hip.
    destruct (JS.spanDigits rest) as [ip r1]. cbn [fst] in Hip.
    assert (Hfp : Forall (fun d => 0 <= d)
                    (fst match r1 with
                         | String c r => if JS.code c =? 46 then JS.spanDigits r
                                         else ([], r1)
                         | EmptyString => ([], r1)
                         end)).
    { destruct r1 as [|c r]; [constructor|].
      destruct (JS.code c =? 46); [apply spanDigits_digits|constructor]. }
    destruct (match r1 with
              | String c r => if JS.code c =? 46 then JS.spanDigits r else ([], r1)
              | EmptyString => ([], r1)
              end) as [fp r2].
    cbn [fst] in Hfp.
    assert (Hm : 0 <= JS.digitsValue (ip ++ fp))
      by (apply digitsValue_nonneg, Forall_app; split; assumption).
    destruct ip as [|d ip]; [destruct fp as [|d fp]; [reflexivity|]|];
      apply (toNumber_minus _ _ Hm). }
  split; [exact Hinv|]. intros Hin.
  unfold convertDisabled. rewrite Hin, Hinv.
  split; [reflexivity|]. split.
  - apply web_handleConvert_invalid. rewrite Hin. exact Hinv.
  - apply native_handleConvert_invalid. rewrite Hin. exact Hinv.
Qed.

Lemma minus_sign_is_never_valid_witness :
  Web.handleConvert (fun _ _ => "") 5 5 (ready "-12.5" MgDl [sampleEntry 1] ∅)
  = (ready "-12.5" MgDl [sampleEntry 1] ∅, JS.Ok tt).
Proof.
  exact (proj1 (proj2 (proj2 (minus_sign_is_never_valid (fun _ _ => "") "12.5"
           (ready "-12.5" MgDl [sampleEntry 1] ∅) 5 5) eq_refl))).
Defined.

(** ** What a conversion records *)

Lemma SFdiv_core_nonneg m1 e1 m2 e2 :
  0 <= m1 -> 0 < m2 ->
  0 <= fst (fst (SFdiv_core_binary JS.prec JS.emax m1 e1 m2 e2)).
Proof.
  intros H1 H2. unfold SFdiv_core_binary.
  set (s := e1 - e2 - _).
  assert (Hm : 0 <= match s with
                    | 0 => m1
                    | Z.pos _ => Z.shiftl m1 s
                    | Z.neg _ => 0
                    end).
  { destruct s; [exact H1| |lia]. apply Z.shiftl_nonneg. exact H1. }
  set (m' := match s with 0 => m1 | Z.pos _ => Z.shiftl m1 s | Z.neg _ => 0 end) in *.
  destruct (Z.div_eucl m' m2) as [q r] eqn:E. cbn [fst].
  assert (Hq : q = m' / m2) by (unfold Z.div; rewrite E; reflexivity).
  rewrite Hq. apply Z.div_pos; assumption.
Qed.

(** Dividing or multiplying a positive number by a positive finite one gives
    a reading. *)
Lemma div_of_positive_is_reading x cm ce :
  negb (JS.isNaN x) && JS.lt JS.zero x = true ->
  isReading (JS.div x (S754_finite false cm ce)) = true
  /\ isReading (JS.mul x (S754_finite false cm ce)) = true
  /\ isReading x = true.
Proof.
  destruct x as [[|]|[|]| |[|] m e]; cbn; intros H; try discriminate H.
  - repeat split.
  - split; [|split; [|reflexivity]].
    + pose proof (SFdiv_core_nonneg (Z.pos m) e (Z.pos cm) ce) as Hq.
      destruct (SFdiv_core_binary JS.prec JS.emax (Z.pos m) e (Z.pos cm) ce)
        as [[mz ez] lz].
      cbn [fst] in Hq. apply binary_round_aux_reading. apply Hq; lia.
    + apply binary_round_aux_reading. lia.
Qed.

Lemma forallb_take {A} (f : A -> bool) (n : nat) (l : list A) :
  forallb f l = true -> forallb f (take n l) = true.
Proof.
  revert n. induction l as [|a l IH]; intros [|n] H; cbn; try reflexivity.
  cbn in H. apply andb_prop in H as [Ha Hl]. rewrite Ha. apply IH, Hl.
Qed.

Lemma convertedEntry_is_reading (input : string) (u : Unit) (idNow tsNow : Z) :
  isInputValid input = true ->
  readingItem (convertedEntry idNow tsNow input u) = true.
Proof.
  intros Hv. unfold isInputValid in Hv.
  pose proof (proj2 CONVERSION_FACTOR_value) as Hcf.
  destruct (div_of_positive_is_reading _ 5071672425367942 (-48) Hv)
    as (Hd & Hm & Hx).
  rewrite <- Hcf in Hd, Hm.
  unfold readingItem, convertedEntry, newEntry. cbn [mgdlValue mmolValue].
  destruct u; rewrite ?Hd, ?Hm, ?Hx; reflexivity.
Qed.

(** X2. Whatever a valid input is, and for either unit, the two values of
    the entry it is converted to are readings: zero or more or [Infinity],
    never [NaN], never negative.  So a history of readings stays one under
    [handleConvert], on both screens. *)
Theorem convert_records_only_readings
    (toFixed : JS.number -> Z -> string)
    (w : World (list HistoryItem)) (idNow tsNow : Z) :
  (isInputValid (inputValue w) = true ->
   readingItem (convertedEntry idNow tsNow (inputValue w) (selectedUnit w)) = true)
  /\ (forallb readingItem (history w) = true ->
      forallb readingItem (history (fst (Web.handleConvert toFixed idNow tsNow w)))
      = true
      /\ forallb readingItem
           (history (fst (Native.handleConvert toFixed idNow tsNow w)))
         = true).
Proof.
  assert (He : isInputValid (inputValue w) = true ->
               readingItem (convertedEntry idNow tsNow (inputValue w)
                              (selectedUnit w)) = true).
  { intros Hv. apply convertedEntry_is_reading. exact Hv. }
  split; [exact He|]. intros Hh.
  destruct (isInputValid (inputValue w)) eqn:Hv.
  - destruct (web_handleConvert_valid toFixed w idNow tsNow Hv) as [t1 E1].
    destruct (native_handleConvert_valid toFixed w idNow tsNow Hv) as [t2 E2].
    rewrite E1, E2. cbn [fst history]. unfold append.
    split; apply forallb_take; cbn [forallb]; rewrite (He eq_refl), Hh;
      reflexivity.
  - rewrite (web_handleConvert_invalid toFixed w idNow tsNow Hv).
    rewrite (native_handleConvert_invalid toFixed w idNow tsNow Hv).
    split; exact Hh.
Qed.

Lemma convert_records_only_readings_witness :
  readingItem (convertedEntry 9 9 "0.5" MmolL) = true
  /\ forallb readingItem
       (history (fst (Web.handleConvert (fun _ _ => "") 9 9
                        (ready "7" MmolL [sampleEntry 1] ∅)))) = true.
Proof.
  split.
  - apply (proj1 (convert_records_only_readings (fun _ _ => "")
                    (ready "0.5" MmolL [] ∅) 9 9)).
    vm_compute. reflexivity.
  - refine (proj1 (proj2 (convert_records_only_readings (fun _ _ => "")
                     (ready "7" MmolL [sampleEntry 1] ∅) 9 9) _)).
    vm_compute. reflexivity.
Defined.

(** ** The chronological order of the charts *)

(** X3. [sortedHistory] holds the items of the history, each as often as the
    history does, in an order in which no item is newer than a later one,
    and items of one timestamp stand in the order the history has them: the
    sort is stable and loses or invents nothing. *)
Theorem sortedHistory_is_a_stable_sort (history : list HistoryItem) :
  sortByTimestamp history ≡ₚ history
  /\ length (sortByTimestamp history) = length history
  /\ StronglySorted notAfter (sortByTimestamp history)
  /\ (forall t : Z,
        filter (fun x => bool_decide (timestamp x = t)) (sortByTimestamp history)
        = filter (fun x => bool_decide (timestamp x = t)) history).
Proof.
  split; [apply sortByTimestamp_perm|].
  split; [apply sortByTimestamp_length|].
  split; [apply sortByTimestamp_sorted|].
  intros t. apply sortByTimestamp_stable.
Qed.

Lemma insertByTimestamp_newest a l :
  Forall (fun b => timestamp b < timestamp a) l ->
  insertByTimestamp a l = l ++ [a].
Proof.
  induction 1 as [|b l Hb Hl IH]; [reflexivity|]. cbn [insertByTimestamp].
  destruct (Z.leb_spec (timestamp a - timestamp b) 0) as [H|H]; [lia|].
  rewrite IH. reflexivity.
Qed.

(** X4. A history whose items are strictly newest first, as conversions at
    distinct clock readings leave it, is charted in exactly the reverse of
    the order of the table. *)
Theorem chronological_order_is_reverse (history : list HistoryItem) :
  strictlyNewestFirst history ->
  sortByTimestamp history = reverse history.
Proof.
  intros HS.
  assert (HSS : StronglySorted (fun a b => timestamp b < timestamp a) history).
  { apply Sorted_StronglySorted; [|exact HS]. intros x y z Hxy Hyz. lia. }
  clear HS. induction HSS as [|a l Hl IH Ha]; [reflexivity|].
  rewrite sortByTimestamp_cons, IH, reverse_cons.
  apply insertByTimestamp_newest.
  rewrite Forall_forall in *. intros b Hb.
  rewrite elem_of_reverse in Hb. apply (Ha b Hb).
Qed.

Lemma chronological_order_is_reverse_witness :
  sortByTimestamp [sampleEntry 30; sampleEntry 20; sampleEntry 10]
  = [sampleEntry 10; sampleEntry 20; sampleEntry 30].
Proof.
  apply (chronological_order_is_reverse
           [sampleEntry 30; sampleEntry 20; sampleEntry 10]).
  unfold strictlyNewestFirst. repeat constructor; cbn; lia.
Defined.

(** X5. The web chart does no sampling: with two items or more it has one
    point for each item of the history, carrying both values of the item
    and the value in the opposite unit, in an order in which the timestamps
    do not decrease. *)
Theorem web_series_has_every_item
    (formatTimestampForChart : Z -> string)
    (history : list HistoryItem) (selectedUnit : Unit) :
  MIN_POINTS_FOR_CHART <= Z.of_nat (length history) ->
  exists points,
    Web.rechartsData formatTimestampForChart history selectedUnit = Some points
    /\ points = map (pointOf formatTimestampForChart selectedUnit)
                    (sortByTimestamp history)
    /\ length points = length history
    /\ points ≡ₚ map (pointOf formatTimestampForChart selectedUnit) history
    /\ StronglySorted (fun p q => cp_timestamp p <= cp_timestamp q) points.
Proof.
  intros Hlen.
  exists (map (pointOf formatTimestampForChart selectedUnit)
            (sortByTimestamp history)).
  split.
  { unfold Web.rechartsData.
    replace (Z.of_nat (length history) <? MIN_POINTS_FOR_CHART) with false
      by (symmetry; apply Z.ltb_ge; exact Hlen).
    f_equal. apply map_ext. intros item. unfold pointOf.
    rewrite yValueOf_chartYUnit. reflexivity. }
  split; [reflexivity|].
  split; [rewrite length_map; apply sortByTimestamp_length|].
  split; [apply Permutation_map, sortByTimestamp_perm|].
  pose proof (sortByTimestamp_sorted history) as HS.
  induction HS as [|a l Hl IH Ha]; cbn [map]; constructor; [exact IH|].
  apply Forall_forall. intros p Hp.
  apply list_elem_of_In, in_map_iff in Hp as (b & <- & Hb).
  rewrite Forall_forall in Ha. apply (Ha b). apply list_elem_of_In. exact Hb.
Qed.

Lemma web_series_has_every_item_witness :
  exists points,
    Web.rechartsData (fun t => JS.toString t)
      [sampleEntry 30; sampleEntry 10; sampleEntry 20] MgDl = Some points
    /\ length points = 3%nat.
Proof.
  destruct (web_series_has_every_item (fun t => JS.toString t)
              [sampleEntry 30; sampleEntry 10; sampleEntry 20] MgDl)
    as (points & E & _ & Hl & _).
  - vm_compute. discriminate.
  - exists points. split; [exact E|exact Hl].
Defined.

(** ** The native series, for every length *)

Lemma keptFrom_sublist len step items : forall index,
  keptFrom len step items index `sublist_of` items.
Proof.
  induction items as [|item rest IH]; intros index; cbn [keptFrom];
    [constructor|].
  destruct (keeps len step index); [apply sublist_skip|apply sublist_cons];
    apply IH.
Qed.

(** X6. For every history of two items or more the native chart gets a
    series: its labels and values are those of points of the sorted
    history, in that order, as many labels as values, at least two and no
    more than there are items; the first point is the oldest item and the
    last point the newest.  The two repairs of the ends of the series never
    add a point. *)
Theorem native_series_shape {S}
    (formatTimestampForChart : Z -> string)
    (history : list HistoryItem) (selectedUnit : Unit) (w : S) :
  MIN_POINTS_FOR_CHART <= Z.of_nat (length history) ->
  exists series first last_ middle,
    Native.chartKitData formatTimestampForChart history selectedUnit w
    = (w, JS.Ok (Some series))
    /\ Native.labels series
       = map (labelOf formatTimestampForChart) (keptPoints history)
    /\ Native.data series = map (oppositeValue selectedUnit) (keptPoints history)
    /\ length (Native.labels series) = length (Native.data series)
    /\ (2 <= length (Native.labels series) <= length history)%nat
    /\ keptPoints history `sublist_of` sortByTimestamp history
    /\ keptPoints history = first :: middle ++ [last_]
    /\ head (sortByTimestamp history) = Some first
    /\ last (sortByTimestamp history) = Some last_
    /\ (forall x, x ∈ history ->
          timestamp first <= timestamp x <= timestamp last_).
Proof.
  intros Hlen. unfold MIN_POINTS_FOR_CHART in Hlen.
  destruct (keptPoints_ends history) as (f & l & m & Hf & Hl & Hk); [lia|].
  assert (Hsub : keptPoints history `sublist_of` sortByTimestamp history)
    by apply keptFrom_sublist.
  eexists _, f, l, m. split.
  { rewrite chartKitData_series.
    replace (Z.of_nat (length history) <? MIN_POINTS_FOR_CHART) with false
      by (symmetry; apply Z.ltb_ge; unfold MIN_POINTS_FOR_CHART; lia).
    reflexivity. }
  cbn [Native.labels Native.data].
  split; [reflexivity|]. split; [reflexivity|].
  split; [rewrite !length_map; reflexivity|].
  split.
  { rewrite length_map. split.
    - rewrite Hk. cbn [length]. rewrite length_app. cbn [length]. lia.
    - apply sublist_length in Hsub. rewrite sortByTimestamp_length in Hsub.
      exact Hsub. }
  split; [exact Hsub|]. split; [exact Hk|].
  split; [exact Hf|]. split; [exact Hl|].
  intros x Hx. exact (sorted_ends _ _ _ Hf Hl x Hx).
Qed.

Lemma native_series_shape_witness :
  exists series,
    Native.chartKitData (fun t => JS.toString t)
      (map sampleEntry [5; 3; 9]) MmolL tt = (tt, JS.Ok (Some series))
    /\ length (Native.labels series) = length (Native.data series).
Proof.
  destruct (native_series_shape (fun t => JS.toString t)
              (map sampleEntry [5; 3; 9]) MmolL tt)
    as (series & f & l & m & E & _ & _ & Hlen & _).
  - vm_compute. discriminate.
  - exists series. split; [exact E|exact Hlen].
Defined.

Lemma keptFrom_all len step items :
  (forall i, keeps len step i = true) ->
  forall index, keptFrom len step items index = items.
Proof.
  intros Hall. induction items as [|item rest IH]; intros index;
    cbn [keptFrom]; [reflexivity|].
  rewrite Hall, IH. reflexivity.
Qed.

(** X7. Up to eleven items nothing is thinned, although [MAX_CHART_LABELS]
    is 6: every item of the history is a point of the native series with
    its label, oldest first. *)
Theorem native_series_unthinned_up_to_11 {S}
    (formatTimestampForChart : Z -> string)
    (history : list HistoryItem) (selectedUnit : Unit) (w : S) :
  (2 <= length history <= 11)%nat ->
  keptPoints history = sortByTimestamp history
  /\ Native.chartKitData formatTimestampForChart history selectedUnit w
     = (w, JS.Ok (Some
         {| Native.labels :=
              map (labelOf formatTimestampForChart) (sortByTimestamp history);
            Native.data :=
              map (oppositeValue selectedUnit) (sortByTimestamp history);
            Native.legend :=
              ["Glucose (" +:+ Unit_name (chartYUnit selectedUnit) +:+ ")"] |})).
Proof.
  intros Hlen.
  assert (Hk : keptPoints history = sortByTimestamp history).
  { unfold keptPoints. apply keptFrom_all. intros i. unfold keeps.
    assert (Hstep : Z.max 1 (Z.of_nat (length history) / MAX_CHART_LABELS) = 1).
    { unfold MAX_CHART_LABELS.
      assert (Z.of_nat (length history) / 6 < 2)
        by (apply Z.div_lt_upper_bound; lia).
      lia. }
    rewrite Hstep, Z.rem_1_r. cbn. rewrite !orb_true_r. reflexivity. }
  split; [exact Hk|].
  rewrite chartKitData_series, Hk.
  replace (Z.of_nat (length history) <? MIN_POINTS_FOR_CHART) with false
    by (symmetry; apply Z.ltb_ge; unfold MIN_POINTS_FOR_CHART; lia).
  reflexivity.
Qed.

Lemma native_series_unthinned_up_to_11_witness :
  keptPoints (map sampleEntry (map Z.of_nat (seq 0 11)))
  = sortByTimestamp (map sampleEntry (map Z.of_nat (seq 0 11))).
Proof.
  apply (native_series_unthinned_up_to_11 (fun t => JS.toString t)
           (map sampleEntry (map Z.of_nat (seq 0 11))) MgDl tt).
  cbn. lia.
Defined.

(** The number of labels for each length up to the bound of the history *)
Lemma labels_up_to_100 :
  forallb (fun n => (countFrom (Z.of_nat n)
                       (Z.max 1 (Z.of_nat n / MAX_CHART_LABELS)) n 0 <=? 11)%nat)
          (seq 0 101) = true.
Proof. vm_compute. reflexivity. Qed.

(** X8. A history within its bound of 100 items never gets more than 11
    labels on the native chart, and 11 are reached (at eleven items):
    [MAX_CHART_LABELS] is not the number of labels shown. *)
Theorem native_series_has_at_most_11_labels {S}
    (formatTimestampForChart : Z -> string)
    (history : list HistoryItem) (selectedUnit : Unit) (w : S) :
  Z.of_nat (length history) <= MAX_HISTORY_ITEMS_DISPLAYED ->
  (length (keptPoints history) <= 11)%nat
  /\ (forall series,
        Native.chartKitData formatTimestampForChart history selectedUnit w
        = (w, JS.Ok (Some series)) ->
        (length (Native.labels series) <= 11)%nat
        /\ length (Native.data series) = length (Native.labels series))
  /\ (length history = 11%nat -> length (keptPoints history) = 11%nat).
Proof.
  intros Hlen. unfold MAX_HISTORY_ITEMS_DISPLAYED in Hlen.
  assert (Hk : (length (keptPoints history) <= 11)%nat).
  { unfold keptPoints. rewrite keptFrom_length, sortByTimestamp_length.
    pose proof labels_up_to_100 as Htab.
    rewrite forallb_forall in Htab.
    specialize (Htab (length history)).
    apply Nat.leb_le, Htab, in_seq. lia. }
  split; [exact Hk|]. split.
  - intros series E. rewrite chartKitData_series in E.
    destruct (Z.of_nat (length history) <? MIN_POINTS_FOR_CHART);
      [discriminate E|].
    injection E as <-. cbn [Native.labels Native.data].
    rewrite !length_map. split; [exact Hk|reflexivity].
  - intros H11. unfold keptPoints.
    rewrite keptFrom_length, sortByTimestamp_length, H11. reflexivity.
Qed.

Lemma native_series_has_at_most_11_labels_witness :
  (length (keptPoints (map sampleEntry (map Z.of_nat (seq 0 100)))) <= 11)%nat.
Proof.
  apply (native_series_has_at_most_11_labels (fun t => JS.toString t)
           (map sampleEntry (map Z.of_nat (seq 0 100))) MgDl tt).
  vm_compute. discriminate.
Defined.

(** ** What is on the screen *)

(** X9. While the history is loading neither the chart nor the text that
    asks for more entries is shown; once it is loaded exactly one of them
    is: the text below two items, the chart from two items on.  This holds
    on both screens; on the native one because the thinned series of two
    items or more is never [null]. *)
Theorem chart_or_placeholder
    (formatTimestampForChart : Z -> string) (w : World (list HistoryItem)) :
  Native.showsChart formatTimestampForChart w
  = negb (isHistoryLoading w)
    && negb (Z.of_nat (length (history w)) <? MIN_POINTS_FOR_CHART)
  /\ Web.showsChart formatTimestampForChart w
     = Native.showsChart formatTimestampForChart w
  /\ showsPlaceholder w
     = negb (isHistoryLoading w)
       && (Z.of_nat (length (history w)) <? MIN_POINTS_FOR_CHART)
  /\ xorb (Native.showsChart formatTimestampForChart w) (showsPlaceholder w)
     = negb (isHistoryLoading w).
Proof.
  assert (Hn : Native.showsChart formatTimestampForChart w
               = negb (isHistoryLoading w)
                 && negb (Z.of_nat (length (history w)) <? MIN_POINTS_FOR_CHART)).
  { unfold Native.showsChart. rewrite chartKitData_series.
    destruct (Z.of_nat (length (history w)) <? MIN_POINTS_FOR_CHART);
      reflexivity. }
  assert (Hw : Web.showsChart formatTimestampForChart w
               = negb (isHistoryLoading w)
                 && negb (Z.of_nat (length (history w)) <? MIN_POINTS_FOR_CHART)).
  { unfold Web.showsChart, Web.rechartsData.
    destruct (Z.of_nat (length (history w)) <? MIN_POINTS_FOR_CHART);
      reflexivity. }
  split; [exact Hn|]. split; [rewrite Hn; exact Hw|].
  split; [reflexivity|].
  rewrite Hn. unfold showsPlaceholder.
  destruct (isHistoryLoading w);
    destruct (Z.of_nat (length (history w)) <? MIN_POINTS_FOR_CHART);
    reflexivity.
Qed.


(** ** Changing the unit *)

(** X11. Changing the unit empties the input whatever it held, and touches
    neither the history nor the store nor the messages.  Convert is then
    disabled and does nothing until something is typed, and the chart shows
    the unit that was not chosen. *)
Theorem unit_change_disarms_convert
    (toFixed : JS.number -> Z -> string)
    (w : World (list HistoryItem)) (newUnit : Unit) (idNow tsNow : Z) :
  let w' := mkWorld "" newUnit (history w) (isHistoryLoading w)
                    (storage w) (events w) in
  handleUnitChange newUnit w = (w', JS.Ok tt)
  /\ convertDisabled w' = true
  /\ Web.handleConvert toFixed idNow tsNow w' = (w', JS.Ok tt)
  /\ Native.handleConvert toFixed idNow tsNow w' = (w', JS.Ok tt)
  /\ chartYUnit (selectedUnit w') <> newUnit
  /\ chartYUnit (chartYUnit (selectedUnit w')) = newUnit.
Proof.
  cbn zeta. split; [reflexivity|]. split; [reflexivity|].
  split; [apply web_handleConvert_invalid; reflexivity|].
  split; [apply native_handleConvert_invalid; reflexivity|].
  destruct newUnit; split; cbn; try reflexivity; discriminate.
Qed.

(** ** The save effect *)

Lemma saveHistoryWith_loading onFailure (w : World (list HistoryItem)) :
  isHistoryLoading w = true -> saveHistoryWith onFailure w = (w, JS.Ok tt).
Proof.
  intros Hl. unfold saveHistoryWith. run_effect. rewrite Hl. reflexivity.
Qed.

Lemma saveHistoryWith_failed onFailure (w : World (list HistoryItem)) :
  isHistoryLoading w = false ->
  setItemFails (storage w) = true ->
  saveHistoryWith onFailure w = onFailure JS.StorageError w.
Proof.
  intros Hl Hs. unfold saveHistoryWith. run_effect.
  rewrite Hl. cbn [negb]. rewrite Hs. reflexivity.
Qed.

(** X12. The save effect never throws and never changes what is in memory:
    input, unit, history and loading flag are after it what they were.
    While the history is loading it does nothing at all.  When the write
    fails the store stays as it was; the native screen only logs the
    failure, the web screen also tells the user.  When the write succeeds no
    message appears, the slot holds the text of the first 100 items, and no
    other key of the store is touched. *)
Theorem save_effect_is_safe (w : World (list HistoryItem)) :
  (exists w',
      Web.saveHistory w = (w', JS.Ok tt)
      /\ inputValue w' = inputValue w /\ selectedUnit w' = selectedUnit w
      /\ history w' = history w /\ isHistoryLoading w' = isHistoryLoading w
      /\ (isHistoryLoading w = true -> w' = w)
      /\ (isHistoryLoading w = false -> setItemFails (storage w) = true ->
          storage w' = storage w
          /\ events w'
             = events w
               ++ [ConsoleError "Failed to save history to localStorage."
                     JS.StorageError;
                   WindowAlert
                     "Warning: Could not save conversion history. Storage might be full."])
      /\ (isHistoryLoading w = false -> setItemFails (storage w) = false ->
          events w' = events w
          /\ slot w' = Some (JS.JSON_stringify
                               (valueOfHistory (take 100 (history w))))
          /\ forall key, key <> HISTORY_STORAGE_KEY ->
               items (storage w') !! key = items (storage w) !! key))
  /\
  (exists w',
      Native.saveHistory w = (w', JS.Ok tt)
      /\ inputValue w' = inputValue w /\ selectedUnit w' = selectedUnit w
      /\ history w' = history w /\ isHistoryLoading w' = isHistoryLoading w
      /\ (isHistoryLoading w = true -> w' = w)
      /\ (isHistoryLoading w = false -> setItemFails (storage w) = true ->
          storage w' = storage w
          /\ events w'
             = events w ++ [ConsoleError "Failed to save history." JS.StorageError])
      /\ (isHistoryLoading w = false -> setItemFails (storage w) = false ->
          events w' = events w
          /\ slot w' = Some (JS.JSON_stringify
                               (valueOfHistory (take 100 (history w))))
          /\ forall key, key <> HISTORY_STORAGE_KEY ->
               items (storage w') !! key = items (storage w) !! key)).
Proof.
  split.
  - unfold Web.saveHistory.
    destruct (isHistoryLoading w) eqn:Hl.
    + rewrite saveHistoryWith_loading by exact Hl.
      eexists. split; [reflexivity|]. repeat split; try assumption;
        intros; discriminate.
    + destruct (setItemFails (storage w)) eqn:Hs.
      * rewrite saveHistoryWith_failed by assumption. run_effect. cbn.
        eexists. split; [reflexivity|]. cbn.
        repeat split; try assumption; try (intros; discriminate).
        rewrite <- app_assoc. reflexivity.
      * rewrite saveHistoryWith_written by assumption.
        eexists. split; [reflexivity|]. cbn.
        repeat split; try assumption; try (intros; discriminate).
        -- apply lookup_insert_eq.
        -- intros key Hk. apply lookup_insert_ne. congruence.
  - unfold Native.saveHistory.
    destruct (isHistoryLoading w) eqn:Hl.
    + rewrite saveHistoryWith_loading by exact Hl.
      eexists. split; [reflexivity|]. repeat split; try assumption;
        intros; discriminate.
    + destruct (setItemFails (storage w)) eqn:Hs.
      * rewrite saveHistoryWith_failed by assumption. run_effect. cbn.
        eexists. split; [reflexivity|]. cbn.
        repeat split; try assumption; try (intros; discriminate).
      * rewrite saveHistoryWith_written by assumption.
        eexists. split; [reflexivity|]. cbn.
        repeat split; try assumption; try (intros; discriminate).
        -- apply lookup_insert_eq.
        -- intros key Hk. apply lookup_insert_ne. congruence.
Qed.

Lemma save_effect_is_safe_witness :
  let w := mkWorld "" MgDl storedHistory false
                   (mkStorage ∅ false true false) [] in
  exists w',
    Native.saveHistory w = (w', JS.Ok tt)
    /\ storage w' = storage w
    /\ events w' = [ConsoleError "Failed to save history." JS.StorageError].
Proof.
  cbn zeta.
  destruct (save_effect_is_safe
              (mkWorld "" MgDl storedHistory false
                       (mkStorage ∅ false true false) []))
    as [_ (w' & E & _ & _ & _ & _ & _ & Hfail & _)].
  exists w'. split; [exact E|]. exact (Hfail eq_refl eq_refl).
Defined.

(** ** The load effect *)

Lemma loadHistory_missing (s : Storage) :
  getItemFails s = false -> items s !! HISTORY_STORAGE_KEY = None ->
  Web.loadHistory (mounted (JS.Array []) s)
  = (mkWorld "" MgDl (JS.Array []) false s [], JS.Ok tt)
  /\ Native.loadHistory (mounted (JS.Array []) s)
     = (mkWorld "" MgDl (JS.Array []) false s [], JS.Ok tt).
Proof.
  intros Hg Hs. split.
  - unfold Web.loadHistory, mounted. run_effect. cbn. rewrite Hg, Hs.
    reflexivity.
  - unfold Native.loadHistory, mounted. run_effect. cbn. rewrite Hg, Hs.
    reflexivity.
Qed.

Lemma loadHistory_unreadable (s : Storage) :
  getItemFails s = true ->
  Web.loadHistory (mounted (JS.Array []) s)
  = (mkWorld "" MgDl (JS.Array []) false s
       [ConsoleError "Failed to load history from localStorage." JS.StorageError;
        WindowAlert "Error: Could not load conversion history."],
     JS.Ok tt)
  /\ Native.loadHistory (mounted (JS.Array []) s)
     = (mkWorld "" MgDl (JS.Array []) false s
          [ConsoleError "Failed to load history." JS.StorageError;
           Alert "Error" "Could not load conversion history."],
        JS.Ok tt).
Proof.
  intros Hg. split.
  - unfold Web.loadHistory, mounted. run_effect. cbn. rewrite Hg.
    reflexivity.
  - unfold Native.loadHistory, mounted. run_effect. cbn. rewrite Hg.
    reflexivity.
Qed.

(** X13. A store without the slot, or a store that cannot be read: both
    screens come up with an empty history and leave the store as it is.  The
    missing slot passes without a message; the failed read is logged and
    reported to the user. *)
Theorem load_without_a_readable_slot (s : Storage) :
  (getItemFails s = false -> items s !! HISTORY_STORAGE_KEY = None ->
   Web.loadHistory (mounted (JS.Array []) s)
   = (mkWorld "" MgDl (JS.Array []) false s [], JS.Ok tt)
   /\ Native.loadHistory (mounted (JS.Array []) s)
      = (mkWorld "" MgDl (JS.Array []) false s [], JS.Ok tt))
  /\ (getItemFails s = true ->
      Web.loadHistory (mounted (JS.Array []) s)
      = (mkWorld "" MgDl (JS.Array []) false s
           [ConsoleError "Failed to load history from localStorage." JS.StorageError;
            WindowAlert "Error: Could not load conversion history."],
         JS.Ok tt)
      /\ Native.loadHistory (mounted (JS.Array []) s)
         = (mkWorld "" MgDl (JS.Array []) false s
              [ConsoleError "Failed to load history." JS.StorageError;
               Alert "Error" "Could not load conversion history."],
            JS.Ok tt)).
Proof.
  split.
  - intros Hg Hs. apply loadHistory_missing; assumption.
  - intros Hg. apply loadHistory_unreadable; assumption.
Qed.

Lemma load_without_a_readable_slot_witness :
  history (fst (Web.loadHistory (mounted (JS.Array []) (workingStorage ∅))))
  = JS.Array []
  /\ events (fst (Native.loadHistory
                    (mounted (JS.Array []) (mkStorage ∅ true false false))))
     = [ConsoleError "Failed to load history." JS.StorageError;
        Alert "Error" "Could not load conversion history."].
Proof.
  split.
  - rewrite (proj1 (proj1 (load_without_a_readable_slot (workingStorage ∅))
                      eq_refl (lookup_empty _))).
    reflexivity.
  - rewrite (proj2 (proj2 (load_without_a_readable_slot
                             (mkStorage ∅ true false false)) eq_refl)).
    reflexivity.
Defined.

(** X14. A slot that holds the JSON text of a list: both screens take its
    first 100 elements as the history, in the order of the text, show no
    message and leave the store as it is; a list of at most 100 elements is
    taken whole. *)
Theorem load_of_a_stored_list (s : Storage) (l : list JS.value) :
  getItemFails s = false ->
  items s !! HISTORY_STORAGE_KEY = Some (JS.Json (JS.Array l)) ->
  Web.loadHistory (mounted (JS.Array []) s)
  = (mkWorld "" MgDl (JS.Array (take 100 l)) false s [], JS.Ok tt)
  /\ Native.loadHistory (mounted (JS.Array []) s)
     = (mkWorld "" MgDl (JS.Array (take 100 l)) false s [], JS.Ok tt)
  /\ ((length l <= 100)%nat -> take 100 l = l)
  /\ (forall i : nat, (i < 100)%nat -> take 100 l !! i = l !! i).
Proof.
  intros Hg Hs.
  split; [apply web_loadHistory_array; assumption|].
  split; [apply native_loadHistory_array; assumption|].
  split; [intros Hl; apply take_ge; exact Hl|].
  intros i Hi. apply lookup_take_lt. exact Hi.
Qed.

Lemma load_of_a_stored_list_witness :
  history (fst (Web.loadHistory (mounted (JS.Array []) (storage afterSomeUse))))
  = valueOfHistory storedHistory.
Proof.
  assert (Hs : items (storage afterSomeUse) !! HISTORY_STORAGE_KEY
               = Some (JS.Json (JS.Array (map valueOfItem storedHistory))))
    by (vm_compute; reflexivity).
  rewrite (proj1 (load_of_a_stored_list (storage afterSomeUse)
                    (map valueOfItem storedHistory) eq_refl Hs)).
  reflexivity.
Defined.

Lemma web_load_ends_ready (w : World JS.value) :
  exists w',
    Web.loadHistory w = (w', JS.Ok tt)
    /\ isHistoryLoading w' = false
    /\ inputValue w' = inputValue w /\ selectedUnit w' = selectedUnit w
    /\ JS.isArray (history w') = true
    /\ (slot w' = slot w \/ slot w' = None)
    /\ forall key, key <> HISTORY_STORAGE_KEY ->
         items (storage w') !! key = items (storage w) !! key.
Proof.
  unfold Web.loadHistory, slot. run_effect. cbn.
  destruct (getItemFails (storage w)).
  { eexists. split; [reflexivity|]. cbn. repeat split. left. reflexivity. }
  destruct (items (storage w) !! HISTORY_STORAGE_KEY) as [[c|v]|] eqn:Es;
    cbn.
  + eexists. split; [reflexivity|]. cbn. rewrite Es.
    repeat split. left. reflexivity.
  + destruct v; cbn.
    all: try destruct (removeItemFails (storage w)); cbn.
    all: eexists; (split; [reflexivity|]); cbn; rewrite ?Es.
    all: try (repeat split; left; reflexivity).
    all: repeat split;
      [right; apply lookup_delete_eq
      |intros key Hk; apply lookup_delete_ne; congruence].
  + eexists. split; [reflexivity|]. cbn. rewrite Es.
    repeat split. left. reflexivity.
Qed.

Lemma native_load_ends_ready (w : World JS.value) :
  exists w',
    Native.loadHistory w = (w', JS.Ok tt)
    /\ isHistoryLoading w' = false
    /\ inputValue w' = inputValue w /\ selectedUnit w' = selectedUnit w
    /\ storage w' = storage w.
Proof.
  unfold Native.loadHistory. run_effect. cbn.
  destruct (getItemFails (storage w)).
  { eexists. split; [reflexivity|]. cbn. repeat split. }
  destruct (items (storage w) !! HISTORY_STORAGE_KEY) as [[c|v]|]; cbn.
  + eexists. split; [reflexivity|]. repeat split.
  + destruct v; cbn; eexists; (split; [reflexivity|]); repeat split.
  + eexists. split; [reflexivity|]. repeat split.
Qed.

(** X15. Whatever the state and whatever the store holds or does, the
    load effect of either screen returns, with the loading flag cleared,
    and with the input, the unit and every other key of the store as they
    were.  The native screen never changes the store; the web screen can
    only remove the slot of the history, and what it takes for its history
    is always an array. *)
Theorem load_always_ends_ready (w : World JS.value) :
  (exists w',
      Web.loadHistory w = (w', JS.Ok tt)
      /\ isHistoryLoading w' = false
      /\ inputValue w' = inputValue w /\ selectedUnit w' = selectedUnit w
      /\ JS.isArray (history w') = true
      /\ (slot w' = slot w \/ slot w' = None)
      /\ forall key, key <> HISTORY_STORAGE_KEY ->
           items (storage w') !! key = items (storage w) !! key)
  /\
  (exists w',
      Native.loadHistory w = (w', JS.Ok tt)
      /\ isHistoryLoading w' = false
      /\ inputValue w' = inputValue w /\ selectedUnit w' = selectedUnit w
      /\ storage w' = storage w).
Proof.
  split.
  - apply web_load_ends_ready.
  - apply native_load_ends_ready.
Qed.

(** ** Mounting a screen *)

Lemma jsonNumber_idem x : JS.jsonImage (JS.jsonNumber x) = JS.jsonNumber x.
Proof. destruct x as [[|]|[|]| |[|] m e]; reflexivity. Qed.

(** Writing what was written and read back writes the same text. *)
Lemma jsonImage_idem : forall v, JS.jsonImage (JS.jsonImage v) = JS.jsonImage v.
Proof.
  fix IH 1. intros [ | b | x | s | l | fs]; cbn [JS.jsonImage];
    try reflexivity.
  - apply jsonNumber_idem.
  - f_equal. induction l as [|v l IHl]; cbn [map]; [reflexivity|].
    rewrite IH, IHl. reflexivity.
  - f_equal. induction fs as [|[k v] fs IHfs]; cbn [map]; [reflexivity|].
    rewrite IH, IHfs. reflexivity.
Qed.

(** Slicing a slice again changes nothing. *)
Lemma sliceOfString_idem (s : string) : forall n : Z,
  JS.sliceOfString (JS.sliceOfString s n) n = JS.sliceOfString s n.
Proof.
  induction s as [|c r IH]; intros n; cbn [JS.sliceOfString]; [reflexivity|].
  destruct (JS.isContinuation c) eqn:Hc.
  - cbn [JS.sliceOfString]. rewrite Hc, IH. reflexivity.
  - destruct (Z.leb_spec (JS.unitsAt c) n) as [Hle|Hgt].
    + cbn [JS.sliceOfString]. rewrite Hc.
      replace (JS.unitsAt c <=? n) with true by (symmetry; apply Z.leb_le; lia).
      rewrite IH. reflexivity.
    + destruct (Z.eqb_spec n 1) as [->|Hne]; [|reflexivity].
      destruct r as [|b1 [|b2 [|b3 r']]]; try reflexivity.
      apply highSurrogate_unit.
Qed.

Lemma slice0_idem v n r :
  JS.slice0 v n = JS.Ok r -> JS.slice0 r n = JS.Ok r.
Proof.
  destruct v; cbn; intros E; try discriminate E; injection E as <-; cbn.
  - rewrite sliceOfString_idem. reflexivity.
  - rewrite take_take, Nat.min_id. reflexivity.
Qed.

(** ** The render of a loaded history *)

Lemma looksOnly_bind {S} (c k : M S unit) :
  looksOnly c -> looksOnly k -> looksOnly (c ;; k).
Proof.
  intros Hc Hk w. unfold bind. destruct (Hc w) as [-> | ->]; [apply Hk|].
  right. reflexivity.
Qed.

Lemma looksOnly_property {S} (item : JS.value) (name : string)
    (k : option JS.value -> M S unit) :
  (forall x, looksOnly (k x)) ->
  looksOnly (do x <- lift (JS.property item name); k x).
Proof.
  intros Hk w. unfold bind, lift.
  destruct item; cbn; try apply Hk. right. reflexivity.
Qed.

Lemma looksOnly_toPrimitive {S} x : looksOnly (S := S) (lift (JS.toPrimitive x)).
Proof.
  intros w. unfold lift, JS.toPrimitive.
  destruct x as [v|]; [destruct (JS.coercionThrows v)|]; auto.
Qed.

Lemma looksOnly_callToFixed {S} x : looksOnly (S := S) (lift (JS.callToFixed x)).
Proof.
  intros w. unfold lift, JS.callToFixed.
  destruct x as [[]|]; auto.
Qed.

Lemma looksOnly_forEachValue {S} (body : JS.value -> M S unit) elements :
  (forall element, looksOnly (body element)) ->
  looksOnly (forEachValue body elements).
Proof.
  intros Hb. induction elements as [|element rest IH]; cbn [forEachValue].
  - intros w. left. reflexivity.
  - apply looksOnly_bind; [apply Hb|exact IH].
Qed.

Lemma looksOnly_compared {S} item : looksOnly (S := S) (compared item).
Proof.
  apply looksOnly_property. intros x. apply looksOnly_toPrimitive.
Qed.

Lemma looksOnly_renderLoadedItem {S} item :
  looksOnly (S := S) (renderLoadedItem item).
Proof.
  unfold renderLoadedItem.
  apply looksOnly_property. intros x1.
  apply looksOnly_bind; [apply looksOnly_toPrimitive|].
  apply looksOnly_property. intros x2.
  apply looksOnly_bind; [apply looksOnly_callToFixed|].
  apply looksOnly_property. intros x3.
  apply looksOnly_bind; [apply looksOnly_callToFixed|].
  apply looksOnly_property. intros x4. apply looksOnly_toPrimitive.
Qed.

Lemma looksOnly_chartSeries {S} history : looksOnly (S := S) (chartSeries history).
Proof.
  unfold chartSeries. destruct history; try (intros w; right; reflexivity).
  - intros w. left. reflexivity.
  - destruct (_ <? _); [intros w; left; reflexivity|].
    apply looksOnly_forEachValue. intros item. apply looksOnly_compared.
Qed.

Lemma looksOnly_historyCard {S} loading history :
  looksOnly (S := S) (historyCard loading history).
Proof.
  unfold historyCard. destruct loading; [intros w; left; reflexivity|].
  destruct (_ =? 0); [intros w; left; reflexivity|].
  intros w. unfold bind, lift.
  destruct (JS.slice0 history MAX_HISTORY_ITEMS_RENDERED) as [shown|e] eqn:E.
  - destruct shown; try (right; reflexivity).
    apply looksOnly_forEachValue. intros item. apply looksOnly_renderLoadedItem.
  - right. destruct history; cbn in E; congruence.
Qed.

(** A render changes nothing, and throws nothing but a [TypeError]. *)
Lemma render_looksOnly : looksOnly render.
Proof.
  intros w. unfold render, bind at 1, get.
  apply looksOnly_bind; [apply looksOnly_chartSeries|apply looksOnly_historyCard].
Qed.

Lemma render_world (w : World JS.value) : render w = (w, snd (render w)).
Proof. destruct (render_looksOnly w) as [-> | ->]; reflexivity. Qed.

(** The empty history is rendered without a throw. *)
Lemma render_empty (w : World JS.value) :
  history w = JS.Array [] -> render w = (w, JS.Ok tt).
Proof.
  intros Hh. unfold render, bind, get. rewrite Hh. cbn.
  destruct (isHistoryLoading w); reflexivity.
Qed.

Lemma forEachValue_all {S} (body : JS.value -> M S unit) elements (w : S) :
  (forall element, element ∈ elements -> body element w = (w, JS.Ok tt)) ->
  forEachValue body elements w = (w, JS.Ok tt).
Proof.
  induction elements as [|element rest IH]; intros Hb; [reflexivity|].
  cbn [forEachValue]. unfold bind. rewrite Hb by (left).
  apply IH. intros e He. apply Hb. right. exact He.
Qed.

Lemma forEachValue_some {S} (body : JS.value -> M S unit) elements element (w : S) :
  (forall e, looksOnly (body e)) ->
  element ∈ elements ->
  body element w = (w, JS.Throw JS.TypeError) ->
  forEachValue body elements w = (w, JS.Throw JS.TypeError).
Proof.
  intros Hb Hin Ht. induction elements as [|e rest IH];
    [inversion Hin|].
  cbn [forEachValue]. unfold bind.
  apply elem_of_cons in Hin as [<-|Hin]; [rewrite Ht; reflexivity|].
  destruct (Hb e w) as [-> | ->]; [apply IH; exact Hin|reflexivity].
Qed.

(** A history of items is rendered without a throw, whatever its numbers. *)
Lemma render_items (h : list HistoryItem) (w : World JS.value) :
  history w = valueOfHistory h -> render w = (w, JS.Ok tt).
Proof.
  intros Hh. unfold render, bind at 1, get. rewrite Hh.
  unfold bind.
  assert (Hc : chartSeries (valueOfHistory h) w = (w, JS.Ok tt)).
  { unfold chartSeries, valueOfHistory.
    destruct (_ <? _); [reflexivity|].
    apply forEachValue_all. intros e He.
    apply list_elem_of_fmap in He as (it & -> & _). reflexivity. }
  rewrite Hc. unfold historyCard.
  destruct (isHistoryLoading w); [reflexivity|].
  destruct (_ =? 0); [reflexivity|].
  unfold bind, lift, valueOfHistory. cbn [JS.slice0].
  apply forEachValue_all. intros e He.
  apply elem_of_take in He as (i & He & _).
  apply list_lookup_fmap_Some in He as (it & -> & _). reflexivity.
Qed.

(** A row for a value without the two numbers is where the render throws. *)
Lemma renderLoadedItem_throws {S} (item : JS.value) (w : S) :
  hasBothValues item = false ->
  renderLoadedItem item w = (w, JS.Throw JS.TypeError).
Proof.
  intros Hv. unfold renderLoadedItem, bind, lift.
  destruct item as [ | b | x | t | l | fields]; try reflexivity.
  cbn [JS.property]. cbn in Hv.
  destruct (JS.toPrimitive (JS.field "timestamp" fields)) as [[]|e] eqn:Et.
  - destruct (JS.field "mgdlValue" fields) as [[ | | x1 | | | ]|]; try reflexivity.
    cbn [JS.callToFixed].
    destruct (JS.field "mmolValue" fields) as [[ | | x2 | | | ]|];
      try reflexivity. discriminate Hv.
  - unfold JS.toPrimitive in Et.
    destruct (JS.field "timestamp" fields) as [v|]; [|discriminate Et].
    destruct (JS.coercionThrows v); congruence.
Qed.

Lemma render_throws (w : World JS.value) (elements : list JS.value)
    (item : JS.value) :
  isHistoryLoading w = false ->
  history w = JS.Array elements ->
  item ∈ take 20 elements ->
  hasBothValues item = false ->
  render w = (w, JS.Throw JS.TypeError).
Proof.
  intros Hl Hh Hin Hv. unfold render, bind at 1, get. unfold bind.
  destruct (looksOnly_chartSeries (history w) w) as [-> | ->]; [|reflexivity].
  rewrite Hl, Hh. unfold historyCard.
  replace (JS.length_of (JS.Array elements) =? 0) with false.
  - unfold bind, lift. cbn [JS.slice0].
    change (Z.to_nat MAX_HISTORY_ITEMS_RENDERED) with 20%nat.
    apply (forEachValue_some _ _ item).
    + intros e. apply looksOnly_renderLoadedItem.
    + exact Hin.
    + apply renderLoadedItem_throws. exact Hv.
  - symmetry. apply Z.eqb_neq. cbn.
    destruct elements; [rewrite take_nil in Hin; inversion Hin|cbn; lia].
Qed.

(** A mount is the load effect, then the render of what it left, then,
    unless the render threw, the save effect. *)
Lemma mount_steps (load save : M (World JS.value) unit)
    (w0 loaded : World JS.value) :
  load w0 = (loaded, JS.Ok tt) ->
  (load ;; render ;; save) w0
  = match snd (render loaded) with
    | JS.Ok _ => save loaded
    | JS.Throw e => (loaded, JS.Throw e)
    end.
Proof.
  intros E. unfold bind. rewrite E, (render_world loaded).
  destruct (snd (render loaded)); reflexivity.
Qed.

Lemma saveValueWith_written onFailure (w : World JS.value) :
  isHistoryLoading w = false ->
  setItemFails (storage w) = false ->
  JS.slice0 (history w) MAX_HISTORY_ITEMS_DISPLAYED = JS.Ok (history w) ->
  saveValueWith onFailure w
  = (withStorage
       (withItems
          (<[HISTORY_STORAGE_KEY := JS.JSON_stringify (history w)]>
             (items (storage w)))
          (storage w)) w,
     JS.Ok tt).
Proof.
  intros Hl Hs Hh. unfold saveValueWith. run_effect.
  rewrite Hl. cbn [negb]. rewrite Hh, Hs. reflexivity.
Qed.

(** What the load effects leave is a history that [slice] leaves alone, and
    a store that fails as it did. *)
Lemma loaded_history_sliced (s : Storage) :
  (let w := fst (Web.loadHistory (mounted (JS.Array []) s)) in
   JS.slice0 (history w) MAX_HISTORY_ITEMS_DISPLAYED = JS.Ok (history w)
   /\ setItemFails (storage w) = setItemFails s
   /\ isHistoryLoading w = false)
  /\
  (let w := fst (Native.loadHistory (mounted (JS.Array []) s)) in
   JS.slice0 (history w) MAX_HISTORY_ITEMS_DISPLAYED = JS.Ok (history w)
   /\ setItemFails (storage w) = setItemFails s
   /\ isHistoryLoading w = false).
Proof.
  split; cbn zeta.
  - unfold Web.loadHistory, mounted. run_effect. cbn -[JS.slice0].
    destruct (getItemFails s); [repeat split|].
    destruct (items s !! HISTORY_STORAGE_KEY) as [[c|v]|]; cbn -[JS.slice0];
      [repeat split| |repeat split].
    destruct (JS.isArray v); cbn -[JS.slice0].
    + destruct (JS.slice0 v MAX_HISTORY_ITEMS_DISPLAYED) as [r|e] eqn:E;
        cbn -[JS.slice0]; [|repeat split].
      split; [exact (slice0_idem _ _ _ E)|]. split; reflexivity.
    + destruct (removeItemFails s); cbn -[JS.slice0]; repeat split.
  - unfold Native.loadHistory, mounted. run_effect. cbn -[JS.slice0].
    destruct (getItemFails s); [repeat split|].
    destruct (items s !! HISTORY_STORAGE_KEY) as [[c|v]|]; cbn -[JS.slice0];
      [repeat split| |repeat split].
    destruct (JS.slice0 v MAX_HISTORY_ITEMS_DISPLAYED) as [r|e] eqn:E;
      cbn -[JS.slice0]; [|repeat split].
    split; [exact (slice0_idem _ _ _ E)|]. split; reflexivity.
Qed.

Lemma web_mount_saves (s : Storage) :
  setItemFails s = false ->
  let loaded := fst (Web.loadHistory (mounted (JS.Array []) s)) in
  render loaded = (loaded, JS.Ok tt) ->
  exists w,
    Web.mount (mounted (JS.Array []) s) = (w, JS.Ok tt)
    /\ isHistoryLoading w = false
    /\ history w = history loaded
    /\ slot w = Some (JS.JSON_stringify (history w)).
Proof.
  intros Hs loaded Hr.
  destruct (loaded_history_sliced s) as [(Hw1 & Hw2 & Hw3) _].
  cbn zeta in *. fold loaded in Hw1, Hw2, Hw3.
  destruct (web_load_ends_ready (mounted (JS.Array []) s)) as (w1 & E & _).
  assert (Hw : loaded = w1) by (unfold loaded; rewrite E; reflexivity).
  unfold Web.mount. rewrite (mount_steps _ _ _ _ E), <- Hw, Hr. cbn [snd].
  unfold Web.saveLoaded.
  rewrite saveValueWith_written by (try assumption; congruence).
  eexists. split; [reflexivity|].
  cbn [history isHistoryLoading]. unfold slot.
  cbn [storage items withStorage withItems].
  split; [assumption|]. split; [reflexivity|]. apply lookup_insert_eq.
Qed.

Lemma native_mount_saves (s : Storage) :
  setItemFails s = false ->
  let loaded := fst (Native.loadHistory (mounted (JS.Array []) s)) in
  render loaded = (loaded, JS.Ok tt) ->
  exists w,
    Native.mount (mounted (JS.Array []) s) = (w, JS.Ok tt)
    /\ isHistoryLoading w = false
    /\ history w = history loaded
    /\ slot w = Some (JS.JSON_stringify (history w)).
Proof.
  intros Hs loaded Hr.
  destruct (loaded_history_sliced s) as [_ (Hw1 & Hw2 & Hw3)].
  cbn zeta in *. fold loaded in Hw1, Hw2, Hw3.
  destruct (native_load_ends_ready (mounted (JS.Array []) s)) as (w1 & E & _).
  assert (Hw : loaded = w1) by (unfold loaded; rewrite E; reflexivity).
  unfold Native.mount. rewrite (mount_steps _ _ _ _ E), <- Hw, Hr. cbn [snd].
  unfold Native.saveLoaded.
  rewrite saveValueWith_written by (try assumption; congruence).
  eexists. split; [reflexivity|].
  cbn [history isHistoryLoading]. unfold slot.
  cbn [storage items withStorage withItems].
  split; [assumption|]. split; [reflexivity|]. apply lookup_insert_eq.
Qed.

Lemma web_mount_throws (s : Storage) :
  let loaded := fst (Web.loadHistory (mounted (JS.Array []) s)) in
  render loaded = (loaded, JS.Throw JS.TypeError) ->
  Web.mount (mounted (JS.Array []) s) = (loaded, JS.Throw JS.TypeError).
Proof.
  intros loaded Hr.
  destruct (web_load_ends_ready (mounted (JS.Array []) s)) as (w1 & E & _).
  assert (Hw : loaded = w1) by (unfold loaded; rewrite E; reflexivity).
  unfold Web.mount. rewrite (mount_steps _ _ _ _ E), <- Hw, Hr. reflexivity.
Qed.

Lemma native_mount_throws (s : Storage) :
  let loaded := fst (Native.loadHistory (mounted (JS.Array []) s)) in
  render loaded = (loaded, JS.Throw JS.TypeError) ->
  Native.mount (mounted (JS.Array []) s) = (loaded, JS.Throw JS.TypeError).
Proof.
  intros loaded Hr.
  destruct (native_load_ends_ready (mounted (JS.Array []) s)) as (w1 & E & _).
  assert (Hw : loaded = w1) by (unfold loaded; rewrite E; reflexivity).
  unfold Native.mount. rewrite (mount_steps _ _ _ _ E), <- Hw, Hr. reflexivity.
Qed.

(** X16. When the store takes writes, mounting a screen goes one of two
    ways, by the render of what the load effect left.  When that render
    returns, the save effect runs and the slot ends with the text of the
    history that is in memory, whatever it held before.  When it throws,
    the mount throws the same [TypeError] and nothing is written: the
    store stays as the load effect left it.  The render returns for the
    empty history, so a store that cannot be read ends with the text of
    the empty list in the slot; it throws when one of the first 20
    elements that were loaded lacks one of the two numbers of a row. *)
Theorem mount_saves_what_it_renders (s : Storage) :
  setItemFails s = false ->
  (let loaded := fst (Web.loadHistory (mounted (JS.Array []) s)) in
   (render loaded = (loaded, JS.Ok tt)
    \/ render loaded = (loaded, JS.Throw JS.TypeError))
   /\ (render loaded = (loaded, JS.Ok tt) ->
       exists w,
         Web.mount (mounted (JS.Array []) s) = (w, JS.Ok tt)
         /\ isHistoryLoading w = false
         /\ history w = history loaded
         /\ slot w = Some (JS.JSON_stringify (history w)))
   /\ (render loaded = (loaded, JS.Throw JS.TypeError) ->
       Web.mount (mounted (JS.Array []) s) = (loaded, JS.Throw JS.TypeError))
   /\ (getItemFails s = true ->
       exists w,
         Web.mount (mounted (JS.Array []) s) = (w, JS.Ok tt)
         /\ history w = JS.Array []
         /\ slot w = Some (JS.Json (JS.Array [])))
   /\ (forall elements item,
         history loaded = JS.Array elements ->
         item ∈ take 20 elements ->
         hasBothValues item = false ->
         Web.mount (mounted (JS.Array []) s)
         = (loaded, JS.Throw JS.TypeError)))
  /\
  (let loaded := fst (Native.loadHistory (mounted (JS.Array []) s)) in
   (render loaded = (loaded, JS.Ok tt)
    \/ render loaded = (loaded, JS.Throw JS.TypeError))
   /\ (render loaded = (loaded, JS.Ok tt) ->
       exists w,
         Native.mount (mounted (JS.Array []) s) = (w, JS.Ok tt)
         /\ isHistoryLoading w = false
         /\ history w = history loaded
         /\ slot w = Some (JS.JSON_stringify (history w)))
   /\ (render loaded = (loaded, JS.Throw JS.TypeError) ->
       Native.mount (mounted (JS.Array []) s) = (loaded, JS.Throw JS.TypeError))
   /\ (getItemFails s = true ->
       exists w,
         Native.mount (mounted (JS.Array []) s) = (w, JS.Ok tt)
         /\ history w = JS.Array []
         /\ slot w = Some (JS.Json (JS.Array [])))
   /\ (forall elements item,
         history loaded = JS.Array elements ->
         item ∈ take 20 elements ->
         hasBothValues item = false ->
         Native.mount (mounted (JS.Array []) s)
         = (loaded, JS.Throw JS.TypeError))).
Proof.
  intros Hs.
  destruct (loaded_history_sliced s) as [(_ & _ & Hwl) (_ & _ & Hnl)].
  cbn zeta in *. split.
  - split; [apply render_looksOnly|].
    split; [apply (web_mount_saves s Hs)|].
    split; [apply (web_mount_throws s)|].
    split.
    + intros Hg.
      assert (Hh : history (fst (Web.loadHistory (mounted (JS.Array []) s)))
                   = JS.Array [])
        by (rewrite (proj1 (loadHistory_unreadable s Hg)); reflexivity).
      destruct (web_mount_saves s Hs (render_empty _ Hh))
        as (w & E & _ & Hw & Hslot).
      exists w. rewrite Hslot, Hw, Hh. repeat split. exact E.
    + intros elements item Hh Hin Hv. apply web_mount_throws.
      apply (render_throws _ elements item); assumption.
  - split; [apply render_looksOnly|].
    split; [apply (native_mount_saves s Hs)|].
    split; [apply (native_mount_throws s)|].
    split.
    + intros Hg.
      assert (Hh : history (fst (Native.loadHistory (mounted (JS.Array []) s)))
                   = JS.Array [])
        by (rewrite (proj2 (loadHistory_unreadable s Hg)); reflexivity).
      destruct (native_mount_saves s Hs (render_empty _ Hh))
        as (w & E & _ & Hw & Hslot).
      exists w. rewrite Hslot, Hw, Hh. repeat split. exact E.
    + intros elements item Hh Hin Hv. apply native_mount_throws.
      apply (render_throws _ elements item); assumption.
Qed.

Lemma mount_saves_what_it_renders_witness :
  (exists w,
      Native.mount (mounted (JS.Array []) (storageWith (JS.Malformed "not a list")))
      = (w, JS.Ok tt)
      /\ slot w = Some (JS.JSON_stringify (history w)))
  /\ snd (Web.mount (mounted (JS.Array [])
                       (storageWith (JS.Json (JS.Array [JS.Number JS.zero])))))
     = JS.Throw JS.TypeError.
Proof.
  split.
  - destruct (mount_saves_what_it_renders
                (storageWith (JS.Malformed "not a list")) eq_refl)
      as [_ (_ & Hsaves & _)].
    destruct (Hsaves eq_refl) as (w & E & _ & _ & Hslot).
    exists w. split; [exact E|exact Hslot].
  - destruct (mount_saves_what_it_renders
                (storageWith (JS.Json (JS.Array [JS.Number JS.zero]))) eq_refl)
      as [(_ & _ & _ & _ & Hthrows) _].
    rewrite (Hthrows [JS.Number JS.zero] (JS.Number JS.zero));
      [reflexivity|vm_compute; reflexivity|left|reflexivity].
Defined.

Lemma withItems_same (s : Storage) (t : JS.text) :
  items s !! HISTORY_STORAGE_KEY = Some t ->
  withItems (<[HISTORY_STORAGE_KEY := t]> (items s)) s = s.
Proof.
  intros Hs. unfold withItems. rewrite insert_id by exact Hs.
  destruct s; reflexivity.
Qed.

Lemma rewritten_snapshot (s : Storage) (l : list JS.value) :
  items s !! HISTORY_STORAGE_KEY = Some (JS.JSON_stringify (JS.Array l)) ->
  withStorage
    (withItems
       (<[HISTORY_STORAGE_KEY := JS.JSON_stringify (JS.jsonImage (JS.Array l))]>
          (items s)) s)
    (mkWorld "" MgDl (JS.jsonImage (JS.Array l)) false s [])
  = mkWorld "" MgDl (JS.jsonImage (JS.Array l)) false s [].
Proof.
  intros Hslot. unfold JS.JSON_stringify at 1. rewrite jsonImage_idem.
  unfold withStorage. cbn [inputValue selectedUnit history isHistoryLoading events].
  rewrite withItems_same by exact Hslot. reflexivity.
Qed.

(** Saving what was just read back from a snapshot changes nothing. *)
Lemma resave_is_noop onFailure (s : Storage) (l : list JS.value) :
  setItemFails s = false ->
  (length l <= 100)%nat ->
  items s !! HISTORY_STORAGE_KEY = Some (JS.JSON_stringify (JS.Array l)) ->
  saveValueWith onFailure
    (mkWorld "" MgDl (JS.jsonImage (JS.Array l)) false s [])
  = (mkWorld "" MgDl (JS.jsonImage (JS.Array l)) false s [], JS.Ok tt).
Proof.
  intros Hs Hlen Hslot. rewrite saveValueWith_written.
  - cbn [history storage]. rewrite rewritten_snapshot by exact Hslot.
    reflexivity.
  - reflexivity.
  - exact Hs.
  - cbn [history JS.jsonImage JS.slice0].
    change (Z.to_nat MAX_HISTORY_ITEMS_DISPLAYED) with 100%nat.
    rewrite take_ge by (rewrite length_map; exact Hlen). reflexivity.
Qed.

Lemma web_mount_of_snapshot (s : Storage) (l : list JS.value) :
  works s ->
  (length l <= 100)%nat ->
  items s !! HISTORY_STORAGE_KEY = Some (JS.JSON_stringify (JS.Array l)) ->
  let w := mkWorld "" MgDl (JS.jsonImage (JS.Array l)) false s [] in
  Web.mount (mounted (JS.Array []) s) = (w, snd (render w)).
Proof.
  intros (Hg & Hs & Hr) Hlen Hslot w.
  assert (Htake : take 100 (map JS.jsonImage l) = map JS.jsonImage l)
    by (apply take_ge; rewrite length_map; exact Hlen).
  pose proof (web_loadHistory_array s (map JS.jsonImage l) Hg Hslot) as E.
  rewrite Htake in E.
  change (Web.loadHistory (mounted (JS.Array []) s) = (w, JS.Ok tt)) in E.
  unfold Web.mount. rewrite (mount_steps _ _ _ _ E).
  destruct (snd (render w)) as [[]|e]; [|reflexivity].
  unfold Web.saveLoaded, w. apply resave_is_noop; assumption.
Qed.

Lemma native_mount_of_snapshot (s : Storage) (l : list JS.value) :
  works s ->
  (length l <= 100)%nat ->
  items s !! HISTORY_STORAGE_KEY = Some (JS.JSON_stringify (JS.Array l)) ->
  let w := mkWorld "" MgDl (JS.jsonImage (JS.Array l)) false s [] in
  Native.mount (mounted (JS.Array []) s) = (w, snd (render w)).
Proof.
  intros (Hg & Hs & Hr) Hlen Hslot w.
  assert (Htake : take 100 (map JS.jsonImage l) = map JS.jsonImage l)
    by (apply take_ge; rewrite length_map; exact Hlen).
  pose proof (native_loadHistory_array s (map JS.jsonImage l) Hg Hslot) as E.
  rewrite Htake in E.
  change (Native.loadHistory (mounted (JS.Array []) s) = (w, JS.Ok tt)) in E.
  unfold Native.mount. rewrite (mount_steps _ _ _ _ E).
  destruct (snd (render w)) as [[]|e]; [|reflexivity].
  unfold Native.saveLoaded, w. apply resave_is_noop; assumption.
Qed.

(** X17. A restart changes nothing in the store: when the slot holds what a
    save wrote for a list of at most 100 elements and the store works,
    mounting either screen reads that list back, shows no message and
    leaves the store as it was, whether the render of the list returns
    (the save effect then writes into the slot the very text it held) or
    throws (nothing is written then): the mount returns or throws as
    that render does.  For a list that is a history of items it
    returns. *)
Theorem restart_keeps_the_snapshot (s : Storage) (l : list JS.value) :
  works s ->
  (length l <= 100)%nat ->
  items s !! HISTORY_STORAGE_KEY = Some (JS.JSON_stringify (JS.Array l)) ->
  let w := mkWorld "" MgDl (JS.jsonImage (JS.Array l)) false s [] in
  Web.mount (mounted (JS.Array []) s) = (w, snd (render w))
  /\ Native.mount (mounted (JS.Array []) s) = (w, snd (render w))
  /\ (snd (render w) = JS.Ok tt \/ snd (render w) = JS.Throw JS.TypeError)
  /\ (forall h : list HistoryItem,
        JS.jsonImage (JS.Array l) = valueOfHistory h ->
        Web.mount (mounted (JS.Array []) s) = (w, JS.Ok tt)
        /\ Native.mount (mounted (JS.Array []) s) = (w, JS.Ok tt)).
Proof.
  intros Hw Hlen Hslot w.
  pose proof (web_mount_of_snapshot s l Hw Hlen Hslot) as Ew.
  pose proof (native_mount_of_snapshot s l Hw Hlen Hslot) as En.
  cbn zeta in Ew, En. fold w in Ew, En.
  split; [exact Ew|]. split; [exact En|]. split.
  - destruct (render_looksOnly w) as [-> | ->]; [left|right]; reflexivity.
  - intros h Hh. rewrite Ew, En, (render_items h w Hh). split; reflexivity.
Qed.

Lemma restart_keeps_the_snapshot_witness :
  Web.mount (mounted (JS.Array []) (storage afterSomeUse))
  = (mkWorld "" MgDl (valueOfHistory storedHistory) false (storage afterSomeUse) [],
     JS.Ok tt).
Proof.
  assert (Hw : works (storage afterSomeUse)) by (repeat split).
  assert (Hl : (length (map valueOfItem storedHistory) <= 100)%nat)
    by (cbn; lia).
  exact (proj1 (proj2 (proj2 (proj2
           (restart_keeps_the_snapshot (storage afterSomeUse)
              (map valueOfItem storedHistory) Hw Hl eq_refl)))
           storedHistory eq_refl)).
Defined.

(** ** Sessions *)

Lemma sameElsewhere_refl {H} (w : World H) : sameElsewhere w w.
Proof. repeat split. Qed.

Lemma sameElsewhere_trans {H} (w1 w2 w3 : World H) :
  sameElsewhere w1 w2 -> sameElsewhere w2 w3 -> sameElsewhere w1 w3.
Proof.
  intros (A1 & A2 & A3 & A4) (B1 & B2 & B3 & B4).
  repeat split; try congruence.
  intros key Hk. rewrite B4, A4 by exact Hk. reflexivity.
Qed.

(** The save effect, whatever the store does *)
Lemma saveHistoryWith_frame onFailure (w : World (list HistoryItem)) :
  (forall e w0, exists ev, onFailure e w0
     = (mkWorld (inputValue w0) (selectedUnit w0) (history w0)
                (isHistoryLoading w0) (storage w0) (events w0 ++ ev), JS.Ok tt)) ->
  exists w',
    saveHistoryWith onFailure w = (w', JS.Ok tt)
    /\ inputValue w' = inputValue w /\ selectedUnit w' = selectedUnit w
    /\ history w' = history w /\ isHistoryLoading w' = isHistoryLoading w
    /\ sameElsewhere w w'.
Proof.
  intros Hf. destruct (isHistoryLoading w) eqn:Hl.
  - rewrite saveHistoryWith_loading by exact Hl.
    eexists. split; [reflexivity|]. repeat split. exact Hl.
  - destruct (setItemFails (storage w)) eqn:Hs.
    + rewrite saveHistoryWith_failed by assumption.
      destruct (Hf JS.StorageError w) as [ev E]. rewrite E.
      eexists. split; [reflexivity|]. cbn. repeat split. exact Hl.
    + rewrite saveHistoryWith_written by assumption.
      eexists. split; [reflexivity|]. cbn. repeat split; try assumption.
      intros key Hk. apply lookup_insert_ne. congruence.
Qed.

Lemma web_saveHistory_frame (w : World (list HistoryItem)) :
  exists w',
    Web.saveHistory w = (w', JS.Ok tt)
    /\ inputValue w' = inputValue w /\ selectedUnit w' = selectedUnit w
    /\ history w' = history w /\ isHistoryLoading w' = isHistoryLoading w
    /\ sameElsewhere w w'.
Proof.
  apply saveHistoryWith_frame. intros e w0. run_effect. cbn.
  eexists. rewrite <- app_assoc. reflexivity.
Qed.

Lemma native_saveHistory_frame (w : World (list HistoryItem)) :
  exists w',
    Native.saveHistory w = (w', JS.Ok tt)
    /\ inputValue w' = inputValue w /\ selectedUnit w' = selectedUnit w
    /\ history w' = history w /\ isHistoryLoading w' = isHistoryLoading w
    /\ sameElsewhere w w'.
Proof.
  apply saveHistoryWith_frame. intros e w0. run_effect. cbn.
  eexists. reflexivity.
Qed.

Lemma web_clear_frame (w : World (list HistoryItem)) :
  exists w',
    Web.handleClearHistory true w = (w', JS.Ok tt)
    /\ history w' = [] /\ isHistoryLoading w' = isHistoryLoading w
    /\ sameElsewhere w w'.
Proof.
  destruct (removeItemFails (storage w)) eqn:Hr.
  - rewrite web_clear_reports_failure by exact Hr.
    eexists. split; [reflexivity|]. repeat split.
  - rewrite web_clear_removes by exact Hr.
    eexists. split; [reflexivity|]. cbn. repeat split; try assumption.
    intros key Hk. apply lookup_delete_ne. congruence.
Qed.

Lemma web_perform_wellBehaved toFixed : wellBehaved (Web.perform toFixed).
Proof.
  intros a w. destruct a as [text|u|idNow tsNow|[|]]; cbn [Web.perform historyAfter].
  - eexists. split; [reflexivity|]. repeat split.
  - eexists. split; [reflexivity|]. repeat split.
  - unfold bind at 1, get. destruct (isInputValid (inputValue w)) eqn:Hv.
    + destruct (web_handleConvert_valid toFixed w idNow tsNow Hv) as [text E].
      unfold bind. rewrite E.
      match goal with |- context [Web.saveHistory ?w1] =>
        destruct (web_saveHistory_frame w1) as (w' & Es & _ & _ & Hh & Hl & Hse)
      end.
      rewrite Es. exists w'. split; [reflexivity|].
      split; [exact Hl|]. split; [exact Hh|]. exact Hse.
    + rewrite (web_handleConvert_invalid toFixed w idNow tsNow Hv).
      eexists. split; [reflexivity|]. repeat split.
  - destruct (web_clear_frame w) as (w1 & E & Hh & Hl & Hse).
    unfold bind. rewrite E.
    destruct (web_saveHistory_frame w1) as (w' & Es & _ & _ & Hh' & Hl' & Hse').
    rewrite Es. exists w'. split; [reflexivity|].
    split; [congruence|]. split; [congruence|].
    exact (sameElsewhere_trans _ _ _ Hse Hse').
  - eexists. split; [reflexivity|]. repeat split.
Qed.

Lemma native_perform_wellBehaved toFixed : wellBehaved (Native.perform toFixed).
Proof.
  intros a w. destruct a as [text|u|idNow tsNow|[|]];
    cbn [Native.perform historyAfter].
  - eexists. split; [reflexivity|]. repeat split.
  - eexists. split; [reflexivity|]. repeat split.
  - unfold bind at 1, get. destruct (isInputValid (inputValue w)) eqn:Hv.
    + destruct (native_handleConvert_valid toFixed w idNow tsNow Hv) as [text E].
      unfold bind. rewrite E.
      match goal with |- context [Native.saveHistory ?w1] =>
        pose proof (native_saveHistory_frame w1) as Hsave
      end.
      destruct Hsave as (w' & Es & _ & _ & Hh & Hl & Hse).
      rewrite Es. eexists. split; [reflexivity|].
      split; [exact Hl|]. split; [exact Hh|]. exact Hse.
    + rewrite (native_handleConvert_invalid toFixed w idNow tsNow Hv).
      eexists. split; [reflexivity|]. repeat split.
  - unfold Native.handleClearHistory. run_effect.
    cbn -[Native.saveHistory sameElsewhere].
    match goal with |- context [Native.saveHistory ?w1] =>
      pose proof (native_saveHistory_frame w1) as Hsave
    end.
    destruct Hsave as (w' & Es & _ & _ & Hh & Hl & Hse).
    rewrite Es. exists w'. split; [reflexivity|].
    split; [exact Hl|]. split; [exact Hh|]. exact Hse.
  - eexists. split; [reflexivity|]. repeat split.
Qed.

Lemma historyAfter_bounded a (w : World (list HistoryItem)) :
  Z.of_nat (length (history w)) <= MAX_HISTORY_ITEMS_DISPLAYED ->
  Z.of_nat (length (historyAfter a w)) <= MAX_HISTORY_ITEMS_DISPLAYED.
Proof.
  intros Hb. destruct a as [text|u|idNow tsNow|[|]]; cbn [historyAfter];
    try exact Hb.
  - destruct (isInputValid (inputValue w)); [apply append_length|exact Hb].
  - cbn. unfold MAX_HISTORY_ITEMS_DISPLAYED. lia.
Qed.

Lemma historyAfter_readings a (w : World (list HistoryItem)) :
  forallb readingItem (history w) = true ->
  forallb readingItem (historyAfter a w) = true.
Proof.
  intros Hr. destruct a as [text|u|idNow tsNow|[|]]; cbn [historyAfter];
    try exact Hr; [|reflexivity].
  destruct (isInputValid (inputValue w)) eqn:Hv; [|exact Hr].
  unfold append. apply forallb_take. cbn [forallb].
  rewrite convertedEntry_is_reading by exact Hv. exact Hr.
Qed.

Lemma StronglySorted_take {A} (R : relation A) (n : nat) (l : list A) :
  StronglySorted R l -> StronglySorted R (take n l).
Proof.
  intros HS. revert n. induction HS as [|x l HS IH Hx]; intros [|n]; cbn;
    try constructor.
  - apply IH.
  - rewrite Forall_forall in *. intros y Hy. apply Hx.
    apply elem_of_take in Hy as (i & Hi & _).
    apply list_elem_of_lookup. exists i. exact Hi.
Qed.

Lemma historyAfter_newest_first a (w : World (list HistoryItem)) :
  StronglySorted (fun x y => timestamp y <= timestamp x) (history w) ->
  clockRunsForward (history w) (convertTimes [a]) ->
  StronglySorted (fun x y => timestamp y <= timestamp x) (historyAfter a w)
  /\ forall t, (forall x t0, x ∈ history w -> t0 ∈ convertTimes [a] ++ [t] ->
                  timestamp x <= t0) ->
               StronglySorted Z.le (convertTimes [a] ++ [t]) ->
               forall x, x ∈ historyAfter a w -> timestamp x <= t.
Proof.
  intros HS (Ht & Hc).
  destruct a as [text|u|idNow tsNow|[|]]; cbn [historyAfter convertTimes app] in *.
  - split; [exact HS|]. intros t Hx _ x Hin. apply (Hx x t Hin). set_solver.
  - split; [exact HS|]. intros t Hx _ x Hin. apply (Hx x t Hin). set_solver.
  - destruct (isInputValid (inputValue w)).
    + split.
      * unfold append. apply StronglySorted_take. constructor; [exact HS|].
        rewrite Forall_forall. intros y Hy. cbn [timestamp convertedEntry newEntry].
        apply (Hc y tsNow Hy). set_solver.
      * intros t Hx Hst x Hin. unfold append in Hin.
        apply elem_of_take in Hin as (i & Hi & _).
        assert (Hin : x ∈ convertedEntry idNow tsNow (inputValue w) (selectedUnit w)
                          :: history w)
          by (apply list_elem_of_lookup; exists i; exact Hi).
        apply elem_of_cons in Hin as [->|Hin].
        -- cbn [timestamp convertedEntry newEntry].
           apply StronglySorted_inv in Hst as [_ Hst].
           rewrite Forall_forall in Hst. apply Hst. set_solver.
        -- apply (Hx x t Hin). set_solver.
    + split; [exact HS|]. intros t Hx _ x Hin. apply (Hx x t Hin). set_solver.
  - split; [constructor|]. intros t _ _ x Hin. set_solver.
  - split; [exact HS|]. intros t Hx _ x Hin. apply (Hx x t Hin). set_solver.
Qed.

Lemma convertTimes_cons a rest :
  convertTimes (a :: rest) = convertTimes [a] ++ convertTimes rest.
Proof. destruct a; reflexivity. Qed.

Section Sessions.
Variable perform : Action -> M (World (list HistoryItem)) unit.
Hypothesis perform_wellBehaved : wellBehaved perform.

Lemma run_cons a rest (w : World (list HistoryItem)) :
  exists w1,
    perform a w = (w1, JS.Ok tt)
    /\ run perform (a :: rest) w = run perform rest w1
    /\ isHistoryLoading w1 = isHistoryLoading w
    /\ history w1 = historyAfter a w
    /\ sameElsewhere w w1.
Proof.
  destruct (perform_wellBehaved a w) as (w1 & E & Hl & Hh & Hse).
  exists w1. split; [exact E|]. split; [|auto].
  cbn [run]. unfold bind. rewrite E. reflexivity.
Qed.

Lemma run_frame actions : forall w : World (list HistoryItem),
  exists w',
    run perform actions w = (w', JS.Ok tt)
    /\ isHistoryLoading w' = isHistoryLoading w
    /\ sameElsewhere w w'.
Proof.
  induction actions as [|a rest IH]; intros w.
  - exists w. split; [reflexivity|]. split; [reflexivity|].
    apply sameElsewhere_refl.
  - destruct (run_cons a rest w) as (w1 & _ & E & Hl & _ & Hse).
    destruct (IH w1) as (w' & E' & Hl' & Hse').
    exists w'. rewrite E. split; [exact E'|]. split; [congruence|].
    exact (sameElsewhere_trans _ _ _ Hse Hse').
Qed.

Lemma run_bounded_readings actions : forall w : World (list HistoryItem),
  Z.of_nat (length (history w)) <= MAX_HISTORY_ITEMS_DISPLAYED ->
  forallb readingItem (history w) = true ->
  Z.of_nat (length (history (fst (run perform actions w))))
  <= MAX_HISTORY_ITEMS_DISPLAYED
  /\ forallb readingItem (history (fst (run perform actions w))) = true.
Proof.
  induction actions as [|a rest IH]; intros w Hb Hr.
  - split; assumption.
  - destruct (run_cons a rest w) as (w1 & _ & E & _ & Hh & _).
    rewrite E. apply IH; rewrite Hh.
    + apply historyAfter_bounded, Hb.
    + apply historyAfter_readings, Hr.
Qed.

Lemma run_newest_first actions : forall w : World (list HistoryItem),
  StronglySorted (fun x y => timestamp y <= timestamp x) (history w) ->
  clockRunsForward (history w) (convertTimes actions) ->
  StronglySorted (fun x y => timestamp y <= timestamp x)
                 (history (fst (run perform actions w))).
Proof.
  induction actions as [|a rest IH]; intros w HS (Ht & Hc).
  - exact HS.
  - destruct (run_cons a rest w) as (w1 & _ & E & _ & Hh & _).
    rewrite E. rewrite convertTimes_cons in Ht, Hc.
    apply StronglySorted_app in Ht as (Hcross & Hta & Htr).
    destruct (historyAfter_newest_first a w HS) as [HS1 Hnext].
    { split; [exact Hta|]. intros x t Hx Hin. apply (Hc x t Hx). set_solver. }
    apply IH; rewrite Hh; [exact HS1|].
    split; [exact Htr|]. intros x t Hx Hin.
    apply (Hnext t); [| |exact Hx].
    + intros y t0 Hy Hin0. apply (Hc y t0 Hy).
      apply elem_of_app in Hin0 as [H0|H0]; [set_solver|].
      apply list_elem_of_singleton in H0 as ->. set_solver.
    + apply StronglySorted_app_2; [|exact Hta|repeat constructor].
      intros x1 x2 H1 H2. apply list_elem_of_singleton in H2 as ->.
      apply (Hcross x1 t H1 Hin).
Qed.
End Sessions.

(** X18. No action lets an exception out, on either screen, whatever the
    store holds and however its calls fail; a whole session returns, and
    leaves the loading flag as it found it. *)
Theorem no_session_throws
    (toFixed : JS.number -> Z -> string)
    (actions : list Action) (w : World (list HistoryItem)) :
  snd (run (Web.perform toFixed) actions w) = JS.Ok tt
  /\ snd (run (Native.perform toFixed) actions w) = JS.Ok tt
  /\ isHistoryLoading (fst (run (Web.perform toFixed) actions w))
     = isHistoryLoading w
  /\ isHistoryLoading (fst (run (Native.perform toFixed) actions w))
     = isHistoryLoading w.
Proof.
  destruct (run_frame _ (web_perform_wellBehaved toFixed) actions w)
    as (w1 & E1 & Hl1 & _).
  destruct (run_frame _ (native_perform_wellBehaved toFixed) actions w)
    as (w2 & E2 & Hl2 & _).
  rewrite E1, E2. repeat split; assumption.
Qed.

(** X19. Nothing a session does reaches another key of the store than the
    one of the history, and nothing changes how the store fails: after
    the session its reads, writes and removals fail or succeed as they did
    before, on both screens. *)
Theorem session_touches_only_its_key
    (toFixed : JS.number -> Z -> string)
    (actions : list Action) (w : World (list HistoryItem)) (key : string) :
  key <> HISTORY_STORAGE_KEY ->
  (let w' := fst (run (Web.perform toFixed) actions w) in
   items (storage w') !! key = items (storage w) !! key
   /\ getItemFails (storage w') = getItemFails (storage w)
   /\ setItemFails (storage w') = setItemFails (storage w)
   /\ removeItemFails (storage w') = removeItemFails (storage w))
  /\
  (let w' := fst (run (Native.perform toFixed) actions w) in
   items (storage w') !! key = items (storage w) !! key
   /\ getItemFails (storage w') = getItemFails (storage w)
   /\ setItemFails (storage w') = setItemFails (storage w)
   /\ removeItemFails (storage w') = removeItemFails (storage w)).
Proof.
  intros Hk.
  destruct (run_frame _ (web_perform_wellBehaved toFixed) actions w)
    as (w1 & E1 & _ & (G1 & S1 & R1 & H1)).
  destruct (run_frame _ (native_perform_wellBehaved toFixed) actions w)
    as (w2 & E2 & _ & (G2 & S2 & R2 & H2)).
  cbn zeta. rewrite E1, E2. cbn [fst].
  split; (split; [|split; [|split]]); try assumption;
    [apply H1|apply H2]; exact Hk.
Qed.

Lemma session_touches_only_its_key_witness :
  items (storage (fst (run (Web.perform (fun _ _ => "")) sampleSession
                         (ready "" MgDl [] {[ "theme" := JS.Json (JS.Str "dark") ]}))))
    !! "theme"
  = Some (JS.Json (JS.Str "dark")).
Proof.
  rewrite (proj1 (proj1 (session_touches_only_its_key (fun _ _ => "")
                    sampleSession
                    (ready "" MgDl [] {[ "theme" := JS.Json (JS.Str "dark") ]})
                    "theme" ltac:(discriminate)))).
  reflexivity.
Defined.

(** X20. A history of at most 100 readings stays one through every
    session, on both screens: no session makes the history longer than 100
    items or puts a [NaN] or a negative value into it. *)
Theorem session_keeps_history_bounded_and_valid
    (toFixed : JS.number -> Z -> string)
    (actions : list Action) (w : World (list HistoryItem)) :
  Z.of_nat (length (history w)) <= MAX_HISTORY_ITEMS_DISPLAYED ->
  forallb readingItem (history w) = true ->
  (Z.of_nat (length (history (fst (run (Web.perform toFixed) actions w))))
   <= MAX_HISTORY_ITEMS_DISPLAYED
   /\ forallb readingItem (history (fst (run (Web.perform toFixed) actions w)))
      = true)
  /\
  (Z.of_nat (length (history (fst (run (Native.perform toFixed) actions w))))
   <= MAX_HISTORY_ITEMS_DISPLAYED
   /\ forallb readingItem (history (fst (run (Native.perform toFixed) actions w)))
      = true).
Proof.
  intros Hb Hr. split.
  - apply run_bounded_readings;
      [apply web_perform_wellBehaved|exact Hb|exact Hr].
  - apply run_bounded_readings;
      [apply native_perform_wellBehaved|exact Hb|exact Hr].
Qed.

Lemma session_keeps_history_bounded_and_valid_witness :
  forallb readingItem
    (history (fst (run (Native.perform (fun _ _ => "")) sampleSession
                     (ready "" MgDl [] ∅)))) = true.
Proof.
  apply (session_keeps_history_bounded_and_valid (fun _ _ => "") sampleSession
           (ready "" MgDl [] ∅)).
  - vm_compute. discriminate.
  - reflexivity.
Defined.

(** X21. When the readings of the clock do not decrease through a session
    and none is earlier than an item already in a newest-first history, the
    history is newest-first by timestamp after the session, on both
    screens, whatever else the user did in between. *)
Theorem session_keeps_history_newest_first
    (toFixed : JS.number -> Z -> string)
    (actions : list Action) (w : World (list HistoryItem)) :
  StronglySorted (fun x y => timestamp y <= timestamp x) (history w) ->
  clockRunsForward (history w) (convertTimes actions) ->
  newestFirst (history (fst (run (Web.perform toFixed) actions w)))
  /\ newestFirst (history (fst (run (Native.perform toFixed) actions w))).
Proof.
  intros HS Hc. unfold newestFirst.
  split; apply StronglySorted_Sorted, run_newest_first; try assumption.
  - apply web_perform_wellBehaved.
  - apply native_perform_wellBehaved.
Qed.

Lemma session_keeps_history_newest_first_witness :
  newestFirst (history (fst (run (Web.perform (fun _ _ => "")) sampleSession
                              (ready "" MgDl [] ∅)))).
Proof.
  refine (proj1 (session_keeps_history_newest_first (fun _ _ => "")
                   sampleSession (ready "" MgDl [] ∅) _ _)).
  - constructor.
  - split.
    + cbn. repeat constructor; lia.
    + intros x t Hx. cbn in Hx. set_solver.
Defined.

(** ** Sessions and the store *)

Lemma append_take (e : HistoryItem) (h : list HistoryItem) :
  take 100 (append e h) = append e h.
Proof.
  unfold append. change (Z.to_nat MAX_HISTORY_ITEMS_DISPLAYED) with 100%nat.
  rewrite take_take, Nat.min_id. reflexivity.
Qed.

Lemma web_perform_inUse toFixed a (w : World (list HistoryItem)) :
  inUse w -> inUse (fst (Web.perform toFixed a w)).
Proof.
  intros (Hl & Hb & (Hg & Hs & Hr) & Hsync).
  destruct a as [text|u|idNow tsNow|[|]]; cbn [Web.perform].
  - repeat split; assumption.
  - repeat split; assumption.
  - unfold bind at 1, get. destruct (isInputValid (inputValue w)) eqn:Hv.
    + destruct (web_handleConvert_valid toFixed w idNow tsNow Hv) as [text E].
      unfold bind. rewrite E. unfold Web.saveHistory.
      rewrite saveHistoryWith_written by assumption.
      cbn [fst history storage]. rewrite append_take.
      repeat split; try assumption; [apply append_length|].
      unfold inSync, slot. cbn. apply lookup_insert_eq.
    + rewrite (web_handleConvert_invalid toFixed w idNow tsNow Hv).
      repeat split; assumption.
  - unfold bind. rewrite web_clear_removes by exact Hr.
    unfold Web.saveHistory. rewrite saveHistoryWith_written by assumption.
    cbn [fst history storage].
    repeat split; try assumption; [cbn; unfold MAX_HISTORY_ITEMS_DISPLAYED; lia|].
    unfold inSync, slot. cbn. apply lookup_insert_eq.
  - repeat split; assumption.
Qed.

Lemma native_perform_inUse toFixed a (w : World (list HistoryItem)) :
  inUse w -> inUse (fst (Native.perform toFixed a w)).
Proof.
  intros (Hl & Hb & (Hg & Hs & Hr) & Hsync).
  destruct a as [text|u|idNow tsNow|[|]]; cbn [Native.perform].
  - repeat split; assumption.
  - repeat split; assumption.
  - unfold bind at 1, get. destruct (isInputValid (inputValue w)) eqn:Hv.
    + destruct (native_handleConvert_valid toFixed w idNow tsNow Hv) as [text E].
      unfold bind. rewrite E. unfold Native.saveHistory.
      rewrite saveHistoryWith_written by assumption.
      cbn [fst history storage]. rewrite append_take.
      repeat split; try assumption; [apply append_length|].
      unfold inSync, slot. cbn. apply lookup_insert_eq.
    + rewrite (native_handleConvert_invalid toFixed w idNow tsNow Hv).
      repeat split; assumption.
  - unfold Native.handleClearHistory. run_effect.
    cbn -[Native.saveHistory inUse].
    unfold Native.saveHistory.
    rewrite saveHistoryWith_written by assumption.
    cbn [fst history storage].
    repeat split; try assumption; [cbn; unfold MAX_HISTORY_ITEMS_DISPLAYED; lia|].
    unfold inSync, slot. cbn. apply lookup_insert_eq.
  - cbn. repeat split; assumption.
Qed.

Section SessionsInUse.
Variable perform : Action -> M (World (list HistoryItem)) unit.
Hypothesis perform_wellBehaved : wellBehaved perform.
Hypothesis perform_inUse : forall a w, inUse w -> inUse (fst (perform a w)).

Lemma run_inUse actions : forall w : World (list HistoryItem),
  inUse w -> inUse (fst (run perform actions w)).
Proof.
  induction actions as [|a rest IH]; intros w Hw; [exact Hw|].
  destruct (run_cons perform perform_wellBehaved a rest w)
    as (w1 & E1 & E & _).
  rewrite E. apply IH. specialize (perform_inUse a w Hw).
  rewrite E1 in perform_inUse. exact perform_inUse.
Qed.
End SessionsInUse.

(** X22. On a screen in use (loaded, at most 100 items, a store that works
    and holds the text of the history) every session ends on a screen in
    use: after each action the slot holds the text of the history that is
    in memory, on both screens. *)
Theorem session_keeps_store_in_sync
    (toFixed : JS.number -> Z -> string)
    (actions : list Action) (w : World (list HistoryItem)) :
  inUse w ->
  inUse (fst (run (Web.perform toFixed) actions w))
  /\ inUse (fst (run (Native.perform toFixed) actions w)).
Proof.
  intros Hw. split.
  - apply run_inUse;
      [apply web_perform_wellBehaved|apply web_perform_inUse|exact Hw].
  - apply run_inUse;
      [apply native_perform_wellBehaved|apply native_perform_inUse|exact Hw].
Qed.

Lemma session_keeps_store_in_sync_witness :
  inSync (fst (run (Web.perform (fun _ _ => "")) sampleSession
                 (ready "" MgDl [] {[ HISTORY_STORAGE_KEY := JS.Json (JS.Array []) ]}))).
Proof.
  refine (proj2 (proj2 (proj2 (proj1
            (session_keeps_store_in_sync (fun _ _ => "") sampleSession _ _))))).
  split; [reflexivity|]. split; [vm_compute; discriminate|].
  split; [repeat split|reflexivity].
Defined.




(** ** A start after a value that is not finite *)

Lemma jsonImage_notFiniteItem (item : HistoryItem) :
  notFiniteItem item = true ->
  hasBothValues (JS.jsonImage (valueOfItem item)) = false.
Proof.
  unfold notFiniteItem, valueOfItem, hasBothValues. cbn.
  destruct (mgdlValue item) as [[|]|[|]| |[|] m1 e1]; cbn; try reflexivity;
    destruct (mmolValue item) as [[|]|[|]| |[|] m2 e2]; cbn;
    intros H; try reflexivity; discriminate H.
Qed.

(** X24. A value that is not finite makes the next start fail.  On a
    screen in use with a [NaN] or an infinity in one of the first 20
    items of the history, the slot holds [null] for that value; mounting
    either screen on this store loads the list, throws a [TypeError]
    where the table is rendered, and writes nothing, so that the store is
    as it was and the next start fails in the same way. *)
Theorem restart_after_a_value_that_is_not_finite
    (w : World (list HistoryItem)) (item : HistoryItem) :
  inUse w ->
  item ∈ take 20 (history w) ->
  notFiniteItem item = true ->
  let loaded := mkWorld "" MgDl (JS.jsonImage (valueOfHistory (history w)))
                        false (storage w) [] in
  Web.mount (mounted (JS.Array []) (storage w))
  = (loaded, JS.Throw JS.TypeError)
  /\ Native.mount (mounted (JS.Array []) (storage w))
     = (loaded, JS.Throw JS.TypeError).
Proof.
  intros (Hl & Hb & Hw & Hsync) Hin Hnf loaded.
  unfold inSync, slot in Hsync. unfold MAX_HISTORY_ITEMS_DISPLAYED in Hb.
  assert (Hlen : (length (map valueOfItem (history w)) <= 100)%nat)
    by (rewrite length_map; lia).
  pose proof (web_mount_of_snapshot _ _ Hw Hlen Hsync) as Ew.
  pose proof (native_mount_of_snapshot _ _ Hw Hlen Hsync) as En.
  cbn zeta in Ew, En. fold (valueOfHistory (history w)) in Ew, En.
  fold loaded in Ew, En.
  assert (Hr : render loaded = (loaded, JS.Throw JS.TypeError)).
  { apply (render_throws loaded
             (map JS.jsonImage (map valueOfItem (history w)))
             (JS.jsonImage (valueOfItem item))); [reflexivity|reflexivity| |].
    - rewrite <- !fmap_take. apply list_elem_of_fmap_2, list_elem_of_fmap_2.
      exact Hin.
    - apply jsonImage_notFiniteItem. exact Hnf. }
  rewrite Hr in Ew, En. split; [exact Ew|exact En].
Qed.

Lemma restart_after_a_value_that_is_not_finite_witness :
  let w := fst (run (Web.perform (fun _ _ => ""))
                  [TypeInput "1e999"; PressConvert 1000 1000]
                  (ready "" MgDl [] {[ HISTORY_STORAGE_KEY := JS.Json (JS.Array []) ]})) in
  slot w = Some (JS.Json (JS.Array [nullified "1000" 1000]))
  /\ snd (Web.mount (mounted (JS.Array []) (storage w)))
     = JS.Throw JS.TypeError.
Proof.
  intros w.
  assert (Huse : inUse w).
  { split; [vm_compute; reflexivity|].
    split; [vm_compute; discriminate|].
    split; [vm_compute; repeat split|vm_compute; reflexivity]. }
  assert (Hin : mkHistoryItem "1000" 1000 JS.Infinity JS.Infinity
                ∈ take 20 (history w)) by (vm_compute; left).
  split; [vm_compute; reflexivity|].
  rewrite (proj1 (restart_after_a_value_that_is_not_finite w
                    (mkHistoryItem "1000" 1000 JS.Infinity JS.Infinity)
                    Huse Hin eq_refl)).
  reflexivity.
Defined.

(** * The accuracy of the conversion *)

(** ** Powers of two *)

Lemma pow2_pos (e : Z) : (0 < 2 ^ e)%Q.
Proof. apply Qpower_0_lt. reflexivity. Qed.

Lemma pow2_add (a b : Z) : (2 ^ (a + b) == 2 ^ a * 2 ^ b)%Q.
Proof. apply Qpower_plus. discriminate. Qed.

Lemma pow2_le (a b : Z) : a <= b -> (2 ^ a <= 2 ^ b)%Q.
Proof. intros H. apply Qpower_le_compat_l; [exact H|discriminate]. Qed.

Lemma pow2_lt_inv (a b : Z) : (2 ^ a < 2 ^ b)%Q -> a < b.
Proof.
  intros H. destruct (Z.lt_ge_cases a b) as [Hlt|Hge]; [exact Hlt|].
  pose proof (pow2_le b a Hge). lra.
Qed.

Lemma pow2_Z (n : Z) : 0 <= n -> (inject_Z (2 ^ n) == 2 ^ n)%Q.
Proof. intros Hn. apply (Zpower_Qpower 2 n Hn). Qed.

Lemma inject_Z_le (a b : Z) : a <= b -> (inject_Z a <= inject_Z b)%Q.
Proof. intros H. rewrite <- Zle_Qle. exact H. Qed.

Lemma inject_Z_lt (a b : Z) : a < b -> (inject_Z a < inject_Z b)%Q.
Proof. intros H. rewrite <- Zlt_Qlt. exact H. Qed.

(** ** The digits of a mantissa *)

Lemma digits2_pos_bounds (p : positive) :
  2 ^ (Z.pos (digits2_pos p) - 1) <= Z.pos p < 2 ^ Z.pos (digits2_pos p).
Proof.
  induction p as [p IH|p IH|]; cbn [digits2_pos];
    [| |split; [reflexivity|reflexivity]].
  - rewrite Pos2Z.inj_succ.
    replace (Z.succ (Z.pos (digits2_pos p)) - 1)
      with (Z.succ (Z.pos (digits2_pos p) - 1)) by lia.
    rewrite !Z.pow_succ_r by lia. lia.
  - rewrite Pos2Z.inj_succ.
    replace (Z.succ (Z.pos (digits2_pos p)) - 1)
      with (Z.succ (Z.pos (digits2_pos p) - 1)) by lia.
    rewrite !Z.pow_succ_r by lia. lia.
Qed.

Lemma Zdigits2_bounds (m : Z) :
  0 < m -> 2 ^ (Zdigits2 m - 1) <= m < 2 ^ Zdigits2 m.
Proof.
  destruct m as [|p|p]; try lia. intros _. apply digits2_pos_bounds.
Qed.

(** ** Shifting a mantissa to the right *)

Lemma shr_1_half mrs : 0 <= shr_m mrs -> shr_m (shr_1 mrs) = shr_m mrs / 2.
Proof.
  destruct mrs as [m r s]. cbn [shr_m]. intros Hm.
  destruct m as [|[p|p|]|p]; cbn [shr_1 shr_m]; try lia.
  - reflexivity.
  - apply (Z.div_unique (Z.pos p~1) 2 (Z.pos p) 1); lia.
  - apply (Z.div_unique (Z.pos p~0) 2 (Z.pos p) 0); lia.
  - reflexivity.
Qed.

Lemma iter_shr_1_floor p : forall mrs,
  0 <= shr_m mrs ->
  shr_m (SpecFloat.iter_pos shr_1 p mrs) = shr_m mrs / 2 ^ Z.pos p.
Proof.
  induction p as [p IH|p IH|]; intros mrs Hm; cbn [SpecFloat.iter_pos].
  - rewrite IH by (apply iter_shr_1_nonneg, shr_1_nonneg, Hm).
    rewrite IH by (apply shr_1_nonneg, Hm).
    rewrite shr_1_half by exact Hm.
    replace (2 ^ Z.pos p~1) with (2 * 2 ^ Z.pos p * 2 ^ Z.pos p).
    + rewrite <- !Z.div_div by lia. reflexivity.
    + replace (Z.pos p~1) with (1 + Z.pos p + Z.pos p) by lia.
      rewrite !Z.pow_add_r by lia. reflexivity.
  - rewrite IH by (apply iter_shr_1_nonneg, Hm).
    rewrite IH by exact Hm.
    replace (2 ^ Z.pos p~0) with (2 ^ Z.pos p * 2 ^ Z.pos p).
    + rewrite <- Z.div_div by lia. reflexivity.
    + replace (Z.pos p~0) with (Z.pos p + Z.pos p) by lia.
      rewrite Z.pow_add_r by lia. reflexivity.
  - apply shr_1_half, Hm.
Qed.

(** What [shr_fexp] does to a mantissa that is not negative: the new
    exponent is the larger of the old one and the one the format asks
    for, and the mantissa is divided by the power of two between them. *)
Lemma shr_fexp_floor m e l :
  0 <= m ->
  let e' := Z.max e (fexp JS.prec JS.emax (Zdigits2 m + e)) in
  snd (shr_fexp JS.prec JS.emax m e l) = e'
  /\ shr_m (fst (shr_fexp JS.prec JS.emax m e l)) = m / 2 ^ (e' - e).
Proof.
  intros Hm e'. unfold shr_fexp, shr.
  assert (H0 : shr_m (shr_record_of_loc m l) = m)
    by (destruct l as [|[| |]]; reflexivity).
  destruct (fexp JS.prec JS.emax (Zdigits2 m + e) - e) as [|p|p] eqn:E;
    cbn [fst snd].
  - assert (e' = e) by (unfold e'; lia). subst e'.
    split; [congruence|]. rewrite H0.
    replace (_ - e) with 0 by lia. rewrite Z.div_1_r. reflexivity.
  - assert (e' = e + Z.pos p) by (unfold e'; lia).
    split; [congruence|].
    rewrite iter_shr_1_floor by (rewrite H0; exact Hm).
    rewrite H0. f_equal. f_equal. lia.
  - assert (e' = e) by (unfold e'; lia).
    split; [congruence|]. rewrite H0.
    replace (_ - e) with 0 by lia. rewrite Z.div_1_r. reflexivity.
Qed.

(** ** Brackets

    A mantissa [m] at the exponent [e] brackets the number [x] when
    [(m - a) * 2^e <= x < (m + 1) * 2^e]; [a] is [0] for a truncation and
    [1] after a rounding. *)

Lemma floor_bracket (m n e : Z) (a x : Q) :
  0 <= m -> 0 <= n -> (0 <= a)%Q ->
  ((inject_Z m - a) * 2 ^ e <= x)%Q ->
  (x < (inject_Z m + 1) * 2 ^ e)%Q ->
  ((inject_Z (m / 2 ^ n) - a) * 2 ^ (e + n) <= x)%Q
  /\ (x < (inject_Z (m / 2 ^ n) + 1) * 2 ^ (e + n))%Q.
Proof.
  intros Hm Hn Ha Hlo Hhi.
  assert (HN : 0 < 2 ^ n) by (apply Z.pow_pos_nonneg; lia).
  pose proof (Z.div_mod m (2 ^ n) ltac:(lia)) as Hdiv.
  pose proof (Z.mod_pos_bound m (2 ^ n) HN) as Hr.
  set (q := m / 2 ^ n) in *. set (r := m mod 2 ^ n) in *.
  assert (Hq : (inject_Z m == inject_Z (2 ^ n) * inject_Z q + inject_Z r)%Q).
  { rewrite <- inject_Z_mult, <- inject_Z_plus, <- Hdiv. reflexivity. }
  pose proof (inject_Z_le 0 r ltac:(lia)) as Hr0.
  pose proof (inject_Z_le (r + 1) (2 ^ n) ltac:(lia)) as Hr1.
  rewrite inject_Z_plus in Hr1.
  pose proof (inject_Z_le 1 (2 ^ n) ltac:(lia)) as HN1.
  rewrite pow2_add, <- (pow2_Z n Hn).
  pose proof (pow2_pos e) as He.
  change (inject_Z 0) with 0%Q in Hr0. change (inject_Z 1) with 1%Q in *.
  set (N := inject_Z (2 ^ n)) in *. set (E := (2 ^ e)%Q) in *.
  set (Q1 := inject_Z q) in *. set (R := inject_Z r) in *.
  set (M := inject_Z m) in *.
  split.
  - apply Qle_trans with ((M - a) * E)%Q; [|exact Hlo].
    assert (H : (0 <= ((M - a) - (Q1 - a) * N) * E)%Q).
    { apply Qmult_le_0_compat; [|lra].
      assert (0 <= a * (N - 1))%Q by (apply Qmult_le_0_compat; lra).
      lra. }
    lra.
  - apply Qlt_le_trans with ((M + 1) * E)%Q; [exact Hhi|].
    assert (H : (0 <= ((Q1 + 1) * N - (M + 1)) * E)%Q).
    { apply Qmult_le_0_compat; [|lra]. lra. }
    lra.
Qed.

(** The exponent that [shr_fexp] chooses is not above a bound that the old
    exponent, the mantissa and the least exponent keep. *)
Lemma fexp_bound (m e : Z) (B : Q) :
  0 <= m ->
  (2 ^ e <= B)%Q ->
  (inject_Z m * 2 ^ e * 2 ^ (-52) <= B)%Q ->
  (2 ^ (-1074) <= B)%Q ->
  (2 ^ (Z.max e (fexp JS.prec JS.emax (Zdigits2 m + e))) <= B)%Q.
Proof.
  intros Hm He Hme Hmin.
  apply Z.max_case_strong; intros _; [exact He|].
  unfold fexp, emin, JS.prec, JS.emax.
  apply Z.max_case_strong; intros _; [|exact Hmin].
  destruct (Z.eq_dec m 0) as [->|Hne].
  - cbn [Zdigits2]. apply Qle_trans with (2 ^ e)%Q; [|exact He].
    apply pow2_le. lia.
  - pose proof (Zdigits2_bounds m ltac:(lia)) as [Hd _].
    assert (Hd0 : 0 <= Zdigits2 m - 1)
      by (destruct m; cbn; lia).
    replace (Zdigits2 m + e - 53) with ((Zdigits2 m - 1) + e + (-52)) by lia.
    rewrite !pow2_add, <- (pow2_Z _ Hd0).
    apply Qle_trans with (inject_Z m * 2 ^ e * 2 ^ (-52))%Q; [|exact Hme].
    pose proof (inject_Z_le _ _ Hd) as Hq.
    pose proof (pow2_pos e). pose proof (pow2_pos (-52)).
    apply Qmult_le_compat_r; [|lra].
    apply Qmult_le_compat_r; [exact Hq|lra].
Qed.

Lemma round_nearest_even_bounds m l :
  m <= round_nearest_even m l <= m + 1.
Proof.
  destruct l as [|[| |]]; cbn; try lia. destruct (Z.even m); lia.
Qed.

(** ** The rounding of a bracketed number

    A number of the normal range that a mantissa brackets, at an exponent
    small enough for 52 bits to stand above it, is rounded to a finite
    binary64 within [2^-51] of it. *)
Lemma binary_round_aux_close (mz ez : Z) (lz : location) (x : Q) :
  0 <= mz ->
  (inject_Z mz * 2 ^ ez <= x)%Q ->
  (x < (inject_Z mz + 1) * 2 ^ ez)%Q ->
  (2 ^ ez <= x * 2 ^ (-52))%Q ->
  (2 ^ (-1022) <= x)%Q ->
  (x < 2 ^ 1023)%Q ->
  exists m e,
    binary_round_aux JS.prec JS.emax false mz ez lz = S754_finite false m e
    /\ (Qabs (inject_Z (Z.pos m) * 2 ^ e - x) <= x * 2 ^ (-51))%Q.
Proof.
  intros Hm Hlo Hhi Hez Hmin Hmax.
  assert (Hx : (0 < x)%Q) by (pose proof (pow2_pos (-1022)); lra).
  assert (E52 : (2 ^ (-52) == 1 # 4503599627370496)%Q) by reflexivity.
  assert (E51 : (2 ^ (-51) == 1 # 2251799813685248)%Q) by reflexivity.
  unfold binary_round_aux.
  (* the first shift *)
  pose proof (shr_fexp_floor mz ez lz Hm) as [He1 Hm1]. cbn zeta in He1, Hm1.
  pose proof (shr_fexp_nonneg mz ez lz Hm) as Hn1.
  destruct (shr_fexp JS.prec JS.emax mz ez lz) as [mrs1 e1].
  cbn [fst snd] in He1, Hm1, Hn1. rewrite <- He1 in Hm1.
  assert (Hb1 : (2 ^ e1 <= x * 2 ^ (-52))%Q).
  { rewrite He1. apply fexp_bound; [exact Hm|exact Hez| |].
    - pose proof (pow2_pos (-52)).
      apply Qmult_le_compat_r; [exact Hlo|lra].
    - replace (-1074) with (-1022 + -52) by reflexivity. rewrite pow2_add.
      pose proof (pow2_pos (-52)).
      apply Qmult_le_compat_r; [exact Hmin|lra]. }
  assert (Hs1 : 0 <= e1 - ez) by lia.
  destruct (floor_bracket mz (e1 - ez) ez 0 x Hm Hs1 ltac:(lra)
              ltac:(lra) Hhi) as [Hlo1 Hhi1].
  replace (ez + (e1 - ez)) with e1 in Hlo1, Hhi1 by lia.
  rewrite <- Hm1 in Hlo1, Hhi1.
  (* the rounding *)
  pose proof (round_nearest_even_bounds (shr_m mrs1) (loc_of_shr_record mrs1))
    as [Hr1 Hr2].
  set (m2 := round_nearest_even (shr_m mrs1) (loc_of_shr_record mrs1)) in *.
  assert (Hm2 : 0 <= m2) by lia.
  pose proof (pow2_pos e1) as Hp1.
  assert (Hlo2 : ((inject_Z m2 - 1) * 2 ^ e1 <= x)%Q).
  { apply Qle_trans with ((inject_Z (shr_m mrs1) - 0) * 2 ^ e1)%Q; [|exact Hlo1].
    apply Qmult_le_compat_r; [|lra].
    pose proof (inject_Z_le _ _ Hr2) as H. rewrite inject_Z_plus in H.
    change (inject_Z 1) with 1%Q in H. lra. }
  assert (Hhi2 : (x < (inject_Z m2 + 1) * 2 ^ e1)%Q).
  { apply Qlt_le_trans with ((inject_Z (shr_m mrs1) + 1) * 2 ^ e1)%Q;
      [exact Hhi1|].
    apply Qmult_le_compat_r; [|lra].
    pose proof (inject_Z_le _ _ Hr1). lra. }
  (* the second shift *)
  pose proof (shr_fexp_floor m2 e1 loc_Exact Hm2) as [He2 Hm3].
  cbn zeta in He2, Hm3.
  pose proof (shr_fexp_nonneg m2 e1 loc_Exact Hm2) as Hn3.
  destruct (shr_fexp JS.prec JS.emax m2 e1 loc_Exact) as [mrs2 e2].
  cbn [fst snd] in He2, Hm3, Hn3. rewrite <- He2 in Hm3.
  assert (Hb2 : (2 ^ e2 <= x * 2 ^ (-51))%Q).
  { rewrite He2. apply fexp_bound; [exact Hm2|lra| |].
    - assert (H : (inject_Z m2 * 2 ^ e1 <= x + x * 2 ^ (-52))%Q) by lra.
      assert (H' : (inject_Z m2 * 2 ^ e1 * 2 ^ (-52)
                    <= (x + x * 2 ^ (-52)) * 2 ^ (-52))%Q)
        by (apply Qmult_le_compat_r; [exact H|lra]).
      rewrite E52 in H'. lra.
    - replace (-1074) with (-1022 + -52) by reflexivity. rewrite pow2_add.
      assert (H : (2 ^ (-1022) * 2 ^ (-52) <= x * 2 ^ (-52))%Q)
        by (apply Qmult_le_compat_r; [exact Hmin|lra]).
      lra. }
  assert (Hs2 : 0 <= e2 - e1) by lia.
  destruct (floor_bracket m2 (e2 - e1) e1 1 x Hm2 Hs2 ltac:(lra) Hlo2 Hhi2)
    as [Hlo3 Hhi3].
  replace (e1 + (e2 - e1)) with e2 in Hlo3, Hhi3 by lia.
  rewrite <- Hm3 in Hlo3, Hhi3.
  pose proof (pow2_pos e2) as Hp2.
  (* the result *)
  destruct (shr_m mrs2) as [|m|m] eqn:Em; [| |lia].
  - exfalso. change (inject_Z 0) with 0%Q in Hhi3. lra.
  - assert (He : e2 < 972).
    { apply pow2_lt_inv. apply Qle_lt_trans with (x * 2 ^ (-51))%Q; [exact Hb2|].
      replace 972 with (1023 + -51) by reflexivity. rewrite pow2_add.
      apply Qmult_lt_compat_r; [lra|exact Hmax]. }
    replace (e2 <=? JS.emax - JS.prec) with true
      by (symmetry; apply Z.leb_le; unfold JS.emax, JS.prec; lia).
    exists m, e2. split; [reflexivity|].
    apply Qabs_Qle_condition. split; lra.
Qed.

(** ** The quotient and the product before rounding *)

(** [SFdiv_core_binary] truncates the quotient [x] of two positive numbers
    to a mantissa that brackets it, at an exponent with 52 bits above
    it. *)
Lemma SFdiv_core_bracket (m1 m2 : positive) (e1 e2 : Z) (x : Q) :
  (x * (inject_Z (Z.pos m2) * 2 ^ e2) == inject_Z (Z.pos m1) * 2 ^ e1)%Q ->
  (2 ^ (-1022) <= x)%Q ->
  let '(q, e', _) :=
    SFdiv_core_binary JS.prec JS.emax (Z.pos m1) e1 (Z.pos m2) e2 in
  0 <= q
  /\ (inject_Z q * 2 ^ e' <= x)%Q
  /\ (x < (inject_Z q + 1) * 2 ^ e')%Q
  /\ (2 ^ e' <= x * 2 ^ (-52))%Q.
Proof.
  intros Hx Hmin.
  pose proof (SFdiv_core_nonneg (Z.pos m1) e1 (Z.pos m2) e2 ltac:(lia) ltac:(lia))
    as Hq0.
  unfold SFdiv_core_binary in *.
  set (d1 := Zdigits2 (Z.pos m1)) in *. set (d2 := Zdigits2 (Z.pos m2)) in *.
  set (e' := Z.min (fexp JS.prec JS.emax (d1 + e1 - (d2 + e2))) (e1 - e2)) in *.
  set (s := e1 - e2 - e') in *.
  assert (Hs : 0 <= s) by (unfold s, e'; lia).
  set (m' := match s with
             | 0 => Z.pos m1
             | Z.pos _ => Z.shiftl (Z.pos m1) s
             | Z.neg _ => 0
             end) in *.
  assert (Hm' : m' = Z.pos m1 * 2 ^ s).
  { unfold m'. destruct s as [|p|p] eqn:Es; [lia| |lia].
    apply Z.shiftl_mul_pow2. lia. }
  destruct (Z.div_eucl m' (Z.pos m2)) as [q r] eqn:E. cbn [fst] in Hq0.
  pose proof (Z_div_mod m' (Z.pos m2) ltac:(lia)) as Hdm. rewrite E in Hdm.
  destruct Hdm as [Hdm Hr].
  split; [exact Hq0|].
  pose proof (pow2_pos e') as He'. pose proof (pow2_pos e2) as He2.
  pose proof (pow2_pos (-52)) as H52.
  assert (HM2 : (0 < inject_Z (Z.pos m2))%Q) by (apply (inject_Z_lt 0); lia).
  (* x * m2 = m' * 2^e' *)
  assert (Hxm : (x * inject_Z (Z.pos m2) == inject_Z m' * 2 ^ e')%Q).
  { apply (Qmult_inj_r _ _ (2 ^ e2)%Q); [lra|].
    rewrite Hm', inject_Z_mult, (pow2_Z s Hs).
    transitivity (inject_Z (Z.pos m1) * 2 ^ e1)%Q; [rewrite <- Hx; ring|].
    replace e1 with (s + e' + e2) at 1 by (unfold s; lia).
    rewrite !pow2_add. ring. }
  assert (Hlo : (inject_Z q * inject_Z (Z.pos m2) <= inject_Z m')%Q).
  { rewrite <- inject_Z_mult. apply inject_Z_le. lia. }
  assert (Hhi : (inject_Z m' < (inject_Z q + 1) * inject_Z (Z.pos m2))%Q).
  { change 1%Q with (inject_Z 1). rewrite <- inject_Z_plus, <- inject_Z_mult.
    apply inject_Z_lt. lia. }
  split; [|split].
  - apply (Qmult_le_r _ _ (inject_Z (Z.pos m2))); [exact HM2|].
    rewrite Hxm.
    assert (H : (0 <= (inject_Z m' - inject_Z q * inject_Z (Z.pos m2)) * 2 ^ e')%Q)
      by (apply Qmult_le_0_compat; lra).
    lra.
  - apply (Qmult_lt_r _ _ (inject_Z (Z.pos m2))); [exact HM2|].
    rewrite Hxm.
    assert (H : (0 < ((inject_Z q + 1) * inject_Z (Z.pos m2) - inject_Z m') * 2 ^ e')%Q)
      by (apply Qmult_lt_0_compat; lra).
    lra.
  - apply Qle_trans with (2 ^ fexp JS.prec JS.emax (d1 + e1 - (d2 + e2)))%Q;
      [apply pow2_le; unfold e'; lia|].
    unfold fexp, emin, JS.prec, JS.emax.
    apply Z.max_case_strong; intros _.
    + (* 2^(A-1) <= x *)
      pose proof (Zdigits2_bounds (Z.pos m1) ltac:(lia)) as [Hd1 _].
      pose proof (Zdigits2_bounds (Z.pos m2) ltac:(lia)) as [_ Hd2].
      fold d1 in Hd1. fold d2 in Hd2.
      assert (Hd10 : 0 <= d1 - 1) by (unfold d1; cbn; lia).
      assert (Hd20 : 0 <= d2) by (unfold d2; cbn; lia).
      replace (d1 + e1 - (d2 + e2) - 53)
        with ((d1 - 1) + e1 + (- d2) + (- e2) + (-52)) by lia.
      rewrite !pow2_add.
      apply Qmult_le_compat_r; [|lra].
      apply (Qmult_le_r _ _ (inject_Z (Z.pos m2) * 2 ^ e2)%Q);
        [apply Qmult_lt_0_compat; lra|].
      rewrite Hx.
      pose proof (pow2_pos e1) as He1. pose proof (pow2_pos (- d2)) as Hnd2.
      pose proof (pow2_pos (- e2)) as Hne2.
      assert (Hinv2 : (2 ^ (- e2) * 2 ^ e2 == 1)%Q)
        by (rewrite <- (pow2_add (- e2) e2); replace (- e2 + e2) with 0 by lia; reflexivity).
      assert (Hinvd : (2 ^ (- d2) * inject_Z (2 ^ d2) == 1)%Q).
      { rewrite (pow2_Z d2 Hd20), <- (pow2_add (- d2) d2).
        replace (- d2 + d2) with 0 by lia. reflexivity. }
      assert (Hm2d : (2 ^ (- d2) * inject_Z (Z.pos m2) <= 1)%Q).
      { rewrite <- Hinvd. apply Qmult_le_l; [exact Hnd2|].
        apply inject_Z_le. lia. }
      rewrite <- (pow2_Z _ Hd10).
      pose proof (inject_Z_le _ _ Hd1) as Hq1.
      assert (Hpos : (0 < inject_Z (2 ^ (d1 - 1)))%Q)
        by (apply (inject_Z_lt 0); apply Z.pow_pos_nonneg; lia).
      (* left = 2^(d1-1) * 2^e1 * (2^-d2 * m2) * (2^-e2 * 2^e2) *)
      apply Qle_trans with (inject_Z (2 ^ (d1 - 1)) * 2 ^ e1)%Q.
      * assert (H : (inject_Z (2 ^ (d1 - 1)) * 2 ^ e1 * 2 ^ (- d2) * 2 ^ (- e2)
                     * (inject_Z (Z.pos m2) * 2 ^ e2)
                     == (inject_Z (2 ^ (d1 - 1)) * 2 ^ e1)
                        * (2 ^ (- d2) * inject_Z (Z.pos m2))
                        * (2 ^ (- e2) * 2 ^ e2))%Q) by ring.
        rewrite H, Hinv2, Qmult_1_r.
        rewrite <- (Qmult_1_r (inject_Z (2 ^ (d1 - 1)) * 2 ^ e1)) at 2.
        apply Qmult_le_l; [apply Qmult_lt_0_compat; lra|exact Hm2d].
      * apply Qmult_le_compat_r; [exact Hq1|lra].
    + assert (H : (2 ^ (-1022 + -52) <= x * 2 ^ (-52))%Q)
        by (rewrite pow2_add; apply Qmult_le_compat_r; [exact Hmin|lra]).
      exact H.
Qed.

(** ** Within the tolerance *)

Lemma CONVERSION_FACTOR_finite :
  CONVERSION_FACTOR = S754_finite false 5071672425367942 (-48).
Proof. vm_compute. reflexivity. Qed.

(** A rounded result within [2^-51] of a number that is within [2^-50] of
    the exact one is within the tolerance of the exact one. *)
Lemma close_within (r : JS.number) (m : positive) (e : Z) (x exact : Q) :
  r = S754_finite false m e ->
  (0 < exact)%Q ->
  (Qabs (inject_Z (Z.pos m) * 2 ^ e - x) <= x * 2 ^ (-51))%Q ->
  (exact * (1 - (1 # 1000000000000)) <= x)%Q ->
  (x <= exact * (1 + (1 # 1000000000000)))%Q ->
  withinRelative (1 # 10 ^ 9) r exact.
Proof.
  intros -> Hex Hr Hlo Hhi. split; [reflexivity|].
  cbn [valueOf]. rewrite (Qabs_pos exact) by lra.
  assert (E51 : (2 ^ (-51) == 1 # 2251799813685248)%Q) by reflexivity.
  rewrite E51 in Hr.
  apply Qabs_Qle_condition in Hr as [Hr1 Hr2].
  change (1 # 10 ^ 9)%Q with (1 # 1000000000)%Q.
  apply Qabs_Qle_condition. split; lra.
Qed.

Lemma division_within (m : positive) (e : Z) :
  let v := S754_finite false m e in
  (1 # 10 ^ 300 <= valueOf v)%Q ->
  (valueOf v <= inject_Z (10 ^ 300))%Q ->
  withinRelative (1 # 10 ^ 9) (JS.div v CONVERSION_FACTOR) (valueOf v / factor).
Proof.
  intros v Hlo Hhi. unfold v, JS.div. rewrite CONVERSION_FACTOR_finite.
  cbn [SFdiv xorb].
  assert (EV : (valueOf (S754_finite false m e) == inject_Z (Z.pos m) * 2 ^ e)%Q)
    by (cbn [valueOf]; ring).
  set (V' := valueOf (S754_finite false m e)) in *.
  set (V := (inject_Z (Z.pos m) * 2 ^ e)%Q) in *.
  set (x := (V * (281474976710656 # 5071672425367942))%Q).
  assert (EC : (inject_Z 5071672425367942 * 2 ^ (-48)
                == 5071672425367942 # 281474976710656)%Q) by reflexivity.
  assert (Hxc : (x * (inject_Z 5071672425367942 * 2 ^ (-48)) == V)%Q)
    by (rewrite EC; unfold x; field).
  assert (Hlo' : (2 ^ (-1000) <= V')%Q).
  { apply Qle_trans with (1 # 10 ^ 300)%Q; [vm_compute; discriminate|exact Hlo]. }
  assert (Hhi' : (V' <= 2 ^ 1000)%Q).
  { apply Qle_trans with (inject_Z (10 ^ 300)); [exact Hhi|vm_compute; discriminate]. }
  assert (Hxc' : (x * (5071672425367942 # 281474976710656) == V)%Q)
    by (rewrite <- EC; exact Hxc).
  pose proof (pow2_pos (-1000)) as Hp. pose proof (pow2_pos 1000) as Hp1000.
  assert (Hx1 : (2 ^ (-1022) <= x)%Q).
  { change (-1022) with (-1000 + -22). rewrite pow2_add.
    assert (E22 : (2 ^ (-22) == 1 # 4194304)%Q) by reflexivity.
    rewrite E22. unfold x. lra. }
  assert (Hx2 : (x < 2 ^ 1023)%Q).
  { change 1023 with (1000 + 23). rewrite pow2_add.
    assert (E23 : (2 ^ 23 == 8388608)%Q) by reflexivity.
    rewrite E23. unfold x. lra. }
  pose proof (SFdiv_core_bracket m 5071672425367942 e (-48) x) as Hcore.
  specialize (Hcore Hxc Hx1).
  destruct (SFdiv_core_binary JS.prec JS.emax (Z.pos m) e
              (Z.pos 5071672425367942) (-48)) as [[q e'] l].
  destruct Hcore as (Hq & Hb1 & Hb2 & Hb3).
  destruct (binary_round_aux_close q e' l x Hq Hb1 Hb2 Hb3 Hx1 Hx2)
    as (m' & e'' & Er & Hrd).
  apply (close_within _ m' e'' x); [exact Er| |exact Hrd| |].
  - unfold factor. apply Qlt_shift_div_l; lra.
  - assert (Hex : (V' / factor * (180182 # 10000) == V')%Q)
      by (unfold factor; field; discriminate).
    set (exact := (V' / factor)%Q) in *. lra.
  - assert (Hex : (V' / factor * (180182 # 10000) == V')%Q)
      by (unfold factor; field; discriminate).
    set (exact := (V' / factor)%Q) in *. lra.
Qed.

Lemma product_within (m : positive) (e : Z) :
  let v := S754_finite false m e in
  (1 # 10 ^ 300 <= valueOf v)%Q ->
  (valueOf v <= inject_Z (10 ^ 300))%Q ->
  withinRelative (1 # 10 ^ 9) (JS.mul v CONVERSION_FACTOR) (valueOf v * factor).
Proof.
  intros v Hlo Hhi. unfold v, JS.mul. rewrite CONVERSION_FACTOR_finite.
  cbn [SFmul xorb].
  assert (EV : (valueOf (S754_finite false m e) == inject_Z (Z.pos m) * 2 ^ e)%Q)
    by (cbn [valueOf]; ring).
  set (V' := valueOf (S754_finite false m e)) in *.
  set (V := (inject_Z (Z.pos m) * 2 ^ e)%Q) in *.
  set (x := (V * (5071672425367942 # 281474976710656))%Q).
  assert (EC : (inject_Z 5071672425367942 * 2 ^ (-48)
                == 5071672425367942 # 281474976710656)%Q) by reflexivity.
  assert (Hlo' : (2 ^ (-1000) <= V')%Q).
  { apply Qle_trans with (1 # 10 ^ 300)%Q; [vm_compute; discriminate|exact Hlo]. }
  assert (Hhi' : (V' <= 2 ^ 1000)%Q).
  { apply Qle_trans with (inject_Z (10 ^ 300)); [exact Hhi|vm_compute; discriminate]. }
  pose proof (pow2_pos (-1000)) as Hp. pose proof (pow2_pos 1000) as Hp1000.
  pose proof (pow2_pos e) as Hpe. pose proof (pow2_pos (-48)) as Hp48.
  assert (Hx1 : (2 ^ (-1022) <= x)%Q).
  { change (-1022) with (-1000 + -22). rewrite pow2_add.
    assert (E22 : (2 ^ (-22) == 1 # 4194304)%Q) by reflexivity.
    rewrite E22. unfold x. lra. }
  assert (Hx2 : (x < 2 ^ 1023)%Q).
  { change 1023 with (1000 + 23). rewrite pow2_add.
    assert (E23 : (2 ^ 23 == 8388608)%Q) by reflexivity.
    rewrite E23. unfold x. lra. }
  (* the product of the mantissas holds the product exactly *)
  assert (Ex : (inject_Z (Z.pos (m * 5071672425367942)) * 2 ^ (e + -48) == x)%Q).
  { rewrite Pos2Z.inj_mul, inject_Z_mult, pow2_add. unfold x, V.
    rewrite <- EC. ring. }
  assert (Hb1 : (inject_Z (Z.pos (m * 5071672425367942)) * 2 ^ (e + -48) <= x)%Q)
    by (rewrite Ex; apply Qle_refl).
  assert (Hb2 : (x < (inject_Z (Z.pos (m * 5071672425367942)) + 1)
                     * 2 ^ (e + -48))%Q).
  { pose proof (pow2_pos (e + -48)).
    rewrite <- Ex. lra. }
  assert (Hb3 : (2 ^ (e + -48) <= x * 2 ^ (-52))%Q).
  { rewrite <- Ex.
    assert (E52 : (2 ^ (-52) == 1 # 4503599627370496)%Q) by reflexivity.
    rewrite E52. pose proof (pow2_pos (e + -48)) as Hpp.
    assert (Hm : (inject_Z 4503599627370496
                  <= inject_Z (Z.pos (m * 5071672425367942)))%Q)
      by (apply inject_Z_le; rewrite Pos2Z.inj_mul; lia).
    assert (H : (0 <= (inject_Z (Z.pos (m * 5071672425367942))
                       - inject_Z 4503599627370496) * 2 ^ (e + -48))%Q)
      by (apply Qmult_le_0_compat; lra).
    change (inject_Z 4503599627370496) with (4503599627370496 # 1)%Q in H.
    lra. }
  destruct (binary_round_aux_close (Z.pos (m * 5071672425367942)) (e + -48)
              loc_Exact x ltac:(lia) Hb1 Hb2 Hb3 Hx1 Hx2)
    as (m' & e'' & Er & Hrd).
  apply (close_within _ m' e'' x); [exact Er| |exact Hrd| |].
  - unfold factor. apply Qmult_lt_0_compat; lra.
  - unfold factor, x. lra.
  - unfold factor, x. lra.
Qed.

(** C1, as the code has it.  For every positive finite [v] from [1e-300] to
    [1e300], converting from mg/dL keeps [v] as the mg/dL value and gives
    a finite mmol/L value within the relative tolerance [1e-9] of
    [v / 18.0182]; converting from mmol/L keeps [v] as the mmol/L value and
    gives a finite mg/dL value within [1e-9] of [v * 18.0182].  These are
    the two values of the item that [handleConvert] puts at the head of
    the history, on both screens. *)
Theorem conversion_within_tolerance
    (toFixed : JS.number -> Z -> string) (m : positive) (e : Z) :
  let v := S754_finite false m e in
  (1 # 10 ^ 300 <= valueOf v)%Q ->
  (valueOf v <= inject_Z (10 ^ 300))%Q ->
  (let '(mgdl, mmol, _) := conversion toFixed v MgDl in
   mgdl = v /\ withinRelative (1 # 10 ^ 9) mmol (valueOf v / factor))
  /\
  (let '(mgdl, mmol, _) := conversion toFixed v MmolL in
   mmol = v /\ withinRelative (1 # 10 ^ 9) mgdl (valueOf v * factor))
  /\
  (forall (w : World (list HistoryItem)) (idNow tsNow : Z),
      JS.parseFloat (inputValue w) = v ->
      let '(mgdl, mmol, _) := conversion toFixed v (selectedUnit w) in
      head (history (fst (Web.handleConvert toFixed idNow tsNow w)))
      = Some (newEntry idNow tsNow mgdl mmol)
      /\ head (history (fst (Native.handleConvert toFixed idNow tsNow w)))
         = Some (newEntry idNow tsNow mgdl mmol)).
Proof.
  intros v Hlo Hhi.
  split; [|split].
  - unfold conversion. cbn [Unit_eqb].
    split; [reflexivity|apply division_within; assumption].
  - unfold conversion. cbn [Unit_eqb].
    split; [reflexivity|apply product_within; assumption].
  - intros w idNow tsNow Hv.
    assert (Hvalid : isInputValid (inputValue w) = true)
      by (unfold isInputValid; rewrite Hv; reflexivity).
    unfold Web.handleConvert, Native.handleConvert, bind, get.
    rewrite Hvalid, Hv. cbn [negb].
    unfold conversion. destruct (selectedUnit w); cbn; split; reflexivity.
Qed.

Lemma conversion_within_tolerance_witness :
  withinRelative (1 # 10 ^ 9)
    (JS.div (JS.parseFloat "120") CONVERSION_FACTOR)
    (valueOf (JS.parseFloat "120") / factor).
Proof.
  refine (proj2 (proj1 (conversion_within_tolerance (fun _ _ => "")
                          8444249301319680 (-46) _ _))).
  - vm_compute. discriminate.
  - vm_compute. discriminate.
Defined.

(** C1 as stated fails at both ends of the positive finite numbers.  The
    input [1e308], five characters, is valid and finite; in mmol/L its
    product with the factor is beyond the largest binary64, and the mg/dL
    value is [Infinity].  The least positive number, in mg/dL, gives the
    mmol/L value [0], which is not within [1e-9] of its quotient. *)
Lemma conversion_fails_at_the_extremes :
  (let v := JS.parseFloat "1e308" in
   isInputValid "1e308" = true
   /\ JS.isFinite v = true /\ (0 < valueOf v)%Q
   /\ (let '(mgdl, _, _) := conversion (fun _ _ => "") v MmolL in
       mgdl = JS.Infinity
       /\ ~ withinRelative (1 # 10 ^ 9) mgdl (valueOf v * factor)))
  /\
  (let v := S754_finite false 1 (-1074) in
   JS.isFinite v = true /\ (0 < valueOf v)%Q
   /\ (let '(_, mmol, _) := conversion (fun _ _ => "") v MgDl in
       mmol = JS.zero
       /\ ~ withinRelative (1 # 10 ^ 9) mmol (valueOf v / factor))).
Proof.
  cbn zeta. split.
  - split; [vm_compute; reflexivity|]. split; [vm_compute; reflexivity|].
    split; [vm_compute; reflexivity|].
    assert (E : JS.mul (JS.parseFloat "1e308") CONVERSION_FACTOR = JS.Infinity)
      by (vm_compute; reflexivity).
    unfold conversion. cbn [Unit_eqb]. rewrite E.
    split; [reflexivity|]. intros [H _]. discriminate H.
  - split; [reflexivity|]. split; [vm_compute; reflexivity|].
    assert (E : JS.div (S754_finite false 1 (-1074)) CONVERSION_FACTOR = JS.zero)
      by (vm_compute; reflexivity).
    unfold conversion. cbn [Unit_eqb]. rewrite E.
    split; [reflexivity|]. intros [_ H]. vm_compute in H. apply H. reflexivity.
Qed.
